(** * AIJMIROSHOP: order submission, inventory, ticket numbering and login

    A shallow embedding of the parts of the shop application that decide
    its stated properties:

    - [lib/supabase-repo.ts]   the repository over the hosted database
                               ([upsertProduct], [upsertClient],
                               [createOrder], ...);
    - [lib/settings.ts]        the users configuration (read from the cloud)
                               and the tickets configuration (kept in the
                               browser by the sales-order page);
    - [lib/auth-context.tsx]   [login];
    - [app/register-sale]      the cart handlers and [handleSubmit] of a sale;
    - the sales-order page     [handleSubmit] with the local ticket counter;
    - [app/inventory]          [handleSubmit] of the product form.

    Further parts, embedded after these: [lib/id.ts] (the identifier
    built from random bytes), [lib/validators], the clients form and the
    quick client, the searches of the sale page, the first-run check of
    [lib/settings.ts], the pages of the product table, the headers of an
    imported workbook, and the history page over the browser storage.

    Modelling conventions.
    - JavaScript numbers that the program keeps integral (stock, quantities,
      ticket counters) are [Z]; monetary amounts are [Z] as well (an amount
      in minor units), so the rounding of binary floating point is outside
      this model, but for the ticket counter of the sales orders: the sum
      that advances it is rounded as a binary64 number rounds it
      ([Js.add]).  The one non-number the code tests for, [NaN], appears as
      [None] in an [option Z].
    - A string is the text in bytes.  [trim], [toLowerCase], the class
      [\s] and [length] are written out for the ASCII range, and the
      properties that rest on what they do are stated for ASCII text
      ([Js.ascii_text]).
    - A table of the hosted database is a finite map from its primary key
      to the remaining columns.  Timestamps ([created_at]) are left out: no
      property below reads them.  An [insert] under a key that is taken is
      refused; the other constraints of the schema (foreign keys, the check
      on [qty]) are not written out, the oracle below stands for them.
    - Asynchronous calls run one after the other here; every request to
      the hosted database may fail, as decided by an oracle carried in the
      world, and a failed request changes nothing in the database.
    - [uid()] draws from an identifier source carried in the world. *)

From Stdlib Require Import ZArith Lia Ascii String.
From stdpp Require Import base option list gmap strings fin_maps pretty.

Local Open Scope string_scope.
Local Open Scope Z_scope.

(* ===================================================================== *)
(** * JavaScript built-ins used by the code *)
(* ===================================================================== *)

Module Js.

(** White space removed by [String.prototype.trim] and skipped by
    [parseInt], restricted to the ASCII range. *)
Definition is_white (c : ascii) : bool :=
  match Ascii.nat_of_ascii c with
  | 9%nat | 10%nat | 11%nat | 12%nat | 13%nat | 32%nat => true
  | _ => false
  end.

Fixpoint trimStart (s : string) : string :=
  match s with
  | String c s' => if is_white c then trimStart s' else s
  | EmptyString => EmptyString
  end.

Fixpoint trimEnd (s : string) : string :=
  match s with
  | String c s' =>
      match trimEnd s' with
      | EmptyString => if is_white c then EmptyString else String c EmptyString
      | t => String c t
      end
  | EmptyString => EmptyString
  end.

Definition trim (s : string) : string := trimEnd (trimStart s).

(** [String.prototype.toLowerCase] on the ASCII letters. *)
Definition lower_ascii (c : ascii) : ascii :=
  let n := Ascii.nat_of_ascii c in
  if (65 <=? n)%nat && (n <=? 90)%nat then Ascii.ascii_of_nat (n + 32) else c.

Fixpoint toLowerCase (s : string) : string :=
  match s with
  | String c s' => String (lower_ascii c) (toLowerCase s')
  | EmptyString => EmptyString
  end.

(** Truthiness of a string: only the empty string is falsy. *)
Definition truthy (s : string) : bool :=
  match s with EmptyString => false | _ => true end.

(** [a || b] on strings. *)
Definition or_else (a b : string) : string := if truthy a then a else b.

Definition digit (c : ascii) : option Z :=
  let n := Ascii.nat_of_ascii c in
  if (48 <=? n)%nat && (n <=? 57)%nat then Some (Z.of_nat n - 48) else None.

(** The longest prefix of decimal digits, accumulated left to right;
    [None] when there is no digit at all. *)
Fixpoint digits (acc : option Z) (s : string) : option Z :=
  match s with
  | String c s' =>
      match digit c with
      | Some d => digits (Some (10 * default 0 acc + d)) s'
      | None => acc
      end
  | EmptyString => acc
  end.

(** [Number.parseInt(s, 10)]: leading white space, an optional sign,
    then decimal digits; [None] is [NaN]. *)
Definition parseInt (s : string) : option Z :=
  match trimStart s with
  | String "-" s' => Z.opp <$> digits None s'
  | String "+" s' => digits None s'
  | s' => digits None s'
  end.

(** [Number(v) || 1] for a value that is a number or, when it is
    [None], something that converts to [NaN] or [0]. *)
Definition number_or_1 (v : option Z) : Z :=
  match v with
  | Some z => if z =? 0 then 1 else z
  | None => 1
  end.

(** A JavaScript number is a binary64 float.  It holds every integer of
    absolute value up to [2^53]; beyond, the integers it holds are the
    multiples of [spacing z], the weight of the last of the 53 bits of
    the significand. *)
Definition spacing (z : Z) : Z := 2 ^ (Z.log2 (Z.abs z) - 52).

(** The number an integer result is rounded to: the nearest one, a tie
    going to the even significand.  (Far below the overflow to
    [Infinity], which adding one to a number never reaches.) *)
Definition round (z : Z) : Z :=
  if Z.abs z <? 2 ^ 53 then z
  else
    let q := spacing z in
    let lo := z / q * q in
    let r := z - lo in
    if 2 * r <? q then lo
    else if q <? 2 * r then lo + q
    else if Z.even (z / q) then lo else lo + q.

(** [a + b] on numbers that hold integers. *)
Definition add (a b : Z) : Z := round (a + b).

(** Text in the ASCII range.  On it [trim], [toLowerCase], [\s] and
    [length] are as defined here; outside it the built-ins of JavaScript
    also fold and strip what the definitions above leave alone, so the
    properties that rest on what folding and stripping do are stated for
    ASCII text. *)
Definition ascii_char (c : ascii) : bool := (Ascii.nat_of_ascii c <? 128)%nat.

Fixpoint ascii_text (s : string) : bool :=
  match s with
  | String c s' => ascii_char c && ascii_text s'
  | EmptyString => true
  end.

End Js.

(* ===================================================================== *)
(** * Entities ([lib/supabase-repo.ts], [lib/entities]) *)
(* ===================================================================== *)

Record ProductImage := {
  image_name : string;
  image_size : Z;
  image_type : string;
  image_dataUrl : string
}.

Record Product := {
  product_id : string;
  product_name : string;
  product_color : string;
  product_stock : Z;
  product_cost : Z;
  product_salePrice : Z;
  product_image : option ProductImage
}.

Record Client := {
  client_id : string;
  client_name : string;
  client_documentId : string;
  client_phone : string;
  client_address : string
}.

Inductive OrderKind := sale | sales_order.

Inductive Role := admin | operator.

Record User := {
  user_username : string;
  user_role : Role
}.

(** [Omit<OrderItem, "id" | "order_id">]: a line of an order draft. *)
Record OrderItemDraft := {
  draft_product_id : option string;
  draft_product_name : option string;
  draft_color : option string;
  draft_qty : Z;
  draft_unit_price : Z;
  draft_subtotal : Z
}.

Record OrderItem := {
  item_id : string;
  item_order_id : string;
  item_product_id : option string;
  item_product_name : option string;
  item_color : option string;
  item_qty : Z;
  item_unit_price : Z;
  item_subtotal : Z
}.

(** The argument of [createOrder]. *)
Record OrderDraft := {
  draft_kind : OrderKind;
  draft_total : Z;
  draft_payment_method : option string;
  draft_performed_by_username : option string;
  draft_performed_by_role : option Role;
  draft_client_id : option string;
  draft_client_name : option string;
  draft_client_document_id : option string;
  draft_client_phone : option string;
  draft_delivery_address : option string;
  draft_order_subtotal : option Z;
  draft_discount : option Z;
  draft_notes : option string;
  draft_items : list OrderItemDraft
}.

Record Order := {
  order_id : string;
  order_kind : OrderKind;
  order_total : Z;
  order_payment_method : option string;
  order_performed_by_username : option string;
  order_performed_by_role : option Role;
  order_client_id : option string;
  order_client_name : option string;
  order_client_document_id : option string;
  order_client_phone : option string;
  order_delivery_address : option string;
  order_subtotal : option Z;
  order_discount : option Z;
  order_notes : option string;
  order_sequence : option Z;
  order_item_list : list OrderItem
}.

(** [UsersConfig] and [TicketsConfig] of [lib/settings.ts]. *)
Record AdminUser := {
  admin_username : string;
  admin_password : string
}.

Record OperatorUser := {
  operator_id : string;
  operator_username : string;
  operator_password : string;
  operator_active : bool
}.

Record UsersConfig := {
  users_admin : AdminUser;
  users_operators : list OperatorUser
}.

Definition DEFAULT_USERS_CONFIG : UsersConfig :=
  {| users_admin := {| admin_username := ""; admin_password := "" |};
     users_operators := [] |}.

(** [nextNumber] is a number by its type; what comes back from the stored
    JSON may also be no number ([None]). *)
Record TicketSideConfig := {
  nextNumber : option Z;
  farewell : string
}.

Record TicketsConfig := {
  companyName : string;
  subtitle : string;
  tickets_sale : TicketSideConfig;
  tickets_order : TicketSideConfig
}.

(** What [JSON.parse] makes of the stored text of a tickets
    configuration: a side may be missing (a missing name or subtitle is
    the empty text here, both being falsy). *)
Record TicketsDocument := {
  doc_companyName : string;
  doc_subtitle : string;
  doc_sale : option TicketSideConfig;
  doc_order : option TicketSideConfig
}.

(** [JSON.stringify(cfg)], read back. *)
Definition document_of (cfg : TicketsConfig) : TicketsDocument :=
  {| doc_companyName := companyName cfg;
     doc_subtitle := subtitle cfg;
     doc_sale := Some (tickets_sale cfg);
     doc_order := Some (tickets_order cfg) |}.

Definition DEFAULT_TICKETS_CONFIG : TicketsConfig :=
  {| companyName := "AIJMIROSHOP";
     subtitle := "Sistema de Gestión de Inventario";
     tickets_sale := {| nextNumber := Some 1; farewell := "¡Gracias por su compra!" |};
     tickets_order := {| nextNumber := Some 1; farewell := "¡Gracias por su preferencia!" |} |}.

(** A sales order as the sales-order page keeps it ([SalesOrder]). *)
Record SalesOrderItem := {
  so_item_productId : string;
  so_item_productName : string;
  so_item_color : string;
  so_item_quantity : Z;
  so_item_unitPrice : Z;
  so_item_lineTotal : Z
}.

Record SalesOrder := {
  so_id : string;
  so_kind : option OrderKind;
  so_performedByUsername : option string;
  so_performedByRole : option Role;
  so_clientId : string;
  so_clientName : string;
  so_clientDocumentId : string;
  so_clientPhone : string;
  so_deliveryAddress : string;
  so_paymentMethod : string;
  so_sequence : option Z;
  so_subtotal : Z;
  so_discount : Z;
  so_total : Z;
  so_notes : string;
  so_items : list SalesOrderItem
}.

(* ===================================================================== *)
(** * The world the program runs in *)
(* ===================================================================== *)

(** Rows of the hosted tables ([supabase/schema.sql]); the primary key
    [id] is the key of the map that holds the row. *)
Record ProductRow := {
  row_name : string;
  row_color : string;
  row_stock : Z;
  row_cost : option Z;
  row_sale_price : option Z;
  row_image : option ProductImage
}.

Record ClientRow := {
  row_client_name : string;
  row_document_id : string;
  row_phone : option string;
  row_address : option string
}.

Record OrderRow := {
  row_kind : OrderKind;
  row_total : Z;
  row_payment_method : option string;
  row_performed_by_username : option string;
  row_performed_by_role : option Role;
  row_client_id : option string;
  row_order_client_name : option string;
  row_client_document_id : option string;
  row_client_phone : option string;
  row_delivery_address : option string;
  row_subtotal : option Z;
  row_discount : option Z;
  row_notes : option string;
  row_sequence : Z
}.

Record Database := {
  products : gmap string ProductRow;
  clients : gmap string ClientRow;
  orders : gmap string OrderRow;
  order_items : gmap string OrderItem;
  (** the [bigserial] behind [orders.sequence] *)
  orders_sequence : Z;
  (** the row of [settings] under the key [users] *)
  settings_users : option UsersConfig
}.

(** What the browser keeps in [window.localStorage]; [None] is a key that
    is absent or whose text does not parse. *)
Record LocalStorage := {
  stored_tickets_config : option TicketsDocument;
  stored_sales_orders : option (list SalesOrder)
}.

(** The requests the repository sends to the hosted database. *)
Inductive Request :=
| select_setting (key : string)
| select_products
| upsert_product (id : string)
| delete_product (id : string)
| upsert_client (id : string)
| insert_order (id : string)
| insert_order_items (order_id : string) (ids : list string)
| select_stock (product_id : option string)
| update_stock (product_id : option string) (stock : Z).

(** The requests that write. *)
Definition persists (r : Request) : bool :=
  match r with
  | select_setting _ | select_products | select_stock _ => false
  | _ => true
  end.

Record World := {
  database : Database;
  localStorage : LocalStorage;
  (** the requests sent so far, oldest first *)
  requests : list Request;
  (** [fault n]: the request number [n] (from 0) is answered by an error *)
  fault : nat → bool;
  (** what [uid()] returns at its [n]-th call, and the calls made so far *)
  uid_source : nat → string;
  uid_drawn : nat;
  (** [storage_full n]: the [n]-th [localStorage.setItem] throws *)
  storage_full : nat → bool;
  storage_writes : nat
}.

Definition set_products (f : gmap string ProductRow → gmap string ProductRow) (d : Database) : Database :=
  {| products := f (products d); clients := clients d; orders := orders d;
     order_items := order_items d; orders_sequence := orders_sequence d;
     settings_users := settings_users d |}.

Definition set_clients (f : gmap string ClientRow → gmap string ClientRow) (d : Database) : Database :=
  {| products := products d; clients := f (clients d); orders := orders d;
     order_items := order_items d; orders_sequence := orders_sequence d;
     settings_users := settings_users d |}.

Definition add_order (id : string) (row : OrderRow) (d : Database) : Database :=
  {| products := products d; clients := clients d; orders := <[id := row]> (orders d);
     order_items := order_items d; orders_sequence := orders_sequence d + 1;
     settings_users := settings_users d |}.

Definition set_order_items (f : gmap string OrderItem → gmap string OrderItem) (d : Database) : Database :=
  {| products := products d; clients := clients d; orders := orders d;
     order_items := f (order_items d); orders_sequence := orders_sequence d;
     settings_users := settings_users d |}.

Definition set_database (d : Database) (w : World) : World :=
  {| database := d; localStorage := localStorage w; requests := requests w;
     fault := fault w; uid_source := uid_source w; uid_drawn := uid_drawn w;
     storage_full := storage_full w; storage_writes := storage_writes w |}.

Definition set_localStorage (l : LocalStorage) (w : World) : World :=
  {| database := database w; localStorage := l; requests := requests w;
     fault := fault w; uid_source := uid_source w; uid_drawn := uid_drawn w;
     storage_full := storage_full w; storage_writes := S (storage_writes w) |}.

Definition skip_storage_write (w : World) : World :=
  {| database := database w; localStorage := localStorage w; requests := requests w;
     fault := fault w; uid_source := uid_source w; uid_drawn := uid_drawn w;
     storage_full := storage_full w; storage_writes := S (storage_writes w) |}.

Definition log_request (r : Request) (w : World) : World :=
  {| database := database w; localStorage := localStorage w;
     requests := requests w ++ [r];
     fault := fault w; uid_source := uid_source w; uid_drawn := uid_drawn w;
     storage_full := storage_full w; storage_writes := storage_writes w |}.

Definition draw_uid (w : World) : World :=
  {| database := database w; localStorage := localStorage w; requests := requests w;
     fault := fault w; uid_source := uid_source w; uid_drawn := S (uid_drawn w);
     storage_full := storage_full w; storage_writes := storage_writes w |}.

(** ** Computations: state, and exceptions that keep the state

    An [await] whose request fails throws; what was written before the
    throw stays written. *)
Inductive Error :=
| BackendError (r : Request)
| QuotaExceeded.

Inductive Outcome (A : Type) :=
| Returned (a : A)
| Thrown (e : Error).
Arguments Returned {A} a.
Arguments Thrown {A} e.

Definition Eff (A : Type) : Type := World → World * Outcome A.

Definition ret {A} (a : A) : Eff A := λ w, (w, Returned a).

Definition bind {A B} (m : Eff A) (k : A → Eff B) : Eff B := λ w,
  match m w with
  | (w', Returned a) => k a w'
  | (w', Thrown e) => (w', Thrown e)
  end.

(** [try { m } catch { h }] *)
Definition try_catch {A} (m : Eff A) (h : Error → Eff A) : Eff A := λ w,
  match m w with
  | (w', Returned a) => (w', Returned a)
  | (w', Thrown e) => h e w'
  end.

Declare Scope eff_scope.
Delimit Scope eff_scope with eff.
Notation "'let*' x ':=' m 'in' k" := (bind m (λ x, k))
  (at level 10, x name, m at level 100, k at level 200) : eff_scope.
Notation "m ';;' k" := (bind m (λ _, k))
  (at level 100, k at level 200, right associativity) : eff_scope.
Local Open Scope eff_scope.

(** [for (const x of xs) { body }] *)
Fixpoint for_of {A} (xs : list A) (body : A → Eff unit) : Eff unit :=
  match xs with
  | [] => ret tt
  | x :: xs' => body x ;; for_of xs' body
  end.

(** [xs.map(f)] for an [f] with effects (it calls [uid()]). *)
Fixpoint map_eff {A B} (f : A → Eff B) (xs : list A) : Eff (list B) :=
  match xs with
  | [] => ret []
  | x :: xs' => let* y := f x in let* ys := map_eff f xs' in ret (y :: ys)
  end.

(** One request: it is logged, then fails if the oracle says so or if the
    database refuses it ([run] gives [None]), and otherwise takes effect. *)
Definition request {A} (r : Request) (run : Database → option (Database * A)) : Eff A := λ w,
  let w1 := log_request r w in
  if fault w (length (requests w)) then (w1, Thrown (BackendError r))
  else match run (database w) with
       | Some (d, a) => (set_database d w1, Returned a)
       | None => (w1, Thrown (BackendError r))
       end.

(** [uid()] of [lib/id.ts]. *)
Definition uid : Eff string := λ w, (draw_uid w, Returned (uid_source w (uid_drawn w))).

(** [window.localStorage.getItem] followed by [JSON.parse]. *)
Definition getItem {A} (key : LocalStorage → option A) : Eff (option A) := λ w,
  (w, Returned (key (localStorage w))).

(** [window.localStorage.setItem], which throws when the quota is
    exceeded. *)
Definition setItem (write : LocalStorage → LocalStorage) : Eff unit := λ w,
  if storage_full w (storage_writes w) then (skip_storage_write w, Thrown QuotaExceeded)
  else (set_localStorage (write (localStorage w)) w, Returned tt).

(* ===================================================================== *)
(** * The repository ([lib/supabase-repo.ts]) *)
(* ===================================================================== *)

Module Repo.

Definition to_product (id : string) (row : ProductRow) : Product :=
  {| product_id := id;
     product_name := row_name row;
     product_color := row_color row;
     product_stock := row_stock row;
     product_cost := default 0 (row_cost row);
     product_salePrice := default 0 (row_sale_price row);
     product_image := row_image row |}.

Definition to_client (id : string) (row : ClientRow) : Client :=
  {| client_id := id;
     client_name := row_client_name row;
     client_documentId := row_document_id row;
     client_phone := default "" (row_phone row);
     client_address := default "" (row_address row) |}.

(** [getSetting("users", null)] through [getUsersConfigRemote]. *)
Definition getUsersConfigRemote : Eff (option UsersConfig) :=
  request (select_setting "users") (λ d, Some (d, settings_users d)).

(** The rows come back in the order of the query ([created_at]
    descending), which this model does not fix: the callers below look
    rows up by [id]. *)
Definition listProducts : Eff (list Product) :=
  let* data := request select_products (λ d, Some (d, map_to_list (products d))) in
  ret ((λ kv, to_product kv.1 kv.2) <$> data).

(** [Omit<Product, "id" | "createdAt"> & { id?: string }] *)
Record ProductInput := {
  input_id : option string;
  input_name : string;
  input_color : string;
  input_stock : Z;
  input_cost : Z;
  input_salePrice : Z;
  input_image : option ProductImage
}.

Definition upsertProduct (p : ProductInput) : Eff Product :=
  let* id := match input_id p with Some id => ret id | None => uid end in
  let payload :=
    {| row_name := input_name p;
       row_color := input_color p;
       row_stock := input_stock p;
       row_cost := Some (input_cost p);
       row_sale_price := Some (input_salePrice p);
       row_image := input_image p |} in
  let* row := request (upsert_product id)
                (λ d, Some (set_products (insert id payload) d, (id, payload))) in
  ret (to_product row.1 row.2).

(** [product_id uuid references products(id) on delete set null] *)
Definition forget_product (id : string) (it : OrderItem) : OrderItem :=
  {| item_id := item_id it; item_order_id := item_order_id it;
     item_product_id :=
       match item_product_id it with
       | Some p => if String.eqb p id then None else Some p
       | None => None
       end;
     item_product_name := item_product_name it; item_color := item_color it;
     item_qty := item_qty it; item_unit_price := item_unit_price it;
     item_subtotal := item_subtotal it |}.

Definition deleteProduct (id : string) : Eff unit :=
  request (delete_product id)
    (λ d, Some (set_order_items (fmap (forget_product id)) (set_products (delete id) d), tt)).

(** [Omit<Client, "id" | "createdAt"> & { id?: string }] *)
Record ClientInput := {
  cinput_id : option string;
  cinput_name : string;
  cinput_documentId : string;
  cinput_phone : string;
  cinput_address : string
}.

Definition upsertClient (c : ClientInput) : Eff Client :=
  let* id := match cinput_id c with Some id => ret id | None => uid end in
  let payload :=
    {| row_client_name := cinput_name c;
       row_document_id := cinput_documentId c;
       row_phone := Some (cinput_phone c);
       row_address := Some (cinput_address c) |} in
  let* row := request (upsert_client id)
                (λ d, Some (set_clients (insert id payload) d, (id, payload))) in
  ret (to_client row.1 row.2).

(** *** [createOrder] *)

Definition order_payload (order : OrderDraft) (sequence : Z) : OrderRow :=
  {| row_kind := draft_kind order;
     row_total := draft_total order;
     row_payment_method := draft_payment_method order;
     row_performed_by_username := draft_performed_by_username order;
     row_performed_by_role := draft_performed_by_role order;
     row_client_id := draft_client_id order;
     row_order_client_name := draft_client_name order;
     row_client_document_id := draft_client_document_id order;
     row_client_phone := draft_client_phone order;
     row_delivery_address := draft_delivery_address order;
     row_subtotal := draft_order_subtotal order;
     row_discount := draft_discount order;
     row_notes := draft_notes order;
     row_sequence := sequence |}.

(** [insert] into [orders]: refused when the primary key is taken; the
    database fills in [sequence]. *)
Definition insert_order_row (orderId : string) (order : OrderDraft)
    (d : Database) : option (Database * OrderRow) :=
  match orders d !! orderId with
  | Some _ => None
  | None =>
      let row := order_payload order (orders_sequence d) in
      Some (add_order orderId row d, row)
  end.

Definition item_payload (orderId : string) (it : OrderItemDraft) : Eff OrderItem :=
  let* id := uid in
  ret {| item_id := id;
         item_order_id := orderId;
         item_product_id := draft_product_id it;
         item_product_name := draft_product_name it;
         item_color := draft_color it;
         item_qty := draft_qty it;
         item_unit_price := draft_unit_price it;
         item_subtotal := draft_subtotal it |}.

(** [insert] of all the items in one statement: all rows or none. *)
Fixpoint insert_item_rows (rows : list OrderItem) (t : gmap string OrderItem)
    : option (gmap string OrderItem) :=
  match rows with
  | [] => Some t
  | row :: rows' =>
      match t !! item_id row with
      | Some _ => None
      | None => insert_item_rows rows' (<[item_id row := row]> t)
      end
  end.

Definition insert_items (rows : list OrderItem) (d : Database) : option (Database * unit) :=
  match insert_item_rows rows (order_items d) with
  | Some t => Some (set_order_items (λ _, t) d, tt)
  | None => None
  end.

(** [select("stock").eq("id", id).maybeSingle()] *)
Definition read_stock (id : option string) (d : Database) : option Z :=
  match id with
  | Some id => row_stock <$> products d !! id
  | None => None
  end.

Definition with_stock (stock : Z) (row : ProductRow) : ProductRow :=
  {| row_name := row_name row; row_color := row_color row; row_stock := stock;
     row_cost := row_cost row; row_sale_price := row_sale_price row;
     row_image := row_image row |}.

(** [update({ stock: next }).eq("id", id)]: no row, no change. *)
Definition write_stock (id : option string) (stock : Z) (d : Database) : Database :=
  match id with
  | Some id => set_products (alter (with_stock stock) id) d
  | None => d
  end.

(** The body of the loop of lines 312-323. *)
Definition decrement_stock (it : OrderItemDraft) : Eff unit :=
  let* prod := request (select_stock (draft_product_id it))
                 (λ d, Some (d, read_stock (draft_product_id it) d)) in
  let current := default 0 prod in
  let next := Z.max 0 (current - draft_qty it) in
  request (update_stock (draft_product_id it) next)
    (λ d, Some (write_stock (draft_product_id it) next d, tt)).

Definition createOrder (order : OrderDraft) : Eff Order :=
  let* orderId := uid in
  (* Insert order *)
  let* createdOrderRow := request (insert_order orderId) (insert_order_row orderId order) in
  (* Insert items *)
  let* itemsPayload := map_eff (item_payload orderId) (draft_items order) in
  request (insert_order_items orderId (item_id <$> itemsPayload)) (insert_items itemsPayload) ;;
  (* If it's a sale, decrement stock *)
  match draft_kind order with
  | sale => for_of (draft_items order) decrement_stock
  | sales_order => ret tt
  end ;;
  (* Return composed order (include sequence and created_at from DB) *)
  ret {| order_id := orderId;
         order_kind := draft_kind order;
         order_total := draft_total order;
         order_payment_method := draft_payment_method order;
         order_performed_by_username := draft_performed_by_username order;
         order_performed_by_role := draft_performed_by_role order;
         order_client_id := draft_client_id order;
         order_client_name := draft_client_name order;
         order_client_document_id := draft_client_document_id order;
         order_client_phone := draft_client_phone order;
         order_delivery_address := draft_delivery_address order;
         order_subtotal := draft_order_subtotal order;
         order_discount := draft_discount order;
         order_notes := draft_notes order;
         order_sequence := Some (row_sequence createdOrderRow);
         order_item_list := itemsPayload |}.

End Repo.

(* ===================================================================== *)
(** * Settings ([lib/settings.ts]) *)
(* ===================================================================== *)

Module Settings.

(** The cloud-backed [getUsersConfig]: the stored document when it is
    there and well formed, the defaults otherwise, also when the
    request fails. *)
Definition getUsersConfig : Eff UsersConfig :=
  try_catch
    (let* remote := Repo.getUsersConfigRemote in
     match remote with
     | Some remote => ret remote
     | None => ret DEFAULT_USERS_CONFIG
     end)
    (λ _, ret DEFAULT_USERS_CONFIG).

(** [getTicketsConfig] of the sales-order page, over [localStorage]. *)
Definition getTicketsConfig : Eff TicketsConfig :=
  try_catch
    (let* raw := getItem stored_tickets_config in
     match raw with
     | Some parsed =>
         if Js.truthy (doc_companyName parsed) && Js.truthy (doc_subtitle parsed)
         then match doc_sale parsed, doc_order parsed with
              | Some saleSide, Some orderSide =>
                  ret {| companyName := doc_companyName parsed;
                         subtitle := doc_subtitle parsed;
                         tickets_sale := saleSide;
                         tickets_order := orderSide |}
              | _, _ => ret DEFAULT_TICKETS_CONFIG
              end
         else ret DEFAULT_TICKETS_CONFIG
     | None => ret DEFAULT_TICKETS_CONFIG
     end)
    (λ _, ret DEFAULT_TICKETS_CONFIG).

Definition saveTicketsConfig (cfg : TicketsConfig) : Eff unit :=
  try_catch
    (setItem (λ l, {| stored_tickets_config := Some (document_of cfg);
                      stored_sales_orders := stored_sales_orders l |}))
    (λ _, ret tt).

End Settings.

(* ===================================================================== *)
(** * Login ([lib/auth-context.tsx]) *)
(* ===================================================================== *)

Module Auth.

Inductive LoginResponse :=
| success (user : User)
| failure (message : string).

Definition INVALID_CREDENTIALS : string :=
  "Credenciales incorrectas. Verifica usuario, contraseña y rol.".

(** The predicate of [cfg.operators.find]. *)
Definition operator_matches (normalizedUsername password : string) (o : OperatorUser) : bool :=
  operator_active o
  && String.eqb (Js.toLowerCase (operator_username o)) (Js.toLowerCase normalizedUsername)
  && String.eqb (operator_password o) password.

(** [login] once [getUsersConfig] has answered with [cfg]. *)
Definition check (cfg : UsersConfig) (username password : string) (role : Role) : LoginResponse :=
  let normalizedUsername := Js.trim username in
  match role with
  | admin =>
      let isUserValid :=
        String.eqb (Js.toLowerCase normalizedUsername)
                   (Js.toLowerCase (admin_username (users_admin cfg))) in
      let isPasswordValid := String.eqb password (admin_password (users_admin cfg)) in
      if negb isUserValid || negb isPasswordValid
      then failure INVALID_CREDENTIALS
      else success {| user_username := admin_username (users_admin cfg); user_role := role |}
  | operator =>
      match find (operator_matches normalizedUsername password) (users_operators cfg) with
      | None => failure INVALID_CREDENTIALS
      | Some op => success {| user_username := operator_username op; user_role := role |}
      end
  end.

Definition login (username password : string) (role : Role) : Eff LoginResponse :=
  let* cfg := Settings.getUsersConfig in
  ret (check cfg username password role).

End Auth.

(* ===================================================================== *)
(** * Registering a sale ([app/register-sale/page.tsx]) *)
(* ===================================================================== *)

Record CartLine := {
  product : Product;
  quantity : Z
}.

(** The state of an order form that [handleSubmit] closes over; the
    discount is what [parseBsInput] made of the text typed ([None] when
    it does not parse). *)
Record Page := {
  user : option User;
  selectedClient : option Client;
  cart : list CartLine;
  discount : option Z;
  paymentMethod : string;
  deliveryAddress : string;
  notes : string
}.

Definition subtotal (pg : Page) : Z :=
  fold_left (λ sum line, sum + product_salePrice (product line) * quantity line) (cart pg) 0.

Definition discountAmount (pg : Page) : Z := default 0 (discount pg).

Definition total (pg : Page) : Z := Z.max 0 (subtotal pg - discountAmount pg).

Definition MSG_NO_CLIENT : string := "Selecciona o crea un cliente antes de continuar.".
Definition MSG_EMPTY_CART : string := "Agrega al menos un producto al carrito.".
Definition MSG_DISCOUNT : string := "El descuento no puede superar el subtotal.".

Definition newline : string := String (Ascii.ascii_of_nat 10) "".

Module RegisterSale.

Definition same_product (id : string) (line : CartLine) : bool :=
  String.eqb (product_id (product line)) id.

Definition with_quantity (q : Z) (line : CartLine) : CartLine :=
  {| product := product line; quantity := q |}.

Definition handleAddProduct (p : Product) (prev : list CartLine) : list CartLine :=
  match find (same_product (product_id p)) prev with
  | Some existing =>
      (λ line, if same_product (product_id p) line
               then with_quantity (Z.min (quantity line + 1) (product_stock p)) line
               else line) <$> prev
  | None => prev ++ [{| product := p; quantity := 1 |}]
  end.

Definition handleUpdateQuantity (productId : string) (q : Z) (prev : list CartLine) : list CartLine :=
  (λ line, if same_product productId line
           then with_quantity (Z.max 1 (Z.min q (product_stock (product line)))) line
           else line) <$> prev.

Definition handleAdjustQuantity (productId : string) (delta : Z) (prev : list CartLine) : list CartLine :=
  (λ line, if negb (same_product productId line) then line
           else
             let nextQuantity :=
               Z.max 1 (Z.min (quantity line + delta) (product_stock (product line))) in
             with_quantity nextQuantity line) <$> prev.

Definition handleRemoveLine (productId : string) (prev : list CartLine) : list CartLine :=
  filter (λ line, negb (same_product productId line)) prev.

(** The loop of lines 574-585 over the inventory just read. *)
Definition problem (currentInventory : list Product) (line : CartLine) : option string :=
  match find (λ prod, String.eqb (product_id prod) (product_id (product line))) currentInventory with
  | None =>
      Some ("Producto no encontrado: " +:+ product_name (product line) +:+ " ("
            +:+ product_color (product line) +:+ ").")
  | Some p =>
      if product_stock p <? quantity line
      then Some (product_name (product line) +:+ " (" +:+ product_color (product line)
                 +:+ "): stock insuficiente (disponible " +:+ pretty (product_stock p)
                 +:+ ", requerido " +:+ pretty (quantity line) +:+ ").")
      else None
  end.

Fixpoint problems (currentInventory : list Product) (lines : list CartLine) : list string :=
  match lines with
  | [] => []
  | line :: lines' =>
      match problem currentInventory line with
      | Some text => text :: problems currentInventory lines'
      | None => problems currentInventory lines'
      end
  end.

Definition stock_message (problems : list string) : string :=
  "No se puede registrar la venta por stock insuficiente:" +:+ newline +:+ "- "
  +:+ String.concat (newline +:+ "- ") problems.

Definition to_item (line : CartLine) : OrderItemDraft :=
  {| draft_product_id := Some (product_id (product line));
     draft_product_name := Some (product_name (product line));
     draft_color := Some (product_color (product line));
     draft_qty := quantity line;
     draft_unit_price := product_salePrice (product line);
     draft_subtotal := product_salePrice (product line) * quantity line |}.

Definition to_order (pg : Page) (u : User) (client : Client) : OrderDraft :=
  {| draft_kind := sale;
     draft_total := total pg;
     draft_payment_method := Some (paymentMethod pg);
     draft_performed_by_username := Some (user_username u);
     draft_performed_by_role := Some (user_role u);
     draft_client_id := Some (client_id client);
     draft_client_name := Some (client_name client);
     draft_client_document_id := Some (client_documentId client);
     draft_client_phone := Some (client_phone client);
     draft_delivery_address := Some (Js.or_else (Js.trim (deliveryAddress pg)) "Retiro en tienda");
     draft_order_subtotal := Some (subtotal pg);
     draft_discount := Some (discountAmount pg);
     draft_notes := Some (Js.trim (notes pg));
     draft_items := to_item <$> cart pg |}.

(** [downloadSaleTicket] (lines 101-360), for what it asks of the
    database: it reads the tickets configuration and then draws the
    image; whatever fails on the way is caught.  Its value only chooses
    the feedback text and is left out. *)
Definition downloadSaleTicket : Eff unit :=
  try_catch
    (request (select_setting "tickets-config") (λ d, Some (d, tt)))
    (λ _, ret tt).

(** How [handleSubmit] ends when it does not throw. *)
Inductive Submission :=
| not_signed_in
| form_error (message : string)
| registered (created : Order) (refreshed : option (list Product)).

Definition handleSubmit (pg : Page) : Eff Submission :=
  match user pg with
  | None => ret not_signed_in
  | Some u =>
      match selectedClient pg with
      | None => ret (form_error MSG_NO_CLIENT)
      | Some client =>
          if (length (cart pg) =? 0)%nat then ret (form_error MSG_EMPTY_CART)
          else if discountAmount pg >? subtotal pg then ret (form_error MSG_DISCOUNT)
          else
            (* 1) read the inventory again to check the stock *)
            let* currentInventory := Repo.listProducts in
            let problems := problems currentInventory (cart pg) in
            if (0 <? length problems)%nat then ret (form_error (stock_message problems))
            else
              (* 2) register the order; createOrder decrements the stock *)
              let* created := Repo.createOrder (to_order pg u client) in
              let* refreshed :=
                try_catch (let* rows := Repo.listProducts in ret (Some rows))
                          (λ _, ret None) in
              (* the ticket *)
              downloadSaleTicket ;;
              ret (registered created refreshed)
      end
  end.

End RegisterSale.

(* ===================================================================== *)
(** * Sales orders (the sales-order page) *)
(* ===================================================================== *)

Module SalesOrders.

Definition loadStoredSalesOrders : Eff (list SalesOrder) :=
  try_catch
    (let* raw := getItem stored_sales_orders in
     match raw with
     | None => ret []
     | Some parsed => ret parsed
     end)
    (λ _, ret []).

Definition persistSalesOrder (order : SalesOrder) : Eff unit :=
  try_catch
    (let* current := loadStoredSalesOrders in
     setItem (λ l, {| stored_tickets_config := stored_tickets_config l;
                      stored_sales_orders := Some (order :: current) |}))
    (λ _, ret tt).

Definition to_item (line : CartLine) : SalesOrderItem :=
  {| so_item_productId := product_id (product line);
     so_item_productName := product_name (product line);
     so_item_color := product_color (product line);
     so_item_quantity := quantity line;
     so_item_unitPrice := product_salePrice (product line);
     so_item_lineTotal := product_salePrice (product line) * quantity line |}.

Definition with_nextNumber (n : Z) (side : TicketSideConfig) : TicketSideConfig :=
  {| nextNumber := Some n; farewell := farewell side |}.

Definition with_order (side : TicketSideConfig) (cfg : TicketsConfig) : TicketsConfig :=
  {| companyName := companyName cfg; subtitle := subtitle cfg;
     tickets_sale := tickets_sale cfg; tickets_order := side |}.

(** Lines 1471-1482: the sequence is computed from the configuration;
    the [catch] falls back on the stored orders. *)
Definition nextSequence : Eff Z :=
  try_catch
    (let* cfg := Settings.getTicketsConfig in
     let nextSequence := Z.max 1 (Js.number_or_1 (nextNumber (tickets_order cfg))) in
     let updated := with_order (with_nextNumber (Js.add nextSequence 1) (tickets_order cfg)) cfg in
     Settings.saveTicketsConfig updated ;;
     ret nextSequence)
    (λ _,
       let* existing := loadStoredSalesOrders in
       let maxSeq := fold_left (λ max o, Z.max max (default 0 (so_sequence o))) existing 0 in
       ret (if maxSeq >? 0 then maxSeq + 1 else Z.of_nat (length existing) + 1)).

Inductive Submission :=
| not_signed_in
| form_error (message : string)
| saved (order : SalesOrder).

Definition handleSubmit (pg : Page) : Eff Submission :=
  match user pg with
  | None => ret not_signed_in
  | Some u =>
      match selectedClient pg with
      | None => ret (form_error MSG_NO_CLIENT)
      | Some client =>
          if (length (cart pg) =? 0)%nat then ret (form_error MSG_EMPTY_CART)
          else if discountAmount pg >? subtotal pg then ret (form_error MSG_DISCOUNT)
          else
            let normalizedAddress := Js.or_else (Js.trim (deliveryAddress pg)) "Retiro en tienda" in
            let orderItems := to_item <$> cart pg in
            let* nextSequence := nextSequence in
            let* id := uid in
            let order :=
              {| so_id := id;
                 so_kind := Some sales_order;
                 so_performedByUsername := Some (user_username u);
                 so_performedByRole := Some (user_role u);
                 so_clientId := client_id client;
                 so_clientName := client_name client;
                 so_clientDocumentId := client_documentId client;
                 so_clientPhone := client_phone client;
                 so_deliveryAddress := normalizedAddress;
                 so_paymentMethod := paymentMethod pg;
                 so_sequence := Some nextSequence;
                 so_subtotal := subtotal pg;
                 so_discount := discountAmount pg;
                 so_total := total pg;
                 so_notes := Js.trim (notes pg);
                 so_items := orderItems |} in
            persistSalesOrder order ;;
            ret (saved order)
      end
  end.

End SalesOrders.

(* ===================================================================== *)
(** * The inventory page ([app/inventory/page.tsx]) *)
(* ===================================================================== *)

Module Inventory.

Record ImageFile := {
  file_name : string;
  file_size : Z;
  file_type : string
}.

(** The product form; [form_cost] and [form_salePrice] hold what
    [parseBsInput] made of the texts typed. *)
Record ProductFormState := {
  form_name : string;
  form_color : string;
  form_stock : string;
  form_cost : option Z;
  form_salePrice : option Z;
  form_imageFile : option ImageFile;
  form_imagePreview : option string
}.

Definition MSG_REQUIRED : string := "Completa todos los campos obligatorios.".
Definition MSG_STOCK : string := "El stock debe ser un número entero mayor o igual a 0.".
Definition MSG_AMOUNT : string := "Formato de monto inválido. Usa el formato 1.500,80.".
Definition MSG_PRICE : string := "El precio de venta debe ser mayor o igual al costo.".
Definition MSG_UPDATE_FAILED : string := "No se pudo actualizar el producto en la nube.".
Definition MSG_SAVE_FAILED : string := "No se pudo guardar el producto en la nube.".

Definition form_image (formState : ProductFormState) (editingProduct : option Product)
    : option ProductImage :=
  let preview := Js.truthy (default "" (form_imagePreview formState)) in
  match form_imageFile formState with
  | Some file =>
      if preview
      then Some {| image_name := file_name file; image_size := file_size file;
                   image_type := file_type file;
                   image_dataUrl := default "" (form_imagePreview formState) |}
      else None
  | None =>
      if preview then editingProduct ≫= product_image else None
  end.

Inductive Submission :=
| form_error (message : string)
| saved (p : Product).

Definition handleSubmit (formState : ProductFormState) (editingProduct : option Product)
    : Eff Submission :=
  if negb (Js.truthy (Js.trim (form_name formState)))
     || negb (Js.truthy (Js.trim (form_color formState)))
  then ret (form_error MSG_REQUIRED)
  else
    match Js.parseInt (form_stock formState) with
    | None => ret (form_error MSG_STOCK)
    | Some stockValue =>
        if stockValue <? 0 then ret (form_error MSG_STOCK)
        else
          match form_cost formState, form_salePrice formState with
          | Some costValue, Some salePriceValue =>
              if salePriceValue <? costValue then ret (form_error MSG_PRICE)
              else
                let image := form_image formState editingProduct in
                let input id :=
                  {| Repo.input_id := id;
                     Repo.input_name := Js.trim (form_name formState);
                     Repo.input_color := Js.trim (form_color formState);
                     Repo.input_stock := stockValue;
                     Repo.input_cost := costValue;
                     Repo.input_salePrice := salePriceValue;
                     Repo.input_image := image |} in
                match editingProduct with
                | Some editing =>
                    try_catch
                      (let* p := Repo.upsertProduct (input (Some (product_id editing))) in
                       ret (saved p))
                      (λ _, ret (form_error MSG_UPDATE_FAILED))
                | None =>
                    try_catch
                      (let* p := Repo.upsertProduct (input None) in ret (saved p))
                      (λ _, ret (form_error MSG_SAVE_FAILED))
                end
          | _, _ => ret (form_error MSG_AMOUNT)
          end
    end.

(** A data row of an imported workbook, its cells already read by
    column: texts for name, colour and stock, parsed amounts. *)
Record ImportRow := {
  import_name : string;
  import_color : string;
  import_stock : string;
  import_cost : option Z;
  import_salePrice : option Z
}.

(** The checks of lines 595-622 on one row. *)
Definition imported (row : ImportRow) : option Repo.ProductInput :=
  if negb (Js.truthy (import_name row)) || negb (Js.truthy (import_color row)) then None
  else
    match Js.parseInt (import_stock row) with
    | None => None
    | Some stockValue =>
        if stockValue <? 0 then None
        else
          match import_cost row, import_salePrice row with
          | Some costValue, Some salePriceValue =>
              if salePriceValue <? costValue then None
              else Some {| Repo.input_id := None;
                           Repo.input_name := import_name row;
                           Repo.input_color := import_color row;
                           Repo.input_stock := stockValue;
                           Repo.input_cost := costValue;
                           Repo.input_salePrice := salePriceValue;
                           Repo.input_image := None |}
          | _, _ => None
          end
    end.

(** Lines 625-642: the accepted rows are saved one after the other; the
    first failure stops the import. *)
Definition handleImportFile (rows : list ImportRow) : Eff unit :=
  let importedProducts := omap imported rows in
  try_catch
    (for_of importedProducts (λ p, Repo.upsertProduct p ;; ret tt))
    (λ _, ret tt).

Definition handleDeleteProduct (productId : string) : Eff unit :=
  try_catch (Repo.deleteProduct productId) (λ _, ret tt).

Definition handleClearInventory (products : list Product) : Eff unit :=
  try_catch
    (for_of products (λ p, Repo.deleteProduct (product_id p)))
    (λ _, ret tt).

End Inventory.

(* ===================================================================== *)
(** * Notions the properties are stated with *)
(* ===================================================================== *)

(** The stock recorded for a product, if the product exists. *)
Definition stock_of (d : Database) (id : string) : option Z :=
  row_stock <$> products d !! id.

(** No product has a negative stock. *)
Definition stock_nonnegative (d : Database) : Prop :=
  ∀ id row, products d !! id = Some row → 0 ≤ row_stock row.

(** The stock a table of products records for an identifier. *)
Definition stock_in (t : gmap string ProductRow) (id : string) : option Z :=
  row_stock <$> t !! id.

(** What one iteration of the stock loop of [createOrder] does to the
    table of products when both of its requests are answered. *)
Definition decrement (t : gmap string ProductRow) (it : OrderItemDraft) : gmap string ProductRow :=
  match draft_product_id it with
  | Some id =>
      alter (Repo.with_stock (Z.max 0 (default 0 (stock_in t id) - draft_qty it))) id t
  | None => t
  end.

(** The requests the stock loop of [createOrder] sends for the lines of
    an order when all of them are answered, from the table of products
    it starts with: for every line the stock is read back, then written. *)
Fixpoint stock_requests (t : gmap string ProductRow) (items : list OrderItemDraft) : list Request :=
  match items with
  | [] => []
  | it :: items =>
      select_stock (draft_product_id it)
      :: update_stock (draft_product_id it)
           (Z.max 0 (default 0 (draft_product_id it ≫= stock_in t) - draft_qty it))
      :: stock_requests (decrement t it) items
  end.

(** The world after [n] more calls of [uid()]. *)
Definition drawn (n : nat) (w : World) : World :=
  {| database := database w; localStorage := localStorage w; requests := requests w;
     fault := fault w; uid_source := uid_source w; uid_drawn := (n + uid_drawn w)%nat;
     storage_full := storage_full w; storage_writes := storage_writes w |}.

(** The rows [createOrder] builds for its items when [uid()] is at its
    [k]-th call. *)
Fixpoint item_rows (orderId : string) (source : nat → string) (k : nat)
    (items : list OrderItemDraft) : list OrderItem :=
  match items with
  | [] => []
  | it :: items' =>
      {| item_id := source k;
         item_order_id := orderId;
         item_product_id := draft_product_id it;
         item_product_name := draft_product_name it;
         item_color := draft_color it;
         item_qty := draft_qty it;
         item_unit_price := draft_unit_price it;
         item_subtotal := draft_subtotal it |} :: item_rows orderId source (S k) items'
  end.

(** The suffix of the request log that a run has added. *)
Definition requests_since (w w' : World) : list Request :=
  drop (length (requests w)) (requests w').

(** ** Ticket numbering *)

(** The test of [getTicketsConfig] on a stored configuration. *)
Definition well_formed (cfg : TicketsConfig) : bool :=
  Js.truthy (companyName cfg) && Js.truthy (subtitle cfg).

(** What [getTicketsConfig] makes of a stored document: the configuration
    it holds, when the name, the subtitle and both sides are there. *)
Definition parsed_config (doc : TicketsDocument) : option TicketsConfig :=
  if Js.truthy (doc_companyName doc) && Js.truthy (doc_subtitle doc)
  then match doc_sale doc, doc_order doc with
       | Some saleSide, Some orderSide =>
           Some {| companyName := doc_companyName doc; subtitle := doc_subtitle doc;
                   tickets_sale := saleSide; tickets_order := orderSide |}
       | _, _ => None
       end
  else None.

(** The configuration a stored document stands for: the one it holds when
    it passes the test, the defaults otherwise. *)
Definition read_tickets_config (l : LocalStorage) : TicketsConfig :=
  default DEFAULT_TICKETS_CONFIG (stored_tickets_config l ≫= parsed_config).

(** The number a counter gives: the stored number when it is a number
    and at least 1, and 1 otherwise. *)
Definition counter_value (stored : option Z) : Z :=
  match stored with
  | Some n => if 1 <=? n then n else 1
  | None => 1
  end.

(** The configuration with the counter of sales orders advanced past its
    value. *)
Definition counted (cfg : TicketsConfig) : TicketsConfig :=
  SalesOrders.with_order
    (SalesOrders.with_nextNumber (Js.add (counter_value (nextNumber (tickets_order cfg))) 1)
       (tickets_order cfg)) cfg.

(** The preconditions of a submission, in the order [handleSubmit] tests
    them, with the message of the first that fails. *)
Definition validation (pg : Page) : option string :=
  match selectedClient pg with
  | None => Some MSG_NO_CLIENT
  | Some _ =>
      match cart pg with
      | [] => Some MSG_EMPTY_CART
      | _ => if subtotal pg <? discountAmount pg then Some MSG_DISCOUNT else None
      end
  end.

(** ** Carts *)

Definition line_product_id (line : CartLine) : string := product_id (product line).

(** At most one line for a product. *)
Definition unique_products (cart : list CartLine) : Prop :=
  NoDup (line_product_id <$> cart).

(** The carts the page can hold: it starts empty, and the handlers are
    the only code that changes it (emptying it aside). *)
Inductive cart_state : list CartLine → Prop :=
| cart_empty : cart_state []
| cart_added p cart :
    cart_state cart → cart_state (RegisterSale.handleAddProduct p cart)
| cart_updated id q cart :
    cart_state cart → cart_state (RegisterSale.handleUpdateQuantity id q cart)
| cart_adjusted id delta cart :
    cart_state cart → cart_state (RegisterSale.handleAdjustQuantity id delta cart)
| cart_removed id cart :
    cart_state cart → cart_state (RegisterSale.handleRemoveLine id cart).

(** The quantity of a line lies between 1 and the stock its product
    record shows. *)
Definition within_stock (line : CartLine) : Prop :=
  1 ≤ quantity line ≤ product_stock (product line).

(** The products as [listProducts] returns them when it is answered. *)
Definition listed (d : Database) : list Product :=
  (λ kv, Repo.to_product kv.1 kv.2) <$> map_to_list (products d).

(** A cart line asks for more than the database holds, or for a product
    that is gone. *)
Definition offending (d : Database) (line : CartLine) : bool :=
  match products d !! line_product_id line with
  | None => true
  | Some row => row_stock row <? quantity line
  end.

(** The entry of the error message for an offending line. *)
Definition offence (d : Database) (line : CartLine) : string :=
  match products d !! line_product_id line with
  | None =>
      "Producto no encontrado: " +:+ product_name (product line) +:+ " ("
      +:+ product_color (product line) +:+ ")."
  | Some row =>
      product_name (product line) +:+ " (" +:+ product_color (product line)
      +:+ "): stock insuficiente (disponible " +:+ pretty (row_stock row)
      +:+ ", requerido " +:+ pretty (quantity line) +:+ ")."
  end.

(** ** Credentials *)

(** The white space of the ASCII range: space, tab, line feed, vertical
    tab, form feed and carriage return. *)
Definition white_space : list ascii :=
  [" "; "009"; "010"; "011"; "012"; "013"]%char.

(** A text of white space only. *)
Fixpoint blank (s : string) : Prop :=
  match s with
  | String c s' => c ∈ white_space ∧ blank s'
  | EmptyString => True
  end.

Definition first_char (s : string) : option ascii :=
  match s with
  | String c _ => Some c
  | EmptyString => None
  end.

Fixpoint last_char (s : string) : option ascii :=
  match s with
  | String c EmptyString => Some c
  | String _ s' => last_char s'
  | EmptyString => None
  end.

(** [t] is [s] without the white space around it: [s] is [t] between two
    blank texts, and [t] neither begins nor ends with white space. *)
Definition without_blanks_around (s t : string) : Prop :=
  (∃ before after, s = before +:+ t +:+ after ∧ blank before ∧ blank after)
  ∧ (∀ c, first_char t = Some c → c ∉ white_space)
  ∧ (∀ c, last_char t = Some c → c ∉ white_space).

(** [upper] is a capital letter of the ASCII range, [lower] its small
    letter. *)
Definition capital_of (lower upper : ascii) : Prop :=
  (65 ≤ Ascii.nat_of_ascii upper ≤ 90)%nat
  ∧ Ascii.nat_of_ascii lower = (Ascii.nat_of_ascii upper + 32)%nat.

Definition same_letter (a b : ascii) : Prop :=
  a = b ∨ capital_of a b ∨ capital_of b a.

(** Two texts that differ in the case of their letters at most. *)
Inductive same_ignoring_case : string → string → Prop :=
| same_empty : same_ignoring_case "" ""
| same_cons a b s t :
    same_letter a b → same_ignoring_case s t →
    same_ignoring_case (String a s) (String b t).

(** The user name typed is the name of a record up to case and to the
    white space around it; the password typed is the password of the
    record. *)
Definition fits (username password name record_password : string) : Prop :=
  (∃ typed, without_blanks_around username typed ∧ same_ignoring_case typed name)
  ∧ password = record_password.


(** The names of the configuration are in the ASCII range. *)
Definition ascii_names (cfg : UsersConfig) : Prop :=
  Js.ascii_text (admin_username (users_admin cfg)) = true
  ∧ ∀ o, o ∈ users_operators cfg → Js.ascii_text (operator_username o) = true.

(** A computation keeps every stock non-negative, however it ends. *)
Definition keeps_stock {A} (m : Eff A) : Prop :=
  ∀ w, stock_nonnegative (database w) → stock_nonnegative (database (m w).1).

(** ** The operations that write products *)

(** One operation of a page on the world, whether it ends normally, with
    an error message or with an exception. *)
Inductive step : World → World → Prop :=
| step_product_form formState editingProduct w :
    step w (Inventory.handleSubmit formState editingProduct w).1
| step_import rows w :
    step w (Inventory.handleImportFile rows w).1
| step_delete_product productId w :
    step w (Inventory.handleDeleteProduct productId w).1
| step_clear_inventory listed w :
    step w (Inventory.handleClearInventory listed w).1
| step_sale pg w :
    step w (RegisterSale.handleSubmit pg w).1.

(** The worlds reached from an empty inventory. *)
Inductive reachable : World → Prop :=
| reachable_start w : products (database w) = ∅ → reachable w
| reachable_step w w' : reachable w → step w w' → reachable w'.

(* ===================================================================== *)
(** * Sample data ([SAMPLE_PRODUCTS], [SAMPLE_CLIENTS] of [lib/entities]) *)
(* ===================================================================== *)

Module Sample.

Definition shirt : Product :=
  {| product_id := "demo-1"; product_name := "Camisa Inteligente AIJ";
     product_color := "Azul"; product_stock := 25; product_cost := 120;
     product_salePrice := 210; product_image := None |}.

Definition shoes : Product :=
  {| product_id := "demo-2"; product_name := "Zapatillas Quantum";
     product_color := "Negro"; product_stock := 12; product_cost := 340;
     product_salePrice := 520; product_image := None |}.

Definition watch : Product :=
  {| product_id := "demo-3"; product_name := "Smartwatch Aurora";
     product_color := "Plateado"; product_stock := 7; product_cost := 450;
     product_salePrice := 720; product_image := None |}.

Definition maria : Client :=
  {| client_id := "demo-client-1"; client_name := "María Fernanda López";
     client_documentId := "7896543 LP"; client_phone := "+591 765-43210";
     client_address := "Av. Busch #234, La Paz" |}.

Definition anahi : User := {| user_username := "Anahi"; user_role := admin |}.

Definition row (p : Product) : ProductRow :=
  {| row_name := product_name p; row_color := product_color p;
     row_stock := product_stock p; row_cost := Some (product_cost p);
     row_sale_price := Some (product_salePrice p); row_image := product_image p |}.

Definition stocked (ps : list Product) : Database :=
  {| products := list_to_map ((λ p, (product_id p, row p)) <$> ps);
     clients := ∅; orders := ∅; order_items := ∅; orders_sequence := 1;
     settings_users := None |}.

(** A world in which the requests numbered in [failing] fail and
    [uid()] counts up. *)
Definition world (d : Database) (failing : list nat) : World :=
  {| database := d;
     localStorage := {| stored_tickets_config := None; stored_sales_orders := None |};
     requests := [];
     fault := λ n, bool_decide (n ∈ failing);
     uid_source := λ n, "uid-" +:+ pretty n;
     uid_drawn := 0;
     storage_full := λ _, false;
     storage_writes := 0 |}.


Definition page (lines : list CartLine) (typed : option Z) : Page :=
  {| user := Some anahi; selectedClient := Some maria; cart := lines;
     discount := typed; paymentMethod := "Efectivo"; deliveryAddress := "";
     notes := "" |}.

End Sample.

(* ===================================================================== *)
(** * More of the code: validators, forms, searches *)
(* ===================================================================== *)

(** More built-ins, on ASCII as above. *)
Module Text.

(** [s.includes(sub)] *)
Fixpoint includes (s sub : string) : bool :=
  String.prefix sub s
  || match s with
     | String _ s' => includes s' sub
     | EmptyString => false
     end.

(** [s.replace(/[...]/g, "")] for the class of characters [drop]. *)
Fixpoint without (drop : ascii → bool) (s : string) : string :=
  match s with
  | String c s' => if drop c then without drop s' else String c (without drop s')
  | EmptyString => EmptyString
  end.

(** The class [[\s+-]]. *)
Definition phone_separator (c : ascii) : bool :=
  Js.is_white c || Ascii.eqb c "+" || Ascii.eqb c "-".

(** The class [[^a-z0-9]]. *)
Definition not_alphanumeric (c : ascii) : bool :=
  let n := Ascii.nat_of_ascii c in
  negb (((97 <=? n)%nat && (n <=? 122)%nat) || ((48 <=? n)%nat && (n <=? 57)%nat)).

End Text.

(** [lib/validators]. *)
Module Validators.

Definition isValidPhone (value : string) : bool :=
  let trimmed := Js.trim value in
  if negb (Js.truthy trimmed) then false
  else
    let digits := Text.without Text.phone_separator trimmed in
    (7 <=? String.length digits)%nat && (String.length digits <=? 15)%nat.

End Validators.

(** The quick client of the sale page ([app/register-sale/page.tsx]). *)
Module QuickClient.

Record QuickClientFormState := {
  quick_name : string;
  quick_documentId : string;
  quick_phone : string;
  quick_address : string
}.

Definition MSG_REQUIRED : string := "Completa todos los campos obligatorios.".
Definition MSG_PHONE : string := "Ingresa un teléfono válido (7 a 15 dígitos).".
Definition MSG_NOT_SAVED : string := "No se pudo guardar el cliente en la nube.".

Definition validateQuickClient (form : QuickClientFormState) : option string :=
  if negb (Js.truthy (Js.trim (quick_name form)))
     || negb (Js.truthy (Js.trim (quick_documentId form)))
     || negb (Js.truthy (Js.trim (quick_address form)))
  then Some MSG_REQUIRED
  else
    let digits := Text.without Text.phone_separator (quick_phone form) in
    if (String.length digits <? 7)%nat || (15 <? String.length digits)%nat
    then Some MSG_PHONE
    else None.

Inductive Outcome :=
| quick_error (message : string)
| quick_selected (newClient : Client).

Definition handleAddQuickClient (quickClient : QuickClientFormState) : Eff Outcome :=
  match validateQuickClient quickClient with
  | Some validation => ret (quick_error validation)
  | None =>
      try_catch
        (let* saved :=
           Repo.upsertClient
             {| Repo.cinput_id := None;
                Repo.cinput_name := Js.trim (quick_name quickClient);
                Repo.cinput_documentId := Js.trim (quick_documentId quickClient);
                Repo.cinput_phone := Js.trim (quick_phone quickClient);
                Repo.cinput_address := Js.trim (quick_address quickClient) |} in
         ret (quick_selected saved))
        (λ _, ret (quick_error MSG_NOT_SAVED))
  end.

End QuickClient.

(** The form of the clients page. *)
Module Clients.

Record ClientFormState := {
  form_name : string;
  form_documentId : string;
  form_phone : string;
  form_address : string
}.

Definition MSG_REQUIRED : string := "Completa todos los campos obligatorios.".
Definition MSG_PHONE : string := "Ingresa un número de teléfono válido (7 a 15 dígitos).".
Definition MSG_NOT_SAVED : string := "No se pudo guardar el cliente en la nube.".

Inductive Submission :=
| form_error (message : string)
| saved (c : Client).

Definition handleSubmit (formState : ClientFormState) (editingClient : option Client)
    : Eff Submission :=
  if negb (Js.truthy (Js.trim (form_name formState)))
     || negb (Js.truthy (Js.trim (form_documentId formState)))
     || negb (Js.truthy (Js.trim (form_address formState)))
  then ret (form_error MSG_REQUIRED)
  else if negb (Validators.isValidPhone (form_phone formState))
  then ret (form_error MSG_PHONE)
  else
    let input id :=
      {| Repo.cinput_id := id;
         Repo.cinput_name := Js.trim (form_name formState);
         Repo.cinput_documentId := Js.trim (form_documentId formState);
         Repo.cinput_phone := Js.trim (form_phone formState);
         Repo.cinput_address := Js.trim (form_address formState) |} in
    try_catch
      (match editingClient with
       | Some editing =>
           let* c := Repo.upsertClient (input (Some (client_id editing))) in ret (saved c)
       | None =>
           let* c := Repo.upsertClient (input None) in ret (saved c)
       end)
      (λ _, ret (form_error MSG_NOT_SAVED)).

End Clients.

(** The searches of the sale page. *)
Module Search.

Definition filterClientsByTerm (clients : list Client) (term : string) : list Client :=
  if negb (Js.truthy (Js.trim term)) then clients
  else
    let lowered := Js.toLowerCase term in
    filter (λ c, Text.includes (Js.toLowerCase (client_name c)) lowered
                 || Text.includes (Js.toLowerCase (client_documentId c)) lowered
                 || Text.includes (Js.toLowerCase (client_phone c)) lowered
                 || Text.includes (Js.toLowerCase (client_address c)) lowered) clients.

Definition filterProductsByTerm (products : list Product) (term : string) : list Product :=
  if negb (Js.truthy (Js.trim term)) then products
  else
    let lowered := Js.toLowerCase term in
    filter (λ p, Text.includes (Js.toLowerCase (product_name p)) lowered
                 || Text.includes (Js.toLowerCase (product_color p)) lowered) products.

End Search.



(** The row [upsertClient] sends for an input. *)
Definition client_row (c : Repo.ClientInput) : ClientRow :=
  {| row_client_name := Repo.cinput_name c;
     row_document_id := Repo.cinput_documentId c;
     row_phone := Some (Repo.cinput_phone c);
     row_address := Some (Repo.cinput_address c) |}.

(** The identifier an upsert works under: the one given, or the next
    [uid()]. *)
Definition upsert_id (given : option string) (w : World) : string :=
  default (uid_source w (uid_drawn w)) given.



(* ===================================================================== *)
(** * More of the code: identifiers ([lib/id.ts]) *)
(* ===================================================================== *)

Module Id.

(** A hexadecimal digit, in lower case as [toString(16)] writes it. *)
Definition hex_digit (d : Z) : ascii :=
  if d <? 10 then Ascii.ascii_of_nat (48 + Z.to_nat d)
  else Ascii.ascii_of_nat (87 + Z.to_nat d).

(** [b.toString(16)] for a byte. *)
Definition toString16 (b : Z) : string :=
  if b <? 16 then String (hex_digit b) ""
  else String (hex_digit (b / 16)) (String (hex_digit (b mod 16)) "").

(** [s.padStart(2, "0")] *)
Definition padStart2 (s : string) : string :=
  match String.length s with
  | 0%nat => "00"
  | 1%nat => "0" +:+ s
  | _ => s
  end.

Definition toHex (b : Z) : string := padStart2 (toString16 b).

(** [hex.slice(from, to)] *)
Definition slice (from to : nat) (s : string) : string :=
  String.substring from (to - from) s.

(** The bytes once version and variant are set (lines 19-20). *)
Definition stamped (bytes : list Z) : list Z :=
  let bytes6 := <[6%nat := Z.lor (Z.land (default 0 (bytes !! 6%nat)) 15) 64]> bytes in
  <[8%nat := Z.lor (Z.land (default 0 (bytes6 !! 8%nat)) 63) 128]> bytes6.

(** The second branch of [uid()]: the identifier made of the sixteen bytes
    [getRandomValues] has filled in. *)
Definition uid_of_bytes (bytes : list Z) : string :=
  let hex := String.concat "" (toHex <$> stamped bytes) in
  slice 0 8 hex +:+ "-" +:+ slice 8 12 hex +:+ "-" +:+ slice 12 16 hex +:+ "-"
  +:+ slice 16 20 hex +:+ "-" +:+ slice 20 (String.length hex) hex.

End Id.





(* ===================================================================== *)
(** * More of the code: first run, pages of a table *)
(* ===================================================================== *)

Module Setup.

(** [isInitialSetupRequired] of [lib/settings.ts]. *)
Definition isInitialSetupRequired : Eff bool :=
  try_catch
    (let* cfg := Settings.getUsersConfig in
     ret (negb (Js.truthy (admin_username (users_admin cfg)))
          || negb (Js.truthy (admin_password (users_admin cfg)))))
    (λ _, ret true).

End Setup.

(** The page of the table that is shown ([app/inventory/page.tsx], lines
    306-311). *)
Module Pagination.

(** [Math.ceil(a / b)] for integers [a] and a positive [b]. *)
Definition ceil_div (a b : Z) : Z := - ((- a) / b).

(** An index of [Array.prototype.slice], made relative to the length. *)
Definition relative (len i : Z) : Z :=
  if i <? 0 then Z.max (len + i) 0 else Z.min i len.

(** [xs.slice(start, end)] *)
Definition slice {A} (start final : Z) (xs : list A) : list A :=
  let len := Z.of_nat (length xs) in
  let k := relative len start in
  take (Z.to_nat (relative len final - k)) (drop (Z.to_nat k) xs).

Definition totalPages (filteredProducts : list Product) (pageSize : Z) : Z :=
  Z.max 1 (ceil_div (Z.of_nat (length filteredProducts)) pageSize).

Definition currentPage (filteredProducts : list Product) (pageSize page : Z) : Z :=
  Z.min page (totalPages filteredProducts pageSize).

Definition paginatedProducts (filteredProducts : list Product) (pageSize page : Z)
    : list Product :=
  let currentPage := currentPage filteredProducts pageSize page in
  slice ((currentPage - 1) * pageSize) (currentPage * pageSize) filteredProducts.

(** The page numbers [1 .. n]. *)
Definition pages (n : Z) : list Z := (λ i, Z.of_nat i + 1) <$> seq 0 (Z.to_nat n).

End Pagination.

(* ===================================================================== *)
(** * What a run leaves alone *)
(* ===================================================================== *)

(** A computation moves the world along [R], however it ends. *)
Definition respects (R : World → World → Prop) {A} (m : Eff A) : Prop :=
  ∀ w, R w (m w).1.

(** The counter behind [orders.sequence] has not gone back. *)
Definition sequence_le (w w' : World) : Prop :=
  orders_sequence (database w) ≤ orders_sequence (database w').

(** Nothing but the table of products and the log of requests differs. *)
Definition products_only (w w' : World) : Prop :=
  database w' = set_products (λ _, products (database w')) (database w)
  ∧ localStorage w' = localStorage w
  ∧ fault w' = fault w
  ∧ uid_source w' = uid_source w ∧ uid_drawn w' = uid_drawn w
  ∧ storage_full w' = storage_full w ∧ storage_writes w' = storage_writes w.

(** A line of an order with all it records of the sale; the reference to
    the product may have been cleared. *)
Definition line_kept (before after : OrderItem) : Prop :=
  after = before ∨ after = Repo.forget_product (default "" (item_product_id before)) before.

(** The orders and their lines are all there. *)
Definition history_kept (w w' : World) : Prop :=
  orders (database w') = orders (database w)
  ∧ orders_sequence (database w') = orders_sequence (database w)
  ∧ clients (database w') = clients (database w)
  ∧ settings_users (database w') = settings_users (database w)
  ∧ localStorage w' = localStorage w
  ∧ ∀ id, option_Forall2 line_kept (order_items (database w) !! id)
                                    (order_items (database w') !! id).

(** One operation of any of the pages, or of the login. *)
Inductive operation : World → World → Prop :=
| operation_step w w' : step w w' → operation w w'
| operation_sales_order pg w : operation w (SalesOrders.handleSubmit pg w).1
| operation_client_form formState editingClient w :
    operation w (Clients.handleSubmit formState editingClient w).1
| operation_quick_client quickClient w :
    operation w (QuickClient.handleAddQuickClient quickClient w).1
| operation_login username password role w :
    operation w (Auth.login username password role w).1
| operation_setup w : operation w (Setup.isInitialSetupRequired w).1.

(** Operations one after the other. *)
Inductive operations : World → World → Prop :=
| operations_none w : operations w w
| operations_more w w' w'' : operations w w' → operation w' w'' → operations w w''.















(** Every line of an order refers to a product of the inventory, or to
    none. *)
Definition lines_refer_to_products (d : Database) : Prop :=
  ∀ id it p, order_items d !! id = Some it → item_product_id it = Some p →
             is_Some (products d !! p).

(** A step that keeps the lines referring to products. *)
Definition keeps_references (w w' : World) : Prop :=
  lines_refer_to_products (database w) → lines_refer_to_products (database w').







(** The row [upsertProduct] sends for an input. *)
Definition product_row (p : Repo.ProductInput) : ProductRow :=
  {| row_name := Repo.input_name p;
     row_color := Repo.input_color p;
     row_stock := Repo.input_stock p;
     row_cost := Some (Repo.input_cost p);
     row_sale_price := Some (Repo.input_salePrice p);
     row_image := Repo.input_image p |}.

(** The table once the inputs are stored one after the other, under the
    identifiers [uid()] gives from its [n]-th call on. *)
Fixpoint saved_under (source : nat → string) (n : nat) (ps : list Repo.ProductInput)
    (t : gmap string ProductRow) : gmap string ProductRow :=
  match ps with
  | [] => t
  | p :: ps' => saved_under source (S n) ps' (<[source n := product_row p]> t)
  end.

(** What the import checks of a row before it keeps it. *)
Definition importable (p : Repo.ProductInput) : Prop :=
  Repo.input_id p = None
  ∧ Js.truthy (Repo.input_name p) = true ∧ Js.truthy (Repo.input_color p) = true
  ∧ 0 ≤ Repo.input_stock p
  ∧ Repo.input_cost p ≤ Repo.input_salePrice p
  ∧ Repo.input_image p = None.





(* ===================================================================== *)
(** * More of the code: the history page ([app/history/page.tsx]) *)
(* ===================================================================== *)

(** [try { m } finally { f }] *)
Definition try_finally {A B} (m : Eff A) (f : Eff B) : Eff A := λ w,
  match m w with
  | (w', out) =>
      match f w' with
      | (w'', Returned _) => (w'', out)
      | (w'', Thrown e) => (w'', Thrown e)
      end
  end.

(** The history of sales orders kept in the browser.  A stored text is
    taken to parse: the application writes it with [JSON.stringify]. *)
Module History.

Definition MSG_CLEAR_ADMINS : string := "Solo administradores pueden vaciar el historial.".
Definition MSG_DELETE_ADMINS : string := "Solo administradores pueden eliminar registros.".
Definition MSG_DELETED : string := "Registro eliminado.".
Definition MSG_NOT_DELETED : string := "No se pudo eliminar el registro.".

(** [user?.role === "admin"] *)
Definition isAdmin (user : option User) : bool :=
  match user_role <$> user with
  | Some admin => true
  | _ => false
  end.

(** [load], for the orders it puts in [data] (it also reads the stock
    shown next to them, which is not part of this model). *)
Definition load : Eff (list SalesOrder) :=
  try_catch
    (let* raw := getItem stored_sales_orders in
     match raw with
     | None => ret []
     | Some parsed => ret parsed
     end)
    (λ _, ret []).

(** [clear]; the value is what [load] has put in [data]. *)
Definition clear : Eff (list SalesOrder) :=
  try_finally
    (setItem (λ l, {| stored_tickets_config := stored_tickets_config l;
                      stored_sales_orders := Some [] |}) ;;
     ret [])
    load.

(** [handleClear], with the answer to the confirmation; the value is the
    feedback shown, if any. *)
Definition handleClear (user : option User) (data : list SalesOrder) (ok : bool)
    : Eff (option string) :=
  if negb (isAdmin user) then ret (Some MSG_CLEAR_ADMINS)
  else if (length data =? 0)%nat then ret None
  else if ok then clear ;; ret None
  else ret None.

(** [deleteOne], with the answer to the confirmation. *)
Definition deleteOne (user : option User) (ok : bool) (id : string) : Eff (option string) :=
  if negb (isAdmin user) then ret (Some MSG_DELETE_ADMINS)
  else if negb ok then ret None
  else
    try_catch
      (let* raw := getItem stored_sales_orders in
       let list := default [] raw in
       let next := filter (λ o, so_id o ≠ id) list in
       setItem (λ l, {| stored_tickets_config := stored_tickets_config l;
                        stored_sales_orders := Some next |}) ;;
       load ;;
       ret (Some MSG_DELETED))
      (λ _, ret (Some MSG_NOT_DELETED)).

End History.

(* ===================================================================== *)
(** * More of the code: the headers of an imported workbook
      ([app/inventory/page.tsx], lines 51-73) *)
(* ===================================================================== *)

Module Headers.

(** The entries in the order [Object.entries] gives them. *)
Definition COLUMN_ALIASES : list (string * list string) :=
  [("nombre", ["nombre"; "productonombre"; "name"]);
   ("color", ["color"]);
   ("stock", ["stock"; "existencias"; "cantidad"]);
   ("costo", ["costo"; "costobs"; "costounitario"; "costounitarioenbs"]);
   ("precioventa", ["precioventa"; "precioventabs"; "preciounitario"; "precio"])].

Definition REQUIRED_COLUMNS : list string := fst <$> COLUMN_ALIASES.

Definition normalizeHeaderKey (value : string) : string :=
  Text.without Text.not_alphanumeric (Js.toLowerCase value).

Definition getCanonicalColumn (header : string) : option string :=
  let normalized := normalizeHeaderKey header in
  fst <$> find (λ entry : string * list string,
                  existsb (λ variant, String.eqb (normalizeHeaderKey variant) normalized)
                          entry.2)
               COLUMN_ALIASES.

End Headers.



(* ===================================================================== *)
(** * Properties *)
(* ===================================================================== *)

(** ** The model on concrete inputs *)

Example parseInt_reads_a_prefix :
  Js.parseInt "  12abc" = Some 12 ∧ Js.parseInt "-5" = Some (-5)
  ∧ Js.parseInt "+7" = Some 7 ∧ Js.parseInt "abc" = None ∧ Js.parseInt "" = None.
Proof. repeat split; reflexivity. Qed.

Example trim_and_lower :
  Js.trim "  Anahi " = "Anahi" ∧ Js.toLowerCase "AnaHI" = "anahi" ∧ Js.trim "   " = "".
Proof. repeat split; reflexivity. Qed.

Example number_or_1_examples :
  Js.number_or_1 None = 1 ∧ Js.number_or_1 (Some 0) = 1
  ∧ Js.number_or_1 (Some (-3)) = -3 ∧ Js.number_or_1 (Some 7) = 7.
Proof. repeat split; reflexivity. Qed.

Example login_examples :
  let cfg := {| users_admin := {| admin_username := "Anahi"; admin_password := "12345" |};
                users_operators :=
                  [{| operator_id := "op-1"; operator_username := "Operador";
                      operator_password := "12345"; operator_active := true |};
                   {| operator_id := "op-2"; operator_username := "Turno";
                      operator_password := "abc"; operator_active := false |}] |} in
  Auth.check cfg " ANAHI " "12345" admin
  = Auth.success {| user_username := "Anahi"; user_role := admin |}
  ∧ Auth.check cfg "anahi" "12345 " admin = Auth.failure Auth.INVALID_CREDENTIALS
  ∧ Auth.check cfg "nadie" "12345" admin = Auth.failure Auth.INVALID_CREDENTIALS
  ∧ Auth.check cfg "operador" "12345" operator
    = Auth.success {| user_username := "Operador"; user_role := operator |}
  ∧ Auth.check cfg "turno" "abc" operator = Auth.failure Auth.INVALID_CREDENTIALS
  ∧ Auth.check cfg "Anahi" "12345" operator = Auth.failure Auth.INVALID_CREDENTIALS.
Proof. repeat split; reflexivity. Qed.

(** The scenario of the specification: two units at 100 with a discount
    of 50 make a subtotal of 200 and a total of 150; the sale takes two
    units off the stock and is sent as six requests. *)
Example sale_of_two_units :
  let a := {| product_id := "A"; product_name := "A"; product_color := "Rojo";
              product_stock := 5; product_cost := 60; product_salePrice := 100;
              product_image := None |} in
  let pg := Sample.page [{| product := a; quantity := 2 |}] (Some 50) in
  let run := RegisterSale.handleSubmit pg (Sample.world (Sample.stocked [a]) []) in
  subtotal pg = 200 ∧ total pg = 150
  ∧ stock_of (database run.1) "A" = Some 3
  ∧ (row_total <$> orders (database run.1) !! "uid-0") = Some 150
  ∧ size (orders (database run.1)) = 1%nat
  ∧ requests run.1
    = [select_products; insert_order "uid-0"; insert_order_items "uid-0" ["uid-1"];
       select_stock (Some "A"); update_stock (Some "A") 3; select_products;
       select_setting "tickets-config"].
Proof. repeat split; vm_compute; reflexivity. Qed.

(** A failure of the second stock request leaves the order and its items
    stored and the stock as it was. *)
Example sale_interrupted_at_the_stock_update :
  let a := {| product_id := "A"; product_name := "A"; product_color := "Rojo";
              product_stock := 5; product_cost := 60; product_salePrice := 100;
              product_image := None |} in
  let pg := Sample.page [{| product := a; quantity := 2 |}] None in
  let run := RegisterSale.handleSubmit pg (Sample.world (Sample.stocked [a]) [4%nat]) in
  run.2 = Thrown (BackendError (update_stock (Some "A") 3))
  ∧ stock_of (database run.1) "A" = Some 5
  ∧ size (orders (database run.1)) = 1%nat
  ∧ size (order_items (database run.1)) = 1%nat.
Proof. repeat split; vm_compute; reflexivity. Qed.

(** ** Running computations *)

Lemma run_bind {A B} (m : Eff A) (k : A → Eff B) w w' a :
  m w = (w', Returned a) → bind m k w = k a w'.
Proof. intros H. unfold bind. by rewrite H. Qed.

(** ** Login *)

Lemma getUsersConfig_run w :
  Settings.getUsersConfig w
  = (log_request (select_setting "users") w,
     Returned (if fault w (length (requests w)) then DEFAULT_USERS_CONFIG
               else default DEFAULT_USERS_CONFIG (settings_users (database w)))).
Proof.
  unfold Settings.getUsersConfig, try_catch, bind, Repo.getUsersConfigRemote, request.
  destruct (fault w (length (requests w))); simpl; [done |].
  destruct (settings_users (database w)); simpl; unfold ret; f_equal; by destruct w.
Qed.

(** *** White space and [trim] *)

Lemma is_white_spec c : Js.is_white c = true ↔ c ∈ white_space.
Proof.
  split.
  - destruct c as [[] [] [] [] [] [] [] []]; try (by intros [=]); intros _;
      unfold white_space;
      repeat first [apply list_elem_of_here | apply list_elem_of_further].
  - unfold white_space. rewrite !elem_of_cons, elem_of_nil.
    intros [-> | [-> | [-> | [-> | [-> | [-> | []]]]]]]; reflexivity.
Qed.

Lemma is_white_not c : Js.is_white c = false ↔ c ∉ white_space.
Proof. rewrite <- is_white_spec. by destruct (Js.is_white c). Qed.

Lemma append_cons c s t : String c s +:+ t = String c (s +:+ t).
Proof. reflexivity. Qed.

Lemma append_empty t : "" +:+ t = t.
Proof. reflexivity. Qed.

Lemma append_empty_r t : t +:+ "" = t.
Proof. induction t as [| c t IH]; [done |]. by rewrite append_cons, IH. Qed.

Lemma trimStart_spec s :
  (∃ before, s = before +:+ Js.trimStart s ∧ blank before)
  ∧ (∀ c, first_char (Js.trimStart s) = Some c → c ∉ white_space).
Proof.
  induction s as [| c s [(before & Heq & Hblank) Hfirst]]; simpl.
  { split; [by exists "" | done]. }
  destruct (Js.is_white c) eqn:Hc.
  - split; [| done]. exists (String c before). rewrite append_cons, <- Heq.
    split; [done |]. split; [by apply is_white_spec | done].
  - split; [by exists "" |]. simpl. intros ? [= <-]. by apply is_white_not.
Qed.

Lemma trimEnd_spec s :
  (∃ after, s = Js.trimEnd s +:+ after ∧ blank after)
  ∧ (∀ c, last_char (Js.trimEnd s) = Some c → c ∉ white_space)
  ∧ (∀ c, first_char (Js.trimEnd s) = Some c → first_char s = Some c).
Proof.
  induction s as [| c s ((after & Heq & Hblank) & Hlast & Hfirst)]; simpl.
  { split; [by exists "" | done]. }
  destruct (Js.trimEnd s) as [| d t] eqn:Ht.
  - destruct (Js.is_white c) eqn:Hc.
    + split; [| done]. exists (String c s). split; [done |].
      split; [by apply is_white_spec |]. by rewrite Heq.
    + split; [| split].
      * exists after. split; [| done]. by rewrite append_cons, <- Heq.
      * simpl. intros ? [= <-]. by apply is_white_not.
      * done.
  - split; [| split].
    + exists after. split; [| done]. by rewrite append_cons, <- Heq.
    + exact Hlast.
    + done.
Qed.

Lemma trimStart_blank before s : blank before → Js.trimStart (before +:+ s) = Js.trimStart s.
Proof.
  induction before as [| c before IH]; [done |]. intros [Hc Hblank].
  rewrite append_cons. simpl. apply is_white_spec in Hc. rewrite Hc. by apply IH.
Qed.

Lemma trimStart_of_blank s : blank s → Js.trimStart s = "".
Proof.
  intros Hblank. rewrite <- (append_empty_r s). by rewrite trimStart_blank.
Qed.

Lemma trimStart_unpadded s :
  (∀ c, first_char s = Some c → c ∉ white_space) → Js.trimStart s = s.
Proof.
  destruct s as [| c s]; [done |]. intros Hfirst. simpl.
  specialize (Hfirst c eq_refl). apply is_white_not in Hfirst. by rewrite Hfirst.
Qed.

Lemma trimEnd_of_blank s : blank s → Js.trimEnd s = "".
Proof.
  induction s as [| c s IH]; [done |]. intros [Hc Hblank]. simpl.
  rewrite (IH Hblank). apply is_white_spec in Hc. by rewrite Hc.
Qed.

Lemma trimEnd_unpadded s :
  (∀ c, last_char s = Some c → c ∉ white_space) → Js.trimEnd s = s.
Proof.
  induction s as [| c s IH]; [done |]. intros Hlast. simpl.
  destruct s as [| d s].
  - simpl. specialize (Hlast c eq_refl). apply is_white_not in Hlast. by rewrite Hlast.
  - rewrite IH; [done |]. intros e He. by apply Hlast.
Qed.

Lemma trimEnd_blank s after : blank after → Js.trimEnd (s +:+ after) = Js.trimEnd s.
Proof.
  intros Hblank. induction s as [| c s IH].
  - rewrite append_empty. by apply trimEnd_of_blank.
  - rewrite append_cons. simpl. by rewrite IH.
Qed.

Lemma first_char_append s t : s ≠ "" → first_char (s +:+ t) = first_char s.
Proof. by destruct s. Qed.

(** [trim] gives the text without the white space around it, and
    nothing else is that text. *)
Lemma trim_spec s t : Js.trim s = t ↔ without_blanks_around s t.
Proof.
  split.
  - intros <-. unfold Js.trim.
    destruct (trimStart_spec s) as [(before & Heq & Hbefore) Hfirst].
    destruct (trimEnd_spec (Js.trimStart s)) as ((after & Heq' & Hafter) & Hlast & Hkept).
    split; [| split; [| done]].
    + exists before, after. split; [| done]. by rewrite <- Heq', <- Heq.
    + intros c Hc. apply Hfirst. by apply Hkept.
  - intros ((before & after & -> & Hbefore & Hafter) & Hfirst & Hlast).
    unfold Js.trim. rewrite trimStart_blank by done.
    destruct t as [| c t].
    + rewrite append_empty, trimStart_of_blank by done. done.
    + rewrite trimStart_unpadded.
      * rewrite trimEnd_blank by done. by apply trimEnd_unpadded.
      * rewrite first_char_append by done. exact Hfirst.
Qed.

(** *** Letters and [toLowerCase] *)

Lemma lower_ascii_same a b : Js.lower_ascii a = Js.lower_ascii b ↔ same_letter a b.
Proof.
  unfold Js.lower_ascii, same_letter, capital_of.
  pose proof (Ascii.nat_ascii_bounded a) as Ha.
  pose proof (Ascii.nat_ascii_bounded b) as Hb.
  assert (∀ x y, Ascii.nat_of_ascii x = Ascii.nat_of_ascii y → x = y) as Hinj.
  { intros x y Heq.
    by rewrite <- (Ascii.ascii_nat_embedding x), <- (Ascii.ascii_nat_embedding y), Heq. }
  assert (∀ x n, (n < 256)%nat → Ascii.ascii_of_nat n = x ↔ n = Ascii.nat_of_ascii x) as Hof.
  { intros x n Hn. split.
    - intros <-. by rewrite Ascii.nat_ascii_embedding.
    - intros ->. apply Ascii.ascii_nat_embedding. }
  destruct (Nat.leb_spec 65 (Ascii.nat_of_ascii a)), (Nat.leb_spec (Ascii.nat_of_ascii a) 90),
    (Nat.leb_spec 65 (Ascii.nat_of_ascii b)), (Nat.leb_spec (Ascii.nat_of_ascii b) 90);
    simpl.
  all: try (split; [intros ->; by left | intros [-> | [[? ?] | [? ?]]]; [done | lia | lia]]).
  all: try (rewrite Hof by lia; split;
            [intros Heq; first [right; left; lia | right; right; lia]
            | intros [-> | [[? ?] | [? ?]]]; lia]).
  all: try (split; [intros Heq; symmetry in Heq; apply Hof in Heq; [| lia];
                    first [right; left; lia | right; right; lia]
                   | intros [<- | [[? ?] | [? ?]]]; [lia | |]; try lia;
                     symmetry; apply Hof; lia]).
  split.
  - intros Heq. left. apply Hinj.
    apply (f_equal Ascii.nat_of_ascii) in Heq.
    rewrite !Ascii.nat_ascii_embedding in Heq by lia. lia.
  - intros [-> | [[? ?] | [? ?]]]; [done | lia | lia].
Qed.

Lemma toLowerCase_same s t : Js.toLowerCase s = Js.toLowerCase t ↔ same_ignoring_case s t.
Proof.
  split.
  - revert t. induction s as [| a s IH]; intros [| b t]; simpl; try done.
    + intros _. constructor.
    + intros [= Hhead Htail]. constructor; [by apply lower_ascii_same | by apply IH].
  - induction 1 as [| a b s t Hletter _ IH]; [done |]. simpl.
    apply lower_ascii_same in Hletter. by rewrite Hletter, IH.
Qed.

Lemma same_ignoring_case_sym s t : same_ignoring_case s t → same_ignoring_case t s.
Proof. intros H. apply toLowerCase_same. symmetry. by apply toLowerCase_same. Qed.

(** *** The check of the credentials *)

Lemma fits_spec username password name record_password :
  fits username password name record_password
  ↔ Js.toLowerCase (Js.trim username) = Js.toLowerCase name ∧ password = record_password.
Proof.
  unfold fits. split.
  - intros [(typed & Htrim%trim_spec & Hsame%toLowerCase_same) ->]. by rewrite Htrim.
  - intros [Hsame ->]. split; [| done]. exists (Js.trim username).
    split; [by apply trim_spec | by apply toLowerCase_same].
Qed.

Lemma operator_matches_spec n p o :
  Auth.operator_matches n p o = true ↔
  operator_active o = true
  ∧ Js.toLowerCase (operator_username o) = Js.toLowerCase n
  ∧ operator_password o = p.
Proof.
  unfold Auth.operator_matches.
  rewrite !andb_true_iff, !String.eqb_eq. tauto.
Qed.

Lemma operator_matches_fits username password o :
  Auth.operator_matches (Js.trim username) password o = true ↔
  operator_active o = true
  ∧ fits username password (operator_username o) (operator_password o).
Proof.
  rewrite operator_matches_spec, fits_spec. split.
  - intros (Hactive & Hname & Hpassword). by repeat split.
  - intros (Hactive & Hname & Hpassword). by repeat split.
Qed.

(** What a successful check has found. *)
Lemma check_success cfg username password role user :
  Auth.check cfg username password role = Auth.success user →
  user_role user = role
  ∧ match role with
    | admin =>
        user_username user = admin_username (users_admin cfg)
        ∧ fits username password
            (admin_username (users_admin cfg)) (admin_password (users_admin cfg))
    | operator =>
        ∃ o, o ∈ users_operators cfg
             ∧ operator_active o = true
             ∧ user_username user = operator_username o
             ∧ fits username password (operator_username o) (operator_password o)
    end.
Proof.
  unfold Auth.check. destruct role.
  - destruct (String.eqb_spec (Js.toLowerCase (Js.trim username))
                (Js.toLowerCase (admin_username (users_admin cfg)))) as [Hname | ?];
      [| done].
    destruct (String.eqb_spec password (admin_password (users_admin cfg))) as [Hpassword | ?];
      [| done].
    simpl. intros [= <-]. split; [done |]. split; [done |]. by apply fits_spec.
  - destruct (find _ _) as [op |] eqn:Hfind; [| done].
    intros [= <-]. split; [done |].
    apply find_some in Hfind as [Hin Hmatch].
    apply operator_matches_fits in Hmatch as [Hactive Hfits].
    exists op. split; [by apply list_elem_of_In | done].
Qed.


(** The answers of the check: a user, or the one message. *)
Lemma check_answers cfg username password role :
  (∃ user, Auth.check cfg username password role = Auth.success user)
  ∨ Auth.check cfg username password role = Auth.failure Auth.INVALID_CREDENTIALS.
Proof.
  unfold Auth.check. destruct role.
  - destruct (negb _ || negb _); [by right | left; by eexists].
  - destruct (find _ _); [left; by eexists | by right].
Qed.


Lemma login_run username password role w :
  Auth.login username password role w
  = (log_request (select_setting "users") w,
     Returned (Auth.check
                 (if fault w (length (requests w)) then DEFAULT_USERS_CONFIG
                  else default DEFAULT_USERS_CONFIG (settings_users (database w)))
                 username password role)).
Proof. unfold Auth.login, bind. by rewrite getUsersConfig_run. Qed.



(** ** The cart of a sale *)

Lemma same_product_spec id line :
  RegisterSale.same_product id line = true ↔ line_product_id line = id.
Proof. unfold RegisterSale.same_product, line_product_id. apply String.eqb_eq. Qed.

Lemma find_same_product_none id (cart : list CartLine) :
  find (RegisterSale.same_product id) cart = None → id ∉ line_product_id <$> cart.
Proof.
  intros Hfind Hin.
  apply list_elem_of_fmap in Hin as (line & -> & Hin).
  apply list_elem_of_In in Hin.
  pose proof (find_none _ _ Hfind line Hin) as Hno.
  assert (RegisterSale.same_product (line_product_id line) line = true)
    by (by apply same_product_spec).
  congruence.
Qed.

Lemma requantified_products (f : CartLine → Z) (test : CartLine → bool) (cart : list CartLine) :
  line_product_id <$> ((λ line, if test line then RegisterSale.with_quantity (f line) line else line) <$> cart)
  = line_product_id <$> cart.
Proof.
  rewrite <- list_fmap_compose. apply list_fmap_ext.
  intros i line _. simpl. by destruct (test line).
Qed.

(** The handlers keep one line per product. *)
Lemma cart_handlers_keep_products_unique cart :
  unique_products cart →
  (∀ p, unique_products (RegisterSale.handleAddProduct p cart))
  ∧ (∀ id q, unique_products (RegisterSale.handleUpdateQuantity id q cart))
  ∧ (∀ id delta, unique_products (RegisterSale.handleAdjustQuantity id delta cart))
  ∧ (∀ id, unique_products (RegisterSale.handleRemoveLine id cart)).
Proof.
  unfold unique_products. intros Hnd. repeat split.
  - intros p. unfold RegisterSale.handleAddProduct.
    destruct (find _ _) eqn:Hfind.
    + by rewrite (requantified_products (λ line, Z.min (quantity line + 1) (product_stock p))).
    + rewrite fmap_app. apply NoDup_app. split; [done |]. split.
      * intros x Hx Hin. apply list_elem_of_singleton in Hin. subst x.
        by apply find_same_product_none in Hfind.
      * apply NoDup_singleton.
  - intros id q. unfold RegisterSale.handleUpdateQuantity.
    by rewrite (requantified_products
                  (λ line, Z.max 1 (Z.min q (product_stock (product line))))).
  - intros id delta. unfold RegisterSale.handleAdjustQuantity.
    rewrite <- list_fmap_compose.
    erewrite list_fmap_ext; [exact Hnd |].
    intros i line _. simpl. by destruct (RegisterSale.same_product id line).
  - intros id. unfold RegisterSale.handleRemoveLine.
    eapply sublist_NoDup; [exact Hnd |].
    apply fmap_sublist, sublist_filter.
Qed.

Lemma cart_state_unique cart : cart_state cart → unique_products cart.
Proof.
  induction 1 as [| p cart _ IH | id q cart _ IH | id delta cart _ IH | id cart _ IH].
  - apply NoDup_nil_2.
  - by apply cart_handlers_keep_products_unique.
  - by apply cart_handlers_keep_products_unique.
  - by apply cart_handlers_keep_products_unique.
  - by apply cart_handlers_keep_products_unique.
Qed.

(** C10, the claim as stated fails: adding a product whose record shows
    more stock than the record already in the cart raises the quantity
    above the stock of the line. *)
Lemma add_product_exceeds_line_stock :
  let listed := {| product_id := "a"; product_name := "Camisa"; product_color := "Azul";
                   product_stock := 3; product_cost := 120; product_salePrice := 210;
                   product_image := None |} in
  let restocked := {| product_id := "a"; product_name := "Camisa"; product_color := "Azul";
                      product_stock := 10; product_cost := 120; product_salePrice := 210;
                      product_image := None |} in
  let cart := [{| product := listed; quantity := 3 |}] in
  1 ≤ product_stock restocked
  ∧ Forall within_stock cart
  ∧ RegisterSale.handleAddProduct restocked cart = [{| product := listed; quantity := 4 |}]
  ∧ ¬ Forall within_stock (RegisterSale.handleAddProduct restocked cart).
Proof.
  simpl. split; [lia |]. split.
  { constructor; [unfold within_stock; simpl; lia | constructor]. }
  split; [reflexivity |].
  intros H. apply Forall_inv in H. unfold within_stock in H. simpl in H. lia.
Qed.

(** C10, amended.  In a cart whose lines all have [1 ≤ q ≤ stock of the
    line's product record], setting and adjusting a quantity keep it so;
    adding a product of stock at least 1 keeps every quantity at least 1
    and at most the larger of the line's stock and the stock of the
    product passed in, hence within the line's stock whenever the
    product passed in shows no more stock than the line already in the
    cart for it. *)
Theorem cart_quantities_stay_within_stock cart :
  Forall within_stock cart →
  (∀ p, 1 ≤ product_stock p →
        Forall (λ line, 1 ≤ quantity line
                        ≤ Z.max (product_stock (product line)) (product_stock p))
               (RegisterSale.handleAddProduct p cart)
        ∧ ((∀ line, line ∈ cart → line_product_id line = product_id p →
                    product_stock p ≤ product_stock (product line)) →
           Forall within_stock (RegisterSale.handleAddProduct p cart)))
  ∧ (∀ id q, Forall within_stock (RegisterSale.handleUpdateQuantity id q cart))
  ∧ (∀ id delta, Forall within_stock (RegisterSale.handleAdjustQuantity id delta cart)).
Proof.
  intros Hcart. rewrite Forall_forall in Hcart. repeat split.
  - unfold RegisterSale.handleAddProduct. destruct (find _ _).
    + apply Forall_fmap, Forall_forall. intros line Hin. simpl.
      specialize (Hcart line Hin). unfold within_stock in Hcart.
      destruct (RegisterSale.same_product _ line); simpl; lia.
    + apply Forall_app. split.
      * apply Forall_forall. intros line Hin.
        specialize (Hcart line Hin). unfold within_stock in Hcart. lia.
      * constructor; [simpl; lia | constructor].
  - intros Hsame. unfold RegisterSale.handleAddProduct. destruct (find _ _).
    + apply Forall_fmap, Forall_forall. intros line Hin. simpl.
      pose proof (Hcart line Hin) as Hline. unfold within_stock in Hline.
      destruct (RegisterSale.same_product _ line) eqn:Hid; [| done].
      apply same_product_spec in Hid. specialize (Hsame line Hin Hid).
      unfold within_stock. simpl. lia.
    + apply Forall_app. split; [by apply Forall_forall |].
      constructor; [unfold within_stock; simpl; lia | constructor].
  - intros id q. unfold RegisterSale.handleUpdateQuantity.
    apply Forall_fmap, Forall_forall. intros line Hin. simpl.
    specialize (Hcart line Hin). unfold within_stock in Hcart.
    destruct (RegisterSale.same_product id line); [| done].
    unfold within_stock. simpl. lia.
  - intros id delta. unfold RegisterSale.handleAdjustQuantity.
    apply Forall_fmap, Forall_forall. intros line Hin. simpl.
    specialize (Hcart line Hin). unfold within_stock in Hcart.
    destruct (RegisterSale.same_product id line); simpl; [| done].
    unfold within_stock. simpl. lia.
Qed.

Lemma cart_quantities_stay_within_stock_witness :
  let shirt := {| product_id := "a"; product_name := "Camisa"; product_color := "Azul";
                  product_stock := 3; product_cost := 120; product_salePrice := 210;
                  product_image := None |} in
  let cart := [{| product := shirt; quantity := 3 |}] in
  Forall within_stock (RegisterSale.handleAddProduct shirt cart)
  ∧ Forall within_stock (RegisterSale.handleUpdateQuantity "a" 7 cart)
  ∧ Forall within_stock (RegisterSale.handleAdjustQuantity "a" (-5) cart).
Proof.
  intros shirt cart.
  assert (Forall within_stock cart) as Hcart.
  { constructor; [unfold within_stock; simpl; lia | constructor]. }
  destruct (cart_quantities_stay_within_stock cart Hcart) as (Hadd & Hset & Hadjust).
  split; [| split; [apply Hset | apply Hadjust]].
  apply Hadd; [simpl; lia |].
  intros line Hin _. apply list_elem_of_singleton in Hin. subst line. simpl. lia.
Defined.

(** ** Validation of a submission *)

Lemma sale_rejected_by_validation pg u message w :
  user pg = Some u → validation pg = Some message →
  RegisterSale.handleSubmit pg w = (w, Returned (RegisterSale.form_error message)).
Proof.
  unfold validation, RegisterSale.handleSubmit. intros -> Hv.
  destruct (selectedClient pg); [| by inversion Hv].
  destruct (cart pg) as [| line lines] eqn:Hcart; simpl; [by inversion Hv |].
  rewrite Z.gtb_ltb. destruct (subtotal pg <? discountAmount pg); by inversion Hv.
Qed.

Lemma sales_order_rejected_by_validation pg u message w :
  user pg = Some u → validation pg = Some message →
  SalesOrders.handleSubmit pg w = (w, Returned (SalesOrders.form_error message)).
Proof.
  unfold validation, SalesOrders.handleSubmit. intros -> Hv.
  destruct (selectedClient pg); [| by inversion Hv].
  destruct (cart pg) as [| line lines] eqn:Hcart; simpl; [by inversion Hv |].
  rewrite Z.gtb_ltb. destruct (subtotal pg <? discountAmount pg); by inversion Hv.
Qed.

Lemma validation_of_excess_discount pg :
  subtotal pg < discountAmount pg →
  ∃ message, validation pg = Some message
             ∧ message ∈ [MSG_NO_CLIENT; MSG_EMPTY_CART; MSG_DISCOUNT]
             ∧ (is_Some (selectedClient pg) → cart pg ≠ [] → message = MSG_DISCOUNT).
Proof.
  intros Hd. unfold validation.
  destruct (selectedClient pg) as [c |].
  - destruct (cart pg) as [| line lines].
    + exists MSG_EMPTY_CART. repeat split; [set_solver | done].
    + apply Z.ltb_lt in Hd. rewrite Hd.
      exists MSG_DISCOUNT. repeat split; set_solver.
  - exists MSG_NO_CLIENT. repeat split; [set_solver |].
    by intros [? ?].
Qed.

(** C6.  A submission, of a sale or of a sales order, whose discount
    exceeds the subtotal leaves the world as it was: no request is sent,
    nothing is stored; for a signed-in user it ends with a validation
    message, which is the discount message once a client is selected and
    the cart is not empty. *)
Theorem excess_discount_rejected_before_persistence pg w :
  subtotal pg < discountAmount pg →
  (RegisterSale.handleSubmit pg w).1 = w
  ∧ (SalesOrders.handleSubmit pg w).1 = w
  ∧ (is_Some (user pg) →
     ∃ message,
       message ∈ [MSG_NO_CLIENT; MSG_EMPTY_CART; MSG_DISCOUNT]
       ∧ (is_Some (selectedClient pg) → cart pg ≠ [] → message = MSG_DISCOUNT)
       ∧ RegisterSale.handleSubmit pg w = (w, Returned (RegisterSale.form_error message))
       ∧ SalesOrders.handleSubmit pg w = (w, Returned (SalesOrders.form_error message))).
Proof.
  intros Hd.
  destruct (validation_of_excess_discount pg Hd) as (message & Hv & Hin & Hmsg).
  destruct (user pg) as [u |] eqn:Hu.
  - rewrite (sale_rejected_by_validation pg u message w Hu Hv).
    rewrite (sales_order_rejected_by_validation pg u message w Hu Hv).
    repeat split. intros _. by exists message.
  - unfold RegisterSale.handleSubmit, SalesOrders.handleSubmit. rewrite Hu.
    repeat split. by intros [? ?].
Qed.

Lemma excess_discount_rejected_before_persistence_witness :
  let pg := Sample.page [{| product := Sample.shirt; quantity := 2 |}] (Some 500) in
  let w := Sample.world (Sample.stocked [Sample.shirt]) [] in
  subtotal pg < discountAmount pg
  ∧ RegisterSale.handleSubmit pg w = (w, Returned (RegisterSale.form_error MSG_DISCOUNT))
  ∧ SalesOrders.handleSubmit pg w = (w, Returned (SalesOrders.form_error MSG_DISCOUNT)).
Proof.
  intros pg w.
  assert (subtotal pg < discountAmount pg) as Hd by (vm_compute; reflexivity).
  split; [exact Hd |].
  destruct (excess_discount_rejected_before_persistence pg w Hd) as (_ & _ & H).
  destruct H as (message & _ & Hmsg & Hsale & Horder); [by eexists |].
  assert (message = MSG_DISCOUNT) as -> by (apply Hmsg; [by eexists | done]).
  by split.
Defined.

(** ** The ticket counter of sales orders *)



(** From [2^53] on it is not: the sum is rounded to a number that holds
    an integer. *)
Example add_one_rounds :
  Js.add (2 ^ 53) 1 = 2 ^ 53
  ∧ Js.add (2 ^ 53 + 2) 1 = 2 ^ 53 + 4
  ∧ Js.add (2 ^ 54) 1 = 2 ^ 54
  ∧ Js.add (2 ^ 53 - 1) 1 = 2 ^ 53.
Proof. repeat split; vm_compute; reflexivity. Qed.


Lemma parsed_config_well_formed doc cfg :
  parsed_config doc = Some cfg → well_formed cfg = true.
Proof.
  unfold parsed_config, well_formed.
  destruct (Js.truthy (doc_companyName doc) && Js.truthy (doc_subtitle doc)) eqn:Hnamed;
    [| done].
  destruct (doc_sale doc), (doc_order doc); try done. by intros [= <-].
Qed.

Lemma getTicketsConfig_returns w :
  ∃ cfg, Settings.getTicketsConfig w = (w, Returned cfg)
         ∧ well_formed cfg = true
         ∧ cfg = read_tickets_config (localStorage w).
Proof.
  exists (read_tickets_config (localStorage w)).
  unfold Settings.getTicketsConfig, try_catch, bind, getItem, ret, read_tickets_config.
  simpl.
  destruct (stored_tickets_config (localStorage w)) as [parsed |] eqn:Hstored; simpl;
    [| done].
  destruct (parsed_config parsed) as [cfg |] eqn:Hparsed; simpl.
  - split; [| split; [by eapply parsed_config_well_formed | done]].
    revert Hparsed. unfold parsed_config.
    destruct (Js.truthy (doc_companyName parsed) && Js.truthy (doc_subtitle parsed));
      [| done].
    destruct (doc_sale parsed), (doc_order parsed); try done. by intros [= <-].
  - split; [| done].
    revert Hparsed. unfold parsed_config.
    destruct (Js.truthy (doc_companyName parsed) && Js.truthy (doc_subtitle parsed));
      [| done].
    by destruct (doc_sale parsed), (doc_order parsed).
Qed.


Lemma counter_value_spec stored :
  Z.max 1 (Js.number_or_1 stored) = counter_value stored.
Proof.
  unfold Js.number_or_1, counter_value. destruct stored as [n |]; [| done].
  destruct (Z.eqb_spec n 0); destruct (Z.leb_spec 1 n); lia.
Qed.







Lemma sales_order_saved_inv pg w w' order :
  SalesOrders.handleSubmit pg w = (w', Returned (SalesOrders.saved order)) →
  is_Some (user pg) ∧ validation pg = None.
Proof.
  intros Hrun. destruct (user pg) as [u |] eqn:Hu.
  - split; [by eexists |].
    destruct (validation pg) as [message |] eqn:Hv; [| done].
    by rewrite (sales_order_rejected_by_validation pg u message w Hu Hv) in Hrun.
  - unfold SalesOrders.handleSubmit in Hrun. by rewrite Hu in Hrun.
Qed.

(** A stored document that lacks a side, or a name, does not pass the
    test of [getTicketsConfig]: the defaults stand in for it. *)
Example incomplete_document_is_replaced_by_defaults :
  let order_side := {| nextNumber := Some 5; farewell := "¡Gracias por su preferencia!" |} in
  let sale_side := {| nextNumber := Some 1; farewell := "¡Gracias por su compra!" |} in
  let l doc := {| stored_tickets_config := Some doc; stored_sales_orders := None |} in
  read_tickets_config
    (l {| doc_companyName := "AIJ"; doc_subtitle := "Tienda";
          doc_sale := None; doc_order := Some order_side |}) = DEFAULT_TICKETS_CONFIG
  ∧ read_tickets_config
      (l {| doc_companyName := ""; doc_subtitle := "Tienda";
            doc_sale := Some sale_side; doc_order := Some order_side |})
    = DEFAULT_TICKETS_CONFIG
  ∧ nextNumber (tickets_order
      (read_tickets_config
         (l {| doc_companyName := "AIJ"; doc_subtitle := "Tienda";
               doc_sale := Some sale_side; doc_order := Some order_side |}))) = Some 5.
Proof. repeat split; reflexivity. Qed.







(** ** Upsert *)

Lemma upsertProduct_run p w :
  fault w (length (requests w)) = false →
  let id := default (uid_source w (uid_drawn w)) (Repo.input_id p) in
  ∃ w',
    Repo.upsertProduct p w = (w', Returned (Repo.to_product id (product_row p)))
    ∧ requests w' = (requests w ++ [upsert_product id])%list
    ∧ products (database w') = <[id := product_row p]> (products (database w))
    ∧ clients (database w') = clients (database w)
    ∧ uid_drawn w' = match Repo.input_id p with
                     | Some _ => uid_drawn w
                     | None => S (uid_drawn w)
                     end.
Proof.
  intros Hf id. unfold Repo.upsertProduct, bind, request, uid, ret.
  destruct (Repo.input_id p) as [given |] eqn:Hid; simpl; rewrite Hf; simpl;
    eexists; (split; [reflexivity |]); simpl; by repeat split.
Qed.

Lemma upsertClient_run c w :
  fault w (length (requests w)) = false →
  let id := default (uid_source w (uid_drawn w)) (Repo.cinput_id c) in
  ∃ w',
    Repo.upsertClient c w = (w', Returned (Repo.to_client id (client_row c)))
    ∧ requests w' = (requests w ++ [upsert_client id])%list
    ∧ clients (database w') = <[id := client_row c]> (clients (database w))
    ∧ products (database w') = products (database w)
    ∧ uid_drawn w' = match Repo.cinput_id c with
                     | Some _ => uid_drawn w
                     | None => S (uid_drawn w)
                     end.
Proof.
  intros Hf id. unfold Repo.upsertClient, bind, request, uid, ret.
  destruct (Repo.cinput_id c) as [given |] eqn:Hid; simpl; rewrite Hf; simpl;
    eexists; (split; [reflexivity |]); simpl; by repeat split.
Qed.

(** A table with one key written: the row under the key is the one
    written, the other rows are as before, and the table has one row more
    exactly when the key is new. *)
Lemma written_row {V} (id : string) (row : V) (t : gmap string V) :
  <[id := row]> t !! id = Some row
  ∧ (∀ other, other ≠ id → <[id := row]> t !! other = t !! other)
  ∧ (t !! id = None → size (<[id := row]> t) = S (size t))
  ∧ (is_Some (t !! id) → size (<[id := row]> t) = size t).
Proof.
  split; [apply lookup_insert_eq |].
  split; [intros other Hne; by apply lookup_insert_ne |].
  rewrite map_size_insert. split.
  - by intros ->.
  - by intros [old ->].
Qed.

(** C8, the claim as stated fails: no identifier comes from the
    database, whose [id] columns have no default.  The repository draws
    one from [uid()] and sends it with the row, so that the identifier
    is new only as far as [uid()] never repeats itself.  Here [uid()]
    gives twice the version-4 UUID made of the same sixteen bytes: the
    second upsert without an id returns the identifier of the first, its
    row takes the place of the first one and the table does not grow.
    And when the request fails, no entity is returned at all. *)
Lemma upserts_without_id_can_share_an_id :
  let drawn_twice := Id.uid_of_bytes (replicate 16 0) in
  let w := Sample.world (Sample.stocked [Sample.shirt]) [] in
  let repeating :=
    {| database := database w; localStorage := localStorage w; requests := requests w;
       fault := fault w; uid_source := λ _, drawn_twice; uid_drawn := uid_drawn w;
       storage_full := storage_full w; storage_writes := storage_writes w |} in
  let cap := {| Repo.input_id := None; Repo.input_name := "Gorra"; Repo.input_color := "Rojo";
                Repo.input_stock := 4; Repo.input_cost := 10; Repo.input_salePrice := 15;
                Repo.input_image := None |} in
  let hat := {| Repo.input_id := None; Repo.input_name := "Sombrero";
                Repo.input_color := "Negro"; Repo.input_stock := 9; Repo.input_cost := 30;
                Repo.input_salePrice := 45; Repo.input_image := None |} in
  let run1 := Repo.upsertProduct cap repeating in
  let run2 := Repo.upsertProduct hat run1.1 in
  let failed := Repo.upsertProduct cap (Sample.world (Sample.stocked [Sample.shirt]) [0%nat]) in
  drawn_twice = "00000000-0000-4000-8000-000000000000"
  ∧ products (database repeating) !! drawn_twice = None
  ∧ run1.2 = Returned {| product_id := drawn_twice; product_name := "Gorra";
                         product_color := "Rojo"; product_stock := 4; product_cost := 10;
                         product_salePrice := 15; product_image := None |}
  ∧ size (products (database run1.1)) = 2%nat
  ∧ run2.2 = Returned {| product_id := drawn_twice; product_name := "Sombrero";
                         product_color := "Negro"; product_stock := 9; product_cost := 30;
                         product_salePrice := 45; product_image := None |}
  ∧ requests run2.1 = [upsert_product drawn_twice; upsert_product drawn_twice]
  ∧ (row_name <$> products (database run2.1) !! drawn_twice) = Some "Sombrero"
  ∧ size (products (database run2.1)) = 2%nat
  ∧ failed.2 = Thrown (BackendError (upsert_product "uid-0"))
  ∧ database failed.1 = Sample.stocked [Sample.shirt].
Proof. repeat split; vm_compute; reflexivity. Qed.

(** C8, amended.  For a product and for a client, when the request is
    answered.  An upsert without an id sends the identifier the
    repository draws from [uid()]; when that identifier is not yet a key
    of the table, the entity returned is the row sent under this
    identifier, the row is in the table under it, the other rows are as
    before and the table has one row more.  An upsert with an id that is
    a key of the table returns the row sent under that id; the row sent
    takes the place of the existing one, the other rows are as before,
    the number of rows is unchanged and no identifier is drawn. *)
Theorem upsert_new_or_existing w :
  fault w (length (requests w)) = false →
  (∀ p, Repo.input_id p = None →
        let id := uid_source w (uid_drawn w) in
        products (database w) !! id = None →
        ∃ w',
          Repo.upsertProduct p w = (w', Returned (Repo.to_product id (product_row p)))
          ∧ requests w' = (requests w ++ [upsert_product id])%list
          ∧ products (database w') !! id = Some (product_row p)
          ∧ (∀ other, other ≠ id →
                      products (database w') !! other = products (database w) !! other)
          ∧ size (products (database w')) = S (size (products (database w)))
          ∧ uid_drawn w' = S (uid_drawn w))
  ∧ (∀ p id old, Repo.input_id p = Some id →
                 products (database w) !! id = Some old →
                 ∃ w',
                   Repo.upsertProduct p w = (w', Returned (Repo.to_product id (product_row p)))
                   ∧ requests w' = (requests w ++ [upsert_product id])%list
                   ∧ products (database w') !! id = Some (product_row p)
                   ∧ (∀ other, other ≠ id →
                               products (database w') !! other = products (database w) !! other)
                   ∧ size (products (database w')) = size (products (database w))
                   ∧ uid_drawn w' = uid_drawn w)
  ∧ (∀ c, Repo.cinput_id c = None →
          let id := uid_source w (uid_drawn w) in
          clients (database w) !! id = None →
          ∃ w',
            Repo.upsertClient c w = (w', Returned (Repo.to_client id (client_row c)))
            ∧ requests w' = (requests w ++ [upsert_client id])%list
            ∧ clients (database w') !! id = Some (client_row c)
            ∧ (∀ other, other ≠ id →
                        clients (database w') !! other = clients (database w) !! other)
            ∧ size (clients (database w')) = S (size (clients (database w)))
            ∧ uid_drawn w' = S (uid_drawn w))
  ∧ (∀ c id old, Repo.cinput_id c = Some id →
                 clients (database w) !! id = Some old →
                 ∃ w',
                   Repo.upsertClient c w = (w', Returned (Repo.to_client id (client_row c)))
                   ∧ requests w' = (requests w ++ [upsert_client id])%list
                   ∧ clients (database w') !! id = Some (client_row c)
                   ∧ (∀ other, other ≠ id →
                               clients (database w') !! other = clients (database w) !! other)
                   ∧ size (clients (database w')) = size (clients (database w))
                   ∧ uid_drawn w' = uid_drawn w).
Proof.
  intros Hf. split; [| split; [| split]].
  - intros p Hid id Hnew.
    destruct (upsertProduct_run p w Hf) as (w' & Hrun & Hreq & Hrows & _ & Hdrawn).
    rewrite Hid in *. simpl in *. fold id in Hrun, Hreq, Hrows.
    destruct (written_row id (product_row p) (products (database w)))
      as (Hrow & Hothers & Hsize & _).
    exists w'. rewrite Hrows. repeat split; auto.
  - intros p id old Hid Hold.
    destruct (upsertProduct_run p w Hf) as (w' & Hrun & Hreq & Hrows & _ & Hdrawn).
    rewrite Hid in *. simpl in *.
    destruct (written_row id (product_row p) (products (database w)))
      as (Hrow & Hothers & _ & Hsize).
    specialize (Hsize (mk_is_Some _ _ Hold)).
    exists w'. rewrite Hrows. repeat split; auto.
  - intros c Hid id Hnew.
    destruct (upsertClient_run c w Hf) as (w' & Hrun & Hreq & Hrows & _ & Hdrawn).
    rewrite Hid in *. simpl in *. fold id in Hrun, Hreq, Hrows.
    destruct (written_row id (client_row c) (clients (database w)))
      as (Hrow & Hothers & Hsize & _).
    exists w'. rewrite Hrows. repeat split; auto.
  - intros c id old Hid Hold.
    destruct (upsertClient_run c w Hf) as (w' & Hrun & Hreq & Hrows & _ & Hdrawn).
    rewrite Hid in *. simpl in *.
    destruct (written_row id (client_row c) (clients (database w)))
      as (Hrow & Hothers & _ & Hsize).
    specialize (Hsize (mk_is_Some _ _ Hold)).
    exists w'. rewrite Hrows. repeat split; auto.
Qed.

Lemma upsert_new_or_existing_witness :
  let w := Sample.world (Sample.stocked [Sample.shirt]) [] in
  let cap := {| Repo.input_id := None; Repo.input_name := "Gorra"; Repo.input_color := "Rojo";
                Repo.input_stock := 4; Repo.input_cost := 10; Repo.input_salePrice := 15;
                Repo.input_image := None |} in
  let shirt := {| Repo.input_id := Some "demo-1"; Repo.input_name := "Camisa";
                  Repo.input_color := "Azul"; Repo.input_stock := 30; Repo.input_cost := 120;
                  Repo.input_salePrice := 210; Repo.input_image := None |} in
  (row_name <$> products (database w) !! "demo-1") = Some "Camisa Inteligente AIJ"
  ∧ (∃ w' saved, Repo.upsertProduct cap w = (w', Returned saved)
                 ∧ product_id saved = "uid-0"
                 ∧ (row_name <$> products (database w') !! "uid-0") = Some "Gorra"
                 ∧ size (products (database w')) = 2%nat)
  ∧ (∃ w' saved, Repo.upsertProduct shirt w = (w', Returned saved)
                 ∧ product_id saved = "demo-1"
                 ∧ (row_name <$> products (database w') !! "demo-1") = Some "Camisa"
                 ∧ size (products (database w')) = 1%nat).
Proof.
  intros w cap shirt.
  assert (fault w (length (requests w)) = false) as Hf by (vm_compute; reflexivity).
  destruct (upsert_new_or_existing w Hf) as (Hnew & Hold & _).
  split; [vm_compute; reflexivity |]. split.
  - assert (products (database w) !! uid_source w (uid_drawn w) = None) as Hfresh
      by (vm_compute; reflexivity).
    destruct (Hnew cap eq_refl Hfresh) as (w' & Hrun & _ & Hrow & _ & Hsize & _).
    eexists w', _. split; [exact Hrun |]. split; [vm_compute; reflexivity |].
    split; [| rewrite Hsize; vm_compute; reflexivity].
    assert (uid_source w (uid_drawn w) = "uid-0") as Hid by (vm_compute; reflexivity).
    rewrite Hid in Hrow. by rewrite Hrow.
  - assert (∃ old, products (database w) !! "demo-1" = Some old) as [old Hsome]
      by (eexists; vm_compute; reflexivity).
    destruct (Hold shirt "demo-1" old eq_refl Hsome) as (w' & Hrun & _ & Hrow & _ & Hsize & _).
    eexists w', _. split; [exact Hrun |]. split; [reflexivity |].
    split; [by rewrite Hrow | rewrite Hsize; vm_compute; reflexivity].
Defined.

(** ** Checking the stock before a sale *)

Lemma find_by_id (rows : list (string * ProductRow)) id :
  find (λ prod, String.eqb (product_id prod) id) ((λ kv, Repo.to_product kv.1 kv.2) <$> rows)
  = Repo.to_product id <$> (list_to_map rows : gmap string ProductRow) !! id.
Proof.
  induction rows as [| [k row] rows IH]; simpl; [by rewrite lookup_empty |].
  destruct (String.eqb_spec k id) as [-> | Hne].
  - by rewrite lookup_insert_eq.
  - by rewrite lookup_insert_ne.
Qed.

Lemma find_listed (t : gmap string ProductRow) id :
  find (λ prod, String.eqb (product_id prod) id)
       ((λ kv, Repo.to_product kv.1 kv.2) <$> map_to_list t)
  = Repo.to_product id <$> t !! id.
Proof. by rewrite find_by_id, list_to_map_to_list. Qed.

Lemma listProducts_run w :
  Repo.listProducts w
  = if fault w (length (requests w))
    then (log_request select_products w, Thrown (BackendError select_products))
    else (log_request select_products w, Returned (listed (database w))).
Proof.
  unfold Repo.listProducts, bind, request, ret.
  destruct (fault w (length (requests w))); [done |]. simpl.
  by destruct w as [[] ? ? ? ? ? ? ?].
Qed.

Lemma problem_spec d line :
  RegisterSale.problem (listed d) line
  = if offending d line then Some (offence d line) else None.
Proof.
  unfold RegisterSale.problem, listed, offending, offence, line_product_id.
  rewrite find_listed.
  by destruct (products d !! product_id (product line)).
Qed.

Lemma problems_spec d cart :
  RegisterSale.problems (listed d) cart
  = offence d <$> filter (λ line, offending d line) cart.
Proof.
  induction cart as [| line cart IH]; [done |].
  simpl. rewrite problem_spec, IH.
  destruct (offending d line) eqn:Hoff.
  - rewrite filter_cons_True; [done |]. by apply Is_true_true.
  - rewrite filter_cons_False; [done |]. by apply Is_true_false.
Qed.

Lemma problems_of_offending d cart line :
  line ∈ cart → offending d line = true →
  (0 <? length (RegisterSale.problems (listed d) cart))%nat = true.
Proof.
  intros Hin Hoff. rewrite problems_spec, length_fmap.
  assert (line ∈ filter (λ line, offending d line) cart) as Hfil
    by (apply list_elem_of_filter; split; [by apply Is_true_true | done]).
  destruct (filter _ cart); [by apply not_elem_of_nil in Hfil | done].
Qed.

Lemma requests_since_same w : requests_since w w = [].
Proof. unfold requests_since. by rewrite drop_all. Qed.

Lemma requests_since_logged w rs w' :
  requests w' = (requests w ++ rs)%list → requests_since w w' = rs.
Proof. intros H. unfold requests_since. by rewrite H, drop_app_length. Qed.

Lemma validation_passed pg :
  validation pg = None →
  ∃ client, selectedClient pg = Some client
            ∧ (length (cart pg) =? 0)%nat = false
            ∧ (discountAmount pg >? subtotal pg) = false.
Proof.
  unfold validation. intros Hv.
  destruct (selectedClient pg) as [client |]; [| done].
  exists client. split; [done |].
  destruct (cart pg); [done |]. split; [done |].
  rewrite Z.gtb_ltb. by destruct (subtotal pg <? discountAmount pg).
Qed.

(** The ticket costs one read, and never throws. *)
Lemma downloadSaleTicket_run w :
  RegisterSale.downloadSaleTicket w
  = (log_request (select_setting "tickets-config") w, Returned tt).
Proof.
  unfold RegisterSale.downloadSaleTicket, try_catch, request, ret.
  destruct (fault w (length (requests w))); simpl; [done | f_equal; by destruct w].
Qed.

(** A sale that passes validation reads the inventory; when the request
    fails the submission throws, and otherwise it goes on with the
    products listed. *)
Lemma sale_validated pg u w :
  user pg = Some u → validation pg = None →
  ∃ client,
    selectedClient pg = Some client
    ∧ RegisterSale.handleSubmit pg w
      = if fault w (length (requests w))
        then (log_request select_products w, Thrown (BackendError select_products))
        else if (0 <? length (RegisterSale.problems (listed (database w)) (cart pg)))%nat
        then (log_request select_products w,
              Returned (RegisterSale.form_error
                          (RegisterSale.stock_message
                             (RegisterSale.problems (listed (database w)) (cart pg)))))
        else (let* created := Repo.createOrder (RegisterSale.to_order pg u client) in
              let* refreshed :=
                try_catch (let* rows := Repo.listProducts in ret (Some rows))
                          (λ _, ret None) in
              RegisterSale.downloadSaleTicket ;;
              ret (RegisterSale.registered created refreshed))
             (log_request select_products w).
Proof.
  intros Hu Hv.
  destruct (validation_passed pg Hv) as (client & Hclient & Hcart & Hdiscount).
  exists client. split; [done |].
  unfold RegisterSale.handleSubmit. rewrite Hu, Hclient, Hcart, Hdiscount.
  unfold bind at 1. rewrite listProducts_run.
  destruct (fault w (length (requests w))); [done |].
  by destruct (0 <? length _)%nat.
Qed.

(** C2.  When a line of the cart asks for more than the stock the database
    holds, or for a product that is gone, submitting the sale changes
    neither the database nor the local storage and sends no request that
    writes; once the form passes its validation and the inventory request
    is answered, the submission ends with the stock message that lists
    every offending line, in the order of the cart. *)
Theorem sale_with_insufficient_stock_persists_nothing pg w :
  (∃ line, line ∈ cart pg ∧ offending (database w) line = true) →
  database (RegisterSale.handleSubmit pg w).1 = database w
  ∧ localStorage (RegisterSale.handleSubmit pg w).1 = localStorage w
  ∧ Forall (λ r, persists r = false) (requests_since w (RegisterSale.handleSubmit pg w).1)
  ∧ (is_Some (user pg) → validation pg = None →
     fault w (length (requests w)) = false →
     (RegisterSale.handleSubmit pg w).2
     = Returned (RegisterSale.form_error
                   (RegisterSale.stock_message
                      (offence (database w)
                         <$> filter (λ line, offending (database w) line) (cart pg))))).
Proof.
  intros (line & Hin & Hoff).
  pose proof (problems_of_offending _ _ _ Hin Hoff) as Hproblems.
  destruct (user pg) as [u |] eqn:Hu.
  - destruct (validation pg) as [message |] eqn:Hv.
    { rewrite (sale_rejected_by_validation pg u message w Hu Hv). simpl.
      rewrite requests_since_same. repeat split; [constructor |]. done. }
    destruct (sale_validated pg u w Hu Hv) as (client & _ & ->).
    rewrite Hproblems.
    destruct (fault w (length (requests w))) eqn:Hf; simpl.
    + rewrite (requests_since_logged w [select_products]) by done.
      repeat split; [by repeat constructor |]. done.
    + rewrite (requests_since_logged w [select_products]) by done.
      repeat split; [by repeat constructor |].
      intros _ _ _. by rewrite problems_spec.
  - unfold RegisterSale.handleSubmit. rewrite Hu. simpl.
    rewrite requests_since_same. repeat split; [constructor |]. by intros [? ?].
Qed.

Lemma sale_with_insufficient_stock_persists_nothing_witness :
  let pg := Sample.page [{| product := Sample.shirt; quantity := 30 |};
                         {| product := Sample.shoes; quantity := 1 |};
                         {| product := Sample.watch; quantity := 1 |}] None in
  let w := Sample.world (Sample.stocked [Sample.shirt; Sample.shoes]) [] in
  database (RegisterSale.handleSubmit pg w).1 = database w
  ∧ (RegisterSale.handleSubmit pg w).2
    = Returned (RegisterSale.form_error
        ("No se puede registrar la venta por stock insuficiente:" +:+ newline
         +:+ "- Camisa Inteligente AIJ (Azul): stock insuficiente (disponible 25, requerido 30)."
         +:+ newline +:+ "- Producto no encontrado: Smartwatch Aurora (Plateado).")).
Proof.
  intros pg w.
  assert (∃ line, line ∈ cart pg ∧ offending (database w) line = true) as Hbad.
  { exists {| product := Sample.shirt; quantity := 30 |}. split; [| vm_compute; reflexivity].
    apply list_elem_of_here. }
  destruct (sale_with_insufficient_stock_persists_nothing pg w Hbad) as (Hdb & _ & _ & Hout).
  split; [exact Hdb |].
  rewrite Hout; [vm_compute; reflexivity | by eexists | vm_compute; reflexivity
                | vm_compute; reflexivity].
Defined.

(** ** [createOrder], step by step *)

Lemma request_run {A} r (run : Database → option (Database * A)) w :
  request r run w
  = if fault w (length (requests w)) then (log_request r w, Thrown (BackendError r))
    else match run (database w) with
         | Some (d, a) => (set_database d (log_request r w), Returned a)
         | None => (log_request r w, Thrown (BackendError r))
         end.
Proof. reflexivity. Qed.

Lemma drawn_draw_uid n w : drawn n (draw_uid w) = drawn (S n) w.
Proof. unfold drawn, draw_uid. simpl. f_equal. lia. Qed.

Lemma drawn_0 w : drawn 0 w = w.
Proof. by destruct w. Qed.

Lemma item_payloads_run orderId items w :
  map_eff (Repo.item_payload orderId) items w
  = (drawn (length items) w,
     Returned (item_rows orderId (uid_source w) (uid_drawn w) items)).
Proof.
  revert w. induction items as [| it items IH]; intros w; simpl.
  - unfold ret. by rewrite drawn_0.
  - unfold bind at 1. unfold Repo.item_payload at 1, bind at 1, uid at 1, ret at 1.
    unfold bind at 1. rewrite IH. unfold ret. simpl. by rewrite drawn_draw_uid.
Qed.

(** The body of the stock loop. *)
Lemma decrement_stock_run it w :
  let id := draft_product_id it in
  let next := Z.max 0 (default 0 (Repo.read_stock id (database w)) - draft_qty it) in
  let w1 := log_request (select_stock id) w in
  Repo.decrement_stock it w
  = if fault w (length (requests w)) then (w1, Thrown (BackendError (select_stock id)))
    else if fault w (S (length (requests w)))
    then (log_request (update_stock id next) (set_database (database w) w1),
          Thrown (BackendError (update_stock id next)))
    else (set_database (Repo.write_stock id next (database w))
            (log_request (update_stock id next) (set_database (database w) w1)),
          Returned tt).
Proof.
  intros id next w1. unfold Repo.decrement_stock, bind. rewrite request_run.
  destruct (fault w (length (requests w))); [done |].
  rewrite request_run. simpl. rewrite length_app, Nat.add_1_r. simpl.
  by destruct (fault w (S (length (requests w)))).
Qed.

Lemma write_stock_products id next d :
  products (Repo.write_stock id next d)
  = match id with
    | Some id => alter (Repo.with_stock next) id (products d)
    | None => products d
    end.
Proof. by destruct id. Qed.

(** What a run of the loop body leaves behind, whatever its outcome. *)
Lemma decrement_stock_effect it w :
  let run := Repo.decrement_stock it w in
  fault run.1 = fault w
  ∧ localStorage run.1 = localStorage w
  ∧ orders (database run.1) = orders (database w)
  ∧ order_items (database run.1) = order_items (database w)
  ∧ match run.2 with
    | Returned _ =>
        products (database run.1) = decrement (products (database w)) it
        ∧ requests run.1
          = (requests w ++ [select_stock (draft_product_id it);
                            update_stock (draft_product_id it)
                              (Z.max 0 (default 0 (Repo.read_stock (draft_product_id it) (database w))
                                        - draft_qty it))])%list
    | Thrown e =>
        products (database run.1) = products (database w)
        ∧ ∃ r, e = BackendError r ∧ last (requests run.1) = Some r
               ∧ (∀ oid ids, r ≠ insert_order_items oid ids)
    end.
Proof.
  intros run. subst run. rewrite decrement_stock_run.
  destruct (fault w (length (requests w))); simpl.
  { repeat split. eexists. split; [done |]. split; [by rewrite last_snoc | done]. }
  destruct (fault w (S (length (requests w)))); simpl.
  { repeat split. eexists. split; [done |]. split; [by rewrite last_snoc | done]. }
  repeat split.
  - by destruct (draft_product_id it).
  - by destruct (draft_product_id it).
  - rewrite write_stock_products. unfold decrement, stock_in, Repo.read_stock.
    by destruct (draft_product_id it).
  - by rewrite <- app_assoc.
Qed.

(** The stock loop: it stops at the first request that fails, having
    decremented the lines before it. *)
Lemma stock_loop_effect items w :
  let run := for_of items Repo.decrement_stock w in
  fault run.1 = fault w
  ∧ localStorage run.1 = localStorage w
  ∧ orders (database run.1) = orders (database w)
  ∧ order_items (database run.1) = order_items (database w)
  ∧ (∃ k, products (database run.1)
          = fold_left decrement (take k items) (products (database w)))
  ∧ match run.2 with
    | Returned _ =>
        products (database run.1) = fold_left decrement items (products (database w))
    | Thrown e =>
        ∃ r, e = BackendError r ∧ last (requests run.1) = Some r
             ∧ (∀ oid ids, r ≠ insert_order_items oid ids)
    end.
Proof.
  revert w. induction items as [| it items IH]; intros w; simpl.
  { repeat split. by exists 0%nat. }
  unfold bind.
  pose proof (decrement_stock_effect it w) as Hbody. simpl in Hbody.
  destruct (Repo.decrement_stock it w) as [w1 [[] | e]]; simpl in *.
  - destruct Hbody as (Hf & Hl & Ho & Hi & Hp & _).
    specialize (IH w1). simpl in IH.
    destruct (for_of items Repo.decrement_stock w1) as [w2 out]; simpl in *.
    destruct IH as (Hf2 & Hl2 & Ho2 & Hi2 & (k & Hk) & Hout).
    rewrite Hp in Hk, Hout.
    repeat split; try congruence.
    by exists (S k).
  - destruct Hbody as (Hf & Hl & Ho & Hi & Hp & Hr).
    repeat split; try done.
    by exists 0%nat.
Qed.

(** [createOrder] as a whole: what it leaves behind for each outcome. *)
Lemma createOrder_effect order w :
  let run := Repo.createOrder order w in
  let oid := uid_source w (uid_drawn w) in
  let lines := match draft_kind order with sale => draft_items order | sales_order => [] end in
  localStorage run.1 = localStorage w
  ∧ fault run.1 = fault w
  ∧ (∃ k, products (database run.1)
          = fold_left decrement (take k lines) (products (database w)))
  ∧ match run.2 with
    | Returned created =>
        products (database run.1) = fold_left decrement lines (products (database w))
        ∧ order_id created = oid
        ∧ orders (database run.1) !! oid
          = Some (Repo.order_payload order (orders_sequence (database w)))
    | Thrown e =>
        ∃ r, e = BackendError r ∧ last (requests run.1) = Some r
             ∧ (∀ oid' ids, r = insert_order_items oid' ids →
                  oid' = oid
                  ∧ orders (database w) !! oid = None
                  ∧ orders (database run.1) !! oid
                    = Some (Repo.order_payload order (orders_sequence (database w)))
                  ∧ products (database run.1) = products (database w)
                  ∧ order_items (database run.1) = order_items (database w)
                  ∧ requests_since w run.1 = [insert_order oid; r])
    end.
Proof.
  intros run oid lines. subst run.
  destruct (Repo.createOrder order w) as [w' out] eqn:Hrun. simpl.
  revert Hrun.
  unfold Repo.createOrder. unfold bind at 1. unfold uid at 1. fold oid.
  unfold bind at 1. rewrite request_run. simpl.
  destruct (fault w (length (requests w))) eqn:Hf; simpl.
  { intros [= <- <-]. simpl. repeat split; [by exists 0%nat |].
    eexists. split; [done |]. split; [by rewrite last_snoc | done]. }
  unfold Repo.insert_order_row.
  destruct (orders (database w) !! oid) as [taken |] eqn:Hnew; simpl.
  { intros [= <- <-]. simpl. repeat split; [by exists 0%nat |].
    eexists. split; [done |]. split; [by rewrite last_snoc | done]. }
  unfold bind at 1. rewrite item_payloads_run. simpl.
  unfold bind at 1. rewrite request_run. simpl.
  rewrite length_app, Nat.add_1_r. simpl.
  set (rows := item_rows oid (uid_source w) (S (uid_drawn w)) (draft_items order)).
  destruct (fault w (S (length (requests w)))) eqn:Hf2; simpl.
  { intros [= <- <-]. simpl. repeat split; [by exists 0%nat |].
    eexists. split; [done |]. split; [by rewrite last_snoc |].
    intros oid' ids [= <- <-]. repeat split.
    - apply lookup_insert_eq.
    - apply requests_since_logged. simpl. by rewrite <- app_assoc. }
  unfold Repo.insert_items. simpl.
  destruct (Repo.insert_item_rows rows (order_items (database w))) as [t |] eqn:Hrows; simpl.
  2: { intros [= <- <-]. simpl. repeat split; [by exists 0%nat |].
       eexists. split; [done |]. split; [by rewrite last_snoc |].
       intros oid' ids [= <- <-]. repeat split.
       - apply lookup_insert_eq.
       - apply requests_since_logged. simpl. by rewrite <- app_assoc. }
  unfold bind at 1. subst lines.
  destruct (draft_kind order).
  - match goal with
    | |- context [for_of ?items Repo.decrement_stock ?w0] =>
        pose proof (stock_loop_effect items w0) as Hloop; simpl in Hloop;
        destruct (for_of items Repo.decrement_stock w0) as [w1 [[] | e]]
    end; simpl in *.
    + destruct Hloop as (Hfl & Hl & Ho & Hi & Hk & Hp).
      unfold ret. intros [= <- <-]. simpl. repeat split; try done.
      rewrite Ho. apply lookup_insert_eq.
    + destruct Hloop as (Hfl & Hl & Ho & Hi & Hk & r & -> & Hlast & Hnot).
      intros [= <- <-]. simpl. repeat split; try done.
      exists r. split; [done |]. split; [done |].
      intros oid' ids ->. by destruct (Hnot oid' ids).
  - unfold ret. intros [= <- <-]. simpl. repeat split; [by exists 0%nat |].
    apply lookup_insert_eq.
Qed.



(** ** The stock after a sale *)

Lemma decrement_other t it id :
  draft_product_id it ≠ Some id → decrement t it !! id = t !! id.
Proof.
  intros Hne. unfold decrement.
  destruct (draft_product_id it) as [other |]; [| done].
  apply lookup_alter_ne. congruence.
Qed.

Lemma decrement_same t it id :
  draft_product_id it = Some id →
  stock_in (decrement t it) id = (λ stock, Z.max 0 (stock - draft_qty it)) <$> stock_in t id.
Proof.
  intros Hid. unfold decrement, stock_in. rewrite Hid, lookup_alter_eq.
  by destruct (t !! id).
Qed.

Lemma decrement_others items t id :
  Forall (λ it, draft_product_id it ≠ Some id) items →
  fold_left decrement items t !! id = t !! id.
Proof.
  revert t. induction items as [| it items IH]; intros t Hall; [done |].
  apply Forall_cons in Hall as [Hit Hall]. simpl.
  by rewrite IH, decrement_other.
Qed.

Lemma other_lines (lines : list CartLine) id :
  id ∉ line_product_id <$> lines →
  Forall (λ it, draft_product_id it ≠ Some id) (RegisterSale.to_item <$> lines).
Proof.
  intros Hnot. apply Forall_fmap, Forall_forall. intros line Hin. simpl.
  intros [= Heq]. apply Hnot. rewrite <- Heq.
  by apply (list_elem_of_fmap_2 line_product_id).
Qed.

Lemma no_problems d cart line :
  RegisterSale.problems (listed d) cart = [] → line ∈ cart →
  ∃ row, products d !! line_product_id line = Some row ∧ quantity line ≤ row_stock row.
Proof.
  rewrite problems_spec. intros Hnil Hin.
  apply fmap_nil_inv in Hnil.
  assert (offending d line = false) as Hok.
  { destruct (offending d line) eqn:Hoff; [| done].
    assert (line ∈ filter (λ line, offending d line) cart) as Hfil
      by (apply list_elem_of_filter; split; [by apply Is_true_true | done]).
    rewrite Hnil in Hfil. by apply not_elem_of_nil in Hfil. }
  unfold offending in Hok.
  destruct (products d !! line_product_id line) as [row |]; [| done].
  exists row. split; [done |]. by apply Z.ltb_ge.
Qed.

(** What a registered sale has gone through. *)
Lemma sale_registered_inv pg w w' created refreshed :
  RegisterSale.handleSubmit pg w
  = (w', Returned (RegisterSale.registered created refreshed)) →
  RegisterSale.problems (listed (database w)) (cart pg) = []
  ∧ products (database w')
    = fold_left decrement (RegisterSale.to_item <$> cart pg) (products (database w)).
Proof.
  intros Hrun.
  destruct (user pg) as [u |] eqn:Hu.
  2: { unfold RegisterSale.handleSubmit in Hrun. by rewrite Hu in Hrun. }
  destruct (validation pg) as [message |] eqn:Hv.
  { by rewrite (sale_rejected_by_validation pg u message w Hu Hv) in Hrun. }
  destruct (sale_validated pg u w Hu Hv) as (client & _ & Heq).
  rewrite Heq in Hrun. clear Heq.
  destruct (fault w (length (requests w))); [done |].
  destruct (RegisterSale.problems (listed (database w)) (cart pg)) as [| text texts] eqn:Hp;
    [| done].
  split; [done |]. simpl in Hrun.
  unfold bind at 1 in Hrun.
  pose proof (createOrder_effect (RegisterSale.to_order pg u client)
                (log_request select_products w)) as Heffect.
  simpl in Heffect.
  destruct (Repo.createOrder _ _) as [w2 [made | e]]; [| done].
  simpl in Heffect. destruct Heffect as (_ & _ & _ & Hproducts & _).
  unfold bind at 1, try_catch, bind in Hrun. rewrite listProducts_run in Hrun.
  destruct (fault w2 (length (requests w2))); unfold ret in Hrun;
    rewrite downloadSaleTicket_run in Hrun;
    injection Hrun as <- _ _; simpl; exact Hproducts.
Qed.

Lemma stock_loop_requests items w w' :
  for_of items Repo.decrement_stock w = (w', Returned tt) →
  requests w' = (requests w ++ stock_requests (products (database w)) items)%list.
Proof.
  revert w. induction items as [| it items IH]; intros w; simpl.
  { unfold ret. intros [= <-]. by rewrite app_nil_r. }
  unfold bind.
  pose proof (decrement_stock_effect it w) as Hbody. simpl in Hbody.
  destruct (Repo.decrement_stock it w) as [w1 [[] | e]]; simpl in *; [| done].
  destruct Hbody as (_ & _ & _ & _ & Hp & Hr).
  intros Hrest. rewrite (IH _ Hrest), Hr, Hp, <- app_assoc. simpl.
  unfold Repo.read_stock, stock_in. by destruct (draft_product_id it).
Qed.

Lemma stock_requests_app t before items :
  stock_requests t (before ++ items)
  = (stock_requests t before ++ stock_requests (fold_left decrement before t) items)%list.
Proof.
  revert t. induction before as [| it before IH]; intros t; simpl; [done |].
  by rewrite IH.
Qed.

(** The requests of a sale that [createOrder] has stored. *)
Lemma createOrder_sale_requests order w w' created :
  draft_kind order = sale →
  Repo.createOrder order w = (w', Returned created) →
  ∃ ids, requests_since w w'
         = (insert_order (order_id created) :: insert_order_items (order_id created) ids
            :: stock_requests (products (database w)) (draft_items order))%list.
Proof.
  intros Hkind. unfold Repo.createOrder. rewrite Hkind.
  unfold bind at 1. unfold uid at 1.
  unfold bind at 1. rewrite request_run. simpl.
  destruct (fault w (length (requests w))) eqn:Hf; simpl; [done |].
  unfold Repo.insert_order_row.
  destruct (orders (database w) !! uid_source w (uid_drawn w)) as [taken |] eqn:Hnew;
    simpl; [done |].
  unfold bind at 1. rewrite item_payloads_run. simpl.
  unfold bind at 1. rewrite request_run. simpl.
  rewrite length_app, Nat.add_1_r. simpl.
  destruct (fault w (S (length (requests w)))) eqn:Hf2; simpl; [done |].
  unfold Repo.insert_items. simpl.
  destruct (Repo.insert_item_rows _ (order_items (database w))) as [t |] eqn:Hrows;
    simpl; [| done].
  unfold bind at 1.
  match goal with
  | |- context [for_of ?items Repo.decrement_stock ?w0] =>
      pose proof (stock_loop_requests items w0) as Hloop;
      destruct (for_of items Repo.decrement_stock w0) as [w1 [[] | e]]
  end; [| done].
  specialize (Hloop w1 eq_refl). simpl in Hloop.
  unfold ret. intros [= <- <-]. simpl. eexists.
  apply requests_since_logged. rewrite Hloop, <- !app_assoc. reflexivity.
Qed.

(** C1.  A sale that [createOrder] has stored.  The table of products is
    the one before the call with the body of the stock loop applied for
    every line of the order in turn.  For every line that names a
    product, [stockBefore] being the stock read back just before the
    decrement of the line (what the lines before it have left), the
    update sent for the line writes [max(0, stockBefore - qty)]; this is
    the stock recorded once the line is done, and the stock recorded
    after the submission when no later line names the product. *)
Theorem sale_leaves_stock_decremented order w w' created :
  draft_kind order = sale →
  Repo.createOrder order w = (w', Returned created) →
  products (database w')
  = fold_left decrement (draft_items order) (products (database w))
  ∧ ∀ before it after id stockBefore,
      draft_items order = (before ++ it :: after)%list →
      draft_product_id it = Some id →
      let read_back := fold_left decrement before (products (database w)) in
      stock_in read_back id = Some stockBefore →
      let next := Z.max 0 (stockBefore - draft_qty it) in
      update_stock (Some id) next ∈ requests_since w w'
      ∧ stock_in (decrement read_back it) id = Some next
      ∧ (Forall (λ later, draft_product_id later ≠ Some id) after →
         stock_of (database w') id = Some next).
Proof.
  intros Hkind Hrun.
  pose proof (createOrder_effect order w) as Heffect. simpl in Heffect.
  rewrite Hrun, Hkind in Heffect. simpl in Heffect.
  destruct Heffect as (_ & _ & _ & Hproducts & _).
  split; [done |].
  intros before it after id stockBefore Hitems Hid read_back Hread next.
  assert (stock_in (decrement read_back it) id = Some next) as Hdone.
  { rewrite (decrement_same _ _ id Hid), Hread. reflexivity. }
  split; [| split; [done |]].
  - destruct (createOrder_sale_requests order w w' created Hkind Hrun) as (ids & ->).
    rewrite Hitems, stock_requests_app. simpl. fold read_back.
    rewrite Hid. simpl. rewrite Hread. simpl. fold next.
    do 2 apply list_elem_of_further. apply elem_of_app. right.
    apply list_elem_of_further, list_elem_of_here.
  - intros Hlater. unfold stock_of.
    rewrite Hproducts, Hitems, fold_left_app. simpl. fold read_back.
    rewrite decrement_others by done. exact Hdone.
Qed.

Lemma sale_leaves_stock_decremented_witness :
  let pg := Sample.page [{| product := Sample.shirt; quantity := 30 |};
                         {| product := Sample.shoes; quantity := 5 |}] None in
  let order := RegisterSale.to_order pg Sample.anahi Sample.maria in
  let w := Sample.world (Sample.stocked [Sample.shirt; Sample.shoes]) [] in
  let run := Repo.createOrder order w in
  stock_of (database w) "demo-1" = Some 25
  ∧ stock_of (database run.1) "demo-1" = Some 0
  ∧ update_stock (Some "demo-1") 0 ∈ requests run.1
  ∧ stock_of (database w) "demo-2" = Some 12
  ∧ stock_of (database run.1) "demo-2" = Some 7.
Proof.
  intros pg order w run.
  assert (draft_kind order = sale) as Hkind by reflexivity.
  assert (∃ created, run = (run.1, Returned created)) as [created Hrun].
  { eexists. vm_compute. reflexivity. }
  destruct (sale_leaves_stock_decremented order w run.1 created Hkind Hrun) as [_ Hlines].
  assert (stock_of (database w) "demo-1" = Some 25) as Hshirt by (vm_compute; reflexivity).
  assert (stock_of (database w) "demo-2" = Some 12) as Hshoes by (vm_compute; reflexivity).
  destruct (Hlines [] (RegisterSale.to_item {| product := Sample.shirt; quantity := 30 |})
              [RegisterSale.to_item {| product := Sample.shoes; quantity := 5 |}]
              "demo-1" 25 eq_refl eq_refl Hshirt) as (Hsent & _ & Hafter).
  destruct (Hlines [RegisterSale.to_item {| product := Sample.shirt; quantity := 30 |}]
              (RegisterSale.to_item {| product := Sample.shoes; quantity := 5 |}) []
              "demo-2" 12 eq_refl eq_refl) as (_ & _ & Hafter2).
  { vm_compute. reflexivity. }
  split; [exact Hshirt |].
  split; [apply Hafter; repeat constructor; by intros [=] |].
  split; [exact Hsent |].
  split; [exact Hshoes |].
  apply Hafter2. constructor.
Defined.

(** ** Stock is never negative *)

Lemma keeps_ret {A} (a : A) : keeps_stock (ret a).
Proof. by intros w. Qed.

Lemma keeps_uid : keeps_stock uid.
Proof. by intros w. Qed.

Lemma keeps_bind {A B} (m : Eff A) (k : A → Eff B) :
  keeps_stock m → (∀ a, keeps_stock (k a)) → keeps_stock (bind m k).
Proof.
  intros Hm Hk w Hw. unfold bind. specialize (Hm w Hw).
  destruct (m w) as [w1 [a | e]]; simpl in *; [by apply Hk | done].
Qed.

Lemma keeps_try_catch {A} (m : Eff A) h :
  keeps_stock m → (∀ e, keeps_stock (h e)) → keeps_stock (try_catch m h).
Proof.
  intros Hm Hh w Hw. unfold try_catch. specialize (Hm w Hw).
  destruct (m w) as [w1 [a | e]]; simpl in *; [done | by apply Hh].
Qed.

Lemma keeps_for_of {A} (body : A → Eff unit) xs :
  Forall (λ x, keeps_stock (body x)) xs → keeps_stock (for_of xs body).
Proof.
  induction 1 as [| x xs Hx _ IH]; simpl; [apply keeps_ret |].
  by apply keeps_bind.
Qed.

Lemma keeps_request {A} r (run : Database → option (Database * A)) :
  (∀ d d' a, run d = Some (d', a) → stock_nonnegative d → stock_nonnegative d') →
  keeps_stock (request r run).
Proof.
  intros Hrun w Hw. rewrite request_run.
  destruct (fault w (length (requests w))); [done |].
  destruct (run (database w)) as [[d a] |] eqn:Hd; simpl; [| done].
  by apply (Hrun _ _ _ Hd).
Qed.

Lemma keeps_listProducts : keeps_stock Repo.listProducts.
Proof.
  apply keeps_bind; [| intros; apply keeps_ret].
  apply keeps_request. by intros d d' a [= <- _].
Qed.

Lemma keeps_upsertProduct p : 0 ≤ Repo.input_stock p → keeps_stock (Repo.upsertProduct p).
Proof.
  intros Hstock. unfold Repo.upsertProduct.
  apply keeps_bind; [destruct (Repo.input_id p); [apply keeps_ret | apply keeps_uid] |].
  intros id. apply keeps_bind; [| intros; apply keeps_ret].
  apply keeps_request. intros d d' a [= <- _] Hd other row. simpl.
  destruct (decide (id = other)) as [-> | Hne].
  - rewrite lookup_insert_eq. by intros [= <-].
  - rewrite lookup_insert_ne by done. apply Hd.
Qed.

Lemma keeps_deleteProduct id : keeps_stock (Repo.deleteProduct id).
Proof.
  apply keeps_request. intros d d' a [= <- _] Hd other row. simpl.
  intros Hrow. apply lookup_delete_Some in Hrow as [_ Hrow]. by apply (Hd other).
Qed.

Lemma decrement_nonnegative t it :
  (∀ id row, t !! id = Some row → 0 ≤ row_stock row) →
  ∀ id row, decrement t it !! id = Some row → 0 ≤ row_stock row.
Proof.
  intros Ht id row. unfold decrement.
  destruct (draft_product_id it) as [target |]; [| apply Ht].
  destruct (decide (target = id)) as [-> | Hne].
  - rewrite lookup_alter_eq.
    destruct (t !! id) as [old |]; simpl; [| done].
    intros [= <-]. simpl. lia.
  - rewrite lookup_alter_ne by done. apply Ht.
Qed.

Lemma decrements_nonnegative items t :
  (∀ id row, t !! id = Some row → 0 ≤ row_stock row) →
  ∀ id row, fold_left decrement items t !! id = Some row → 0 ≤ row_stock row.
Proof.
  revert t. induction items as [| it items IH]; intros t Ht; [done |].
  simpl. apply IH. by apply decrement_nonnegative.
Qed.

Lemma keeps_createOrder order : keeps_stock (Repo.createOrder order).
Proof.
  intros w Hw.
  destruct (createOrder_effect order w) as (_ & _ & (k & Hk) & _).
  unfold stock_nonnegative. rewrite Hk. by apply decrements_nonnegative.
Qed.

Lemma keeps_downloadSaleTicket : keeps_stock RegisterSale.downloadSaleTicket.
Proof. intros w Hw. by rewrite downloadSaleTicket_run. Qed.

Create HintDb keeps.
#[local] Hint Resolve keeps_ret keeps_uid keeps_listProducts keeps_deleteProduct
  keeps_createOrder keeps_upsertProduct keeps_downloadSaleTicket : keeps.

(** Takes a page handler apart along its [bind]s and [try]s, down to
    the repository calls. *)
Ltac keep_stock :=
  repeat first
    [ apply keeps_ret
    | apply keeps_listProducts
    | apply keeps_createOrder
    | apply keeps_deleteProduct
    | apply keeps_downloadSaleTicket
    | apply keeps_try_catch; [| intros ?]
    | apply keeps_bind; [| intros ?] ];
  eauto with keeps.

Lemma keeps_sale pg : keeps_stock (RegisterSale.handleSubmit pg).
Proof.
  unfold RegisterSale.handleSubmit.
  destruct (user pg); [| keep_stock].
  destruct (selectedClient pg); [| keep_stock].
  destruct (length (cart pg) =? 0)%nat; [keep_stock |].
  destruct (discountAmount pg >? subtotal pg); [keep_stock |].
  apply keeps_bind; [keep_stock |]. intros currentInventory.
  destruct (0 <? length _)%nat; keep_stock.
Qed.

Lemma keeps_product_form formState editingProduct :
  keeps_stock (Inventory.handleSubmit formState editingProduct).
Proof.
  unfold Inventory.handleSubmit.
  destruct (negb _ || negb _); [keep_stock |].
  destruct (Js.parseInt (Inventory.form_stock formState)) as [stockValue |]; [| keep_stock].
  destruct (Z.ltb_spec stockValue 0) as [Hneg | Hstock]; [keep_stock |].
  destruct (Inventory.form_cost formState) as [costValue |]; [| keep_stock].
  destruct (Inventory.form_salePrice formState) as [salePriceValue |]; [| keep_stock].
  destruct (salePriceValue <? costValue); [keep_stock |].
  destruct editingProduct as [editing |].
  all: apply keeps_try_catch; [| keep_stock].
  all: apply keeps_bind; [by apply keeps_upsertProduct | keep_stock].
Qed.

Lemma imported_stock row p : Inventory.imported row = Some p → 0 ≤ Repo.input_stock p.
Proof.
  unfold Inventory.imported.
  destruct (negb _ || negb _); [done |].
  destruct (Js.parseInt (Inventory.import_stock row)) as [stockValue |]; [| done].
  destruct (Z.ltb_spec stockValue 0) as [Hneg | Hstock]; [done |].
  destruct (Inventory.import_cost row); [| done].
  destruct (Inventory.import_salePrice row); [| done].
  destruct (_ <? _); [done |].
  by intros [= <-].
Qed.

Lemma keeps_import rows : keeps_stock (Inventory.handleImportFile rows).
Proof.
  unfold Inventory.handleImportFile.
  apply keeps_try_catch; [| keep_stock].
  apply keeps_for_of, Forall_forall. intros p Hin.
  apply list_elem_of_omap in Hin as (row & _ & Hrow).
  apply keeps_bind; [| keep_stock].
  apply keeps_upsertProduct. by apply (imported_stock row).
Qed.

Lemma keeps_step w w' : step w w' → stock_nonnegative (database w) → stock_nonnegative (database w').
Proof.
  destruct 1 as [formState editingProduct w | rows w | productId w | listed w | pg w].
  - apply keeps_product_form.
  - apply keeps_import.
  - unfold Inventory.handleDeleteProduct. keep_stock.
  - apply keeps_try_catch; [| keep_stock].
    apply keeps_for_of, Forall_forall. intros p _. keep_stock.
  - apply keeps_sale.
Qed.

(** The product form refuses a stock that is no number or is negative,
    without any request. *)
Lemma product_form_rejects_negative_stock formState editingProduct w :
  match Js.parseInt (Inventory.form_stock formState) with
  | Some stockValue => stockValue < 0
  | None => True
  end →
  ∃ message,
    Inventory.handleSubmit formState editingProduct w
    = (w, Returned (Inventory.form_error message))
    ∧ message ∈ [Inventory.MSG_REQUIRED; Inventory.MSG_STOCK].
Proof.
  intros Hstock. unfold Inventory.handleSubmit.
  destruct (negb _ || negb _); [exists Inventory.MSG_REQUIRED; split; [done | set_solver] |].
  exists Inventory.MSG_STOCK. split; [| set_solver].
  destruct (Js.parseInt (Inventory.form_stock formState)) as [stockValue |]; [| done].
  apply Z.ltb_lt in Hstock. by rewrite Hstock.
Qed.

(** C7.  The product form refuses a negative stock; a stock decrement
    writes the larger of 0 and the difference; and in every world reached
    from an empty inventory by the operations of the pages, whether they
    end normally or fail half way, every product has a stock of at least
    0. *)
Theorem stock_is_never_negative :
  (∀ formState editingProduct w stockValue,
     Js.parseInt (Inventory.form_stock formState) = Some stockValue → stockValue < 0 →
     ∃ message, Inventory.handleSubmit formState editingProduct w
                = (w, Returned (Inventory.form_error message)))
  ∧ (∀ t it id row, decrement t it !! id = Some row →
                    draft_product_id it = Some id → 0 ≤ row_stock row)
  ∧ (∀ w, reachable w → stock_nonnegative (database w)).
Proof.
  repeat split.
  - intros formState editingProduct w stockValue Hparse Hneg.
    destruct (product_form_rejects_negative_stock formState editingProduct w)
      as (message & Hrun & _); [by rewrite Hparse | by exists message].
  - intros t it id row Hrow Hid. unfold decrement in Hrow. rewrite Hid in Hrow.
    rewrite lookup_alter_eq in Hrow.
    destruct (t !! id) as [old |]; simpl in Hrow; [| done].
    injection Hrow as <-. simpl. lia.
  - induction 1 as [w Hempty | w w' _ IH Hstep].
    + intros id row. by rewrite Hempty, lookup_empty.
    + by apply (keeps_step w w').
Qed.

Lemma stock_is_never_negative_witness :
  let w0 := Sample.world (Sample.stocked []) [] in
  let form := {| Inventory.form_name := "Camisa"; Inventory.form_color := "Azul";
                 Inventory.form_stock := " 3"; Inventory.form_cost := Some 120;
                 Inventory.form_salePrice := Some 210; Inventory.form_imageFile := None;
                 Inventory.form_imagePreview := None |} in
  let w1 := (Inventory.handleSubmit form None w0).1 in
  let shirt := {| product_id := "uid-0"; product_name := "Camisa"; product_color := "Azul";
                  product_stock := 3; product_cost := 120; product_salePrice := 210;
                  product_image := None |} in
  let w2 := (RegisterSale.handleSubmit
               (Sample.page [{| product := shirt; quantity := 2 |}] None) w1).1 in
  stock_of (database w1) "uid-0" = Some 3
  ∧ stock_of (database w2) "uid-0" = Some 1
  ∧ stock_nonnegative (database w2).
Proof.
  intros w0 form w1 shirt w2.
  split; [vm_compute; reflexivity |]. split; [vm_compute; reflexivity |].
  destruct stock_is_never_negative as (_ & _ & Hreach).
  apply Hreach.
  apply (reachable_step w1 w2); [| apply step_sale].
  apply (reachable_step w0 w1); [| apply step_product_form].
  apply reachable_start. reflexivity.
Defined.

(* ===================================================================== *)
(** * Further properties of the code *)
(* ===================================================================== *)

(** ** Blank strings and separators *)

Lemma without_trimStart drop s :
  (∀ c, Js.is_white c = true → drop c = true) →
  Text.without drop (Js.trimStart s) = Text.without drop s.
Proof.
  intros Hdrop. induction s as [| c s IH]; [done |]. simpl.
  destruct (Js.is_white c) eqn:Hc; [| done].
  by rewrite (Hdrop c Hc).
Qed.

Lemma without_trimEnd drop s :
  (∀ c, Js.is_white c = true → drop c = true) →
  Text.without drop (Js.trimEnd s) = Text.without drop s.
Proof.
  intros Hdrop. induction s as [| c s IH]; [done |]. simpl.
  destruct (Js.trimEnd s) as [| c' t] eqn:Hend.
  - simpl in IH. rewrite <- IH.
    destruct (Js.is_white c) eqn:Hc; simpl; [by rewrite (Hdrop c Hc) | done].
  - simpl. simpl in IH. by rewrite IH.
Qed.

Lemma without_trim drop s :
  (∀ c, Js.is_white c = true → drop c = true) →
  Text.without drop (Js.trim s) = Text.without drop s.
Proof. intros Hdrop. unfold Js.trim. by rewrite without_trimEnd, without_trimStart. Qed.

Lemma truthy_trimEnd s :
  Js.truthy (Js.trimEnd s) = Js.truthy (Text.without Js.is_white s).
Proof.
  induction s as [| c s IH]; [done |]. simpl.
  destruct (Js.trimEnd s) as [| c' t]; simpl in *.
  - destruct (Text.without Js.is_white s); [| done].
    by destruct (Js.is_white c).
  - destruct (Text.without Js.is_white s); [done |].
    by destruct (Js.is_white c).
Qed.

(** A string is blank for [trim] exactly when nothing is left of it
    without its white space. *)
Lemma truthy_trim s :
  Js.truthy (Js.trim s) = Js.truthy (Text.without Js.is_white s).
Proof. unfold Js.trim. by rewrite truthy_trimEnd, without_trimStart. Qed.

Lemma truthy_length s : Js.truthy s = (0 <? String.length s)%nat.
Proof. by destruct s. Qed.

Lemma separator_of_white c : Js.is_white c = true → Text.phone_separator c = true.
Proof. unfold Text.phone_separator. by intros ->. Qed.

Lemma without_nothing drop s :
  (∀ c, c ∈ list_ascii_of_string s → drop c = false) → Text.without drop s = s.
Proof.
  induction s as [| c s IH]; [done |]. intros Hkeep. simpl.
  rewrite (Hkeep c) by (simpl; apply list_elem_of_here).
  rewrite IH; [done |]. intros c' Hin. apply Hkeep. simpl. by apply list_elem_of_further.
Qed.

Lemma trim_trim s : Js.trim (Js.trim s) = Js.trim s.
Proof.
  assert (∀ t, Js.trimEnd (Js.trimEnd t) = Js.trimEnd t) as Hend.
  { induction t as [| c t IH]; [done |]. simpl.
    destruct (Js.trimEnd t) as [| c' t'] eqn:Ht.
    - destruct (Js.is_white c) eqn:Hc; simpl; [done | by rewrite Hc].
    - simpl. simpl in IH. by rewrite IH. }
  assert (∀ t, Js.trimStart (Js.trimEnd (Js.trimStart t)) = Js.trimEnd (Js.trimStart t))
    as Hstart.
  { induction t as [| c t IH]; [done |]. simpl.
    destruct (Js.is_white c) eqn:Hc; [done |]. simpl.
    destruct (Js.trimEnd t); rewrite ?Hc; simpl; by rewrite Hc. }
  unfold Js.trim. by rewrite Hstart, Hend.
Qed.

(** ** The phone rule *)

Lemma isValidPhone_rule value :
  Validators.isValidPhone value = true
  ↔ (7 ≤ String.length (Text.without Text.phone_separator value) ≤ 15)%nat.
Proof.
  unfold Validators.isValidPhone.
  rewrite (without_trim _ value separator_of_white).
  destruct (Js.truthy (Js.trim value)) eqn:Hblank; cbn [negb].
  - rewrite andb_true_iff, !Nat.leb_le. tauto.
  - split; [done |]. intros [Hlow _].
    assert (Text.without Text.phone_separator (Js.trim value) = "") as Hnone.
    { by destruct (Js.trim value). }
    rewrite (without_trim _ value separator_of_white) in Hnone.
    rewrite Hnone in Hlow. simpl in Hlow. lia.
Qed.

(** X1.  For a value in the ASCII range, where the characters that
    [length] counts are those of the text and the white space is the one
    [trim] and [\s] take: [isValidPhone] accepts the value exactly when
    between 7 and 15 characters are left of it once white space, [+] and
    [-] are taken out; what the characters left are is not looked at. *)
Theorem phone_valid_by_length value :
  Js.ascii_text value = true →
  (Validators.isValidPhone value = true
   ↔ (7 ≤ String.length (Text.without Text.phone_separator value) ≤ 15)%nat)
  ∧ ((∀ c, c ∈ list_ascii_of_string value → Text.phone_separator c = false) →
     Validators.isValidPhone value = bool_decide (7 ≤ String.length value ≤ 15)%nat).
Proof.
  intros _. pose proof (isValidPhone_rule value) as Hrule.
  split; [done |].
  intros Hplain. rewrite (without_nothing _ _ Hplain) in Hrule.
  case_bool_decide as Hlen.
  - by apply Hrule.
  - destruct (Validators.isValidPhone value); [| done]. exfalso. by apply Hlen, Hrule.
Qed.

(** X2.  The quick-client form of the sale page applies the rules of the
    clients page: it is accepted exactly when name, document and address
    are not blank and the phone passes [isValidPhone]. *)
Theorem quick_client_validation_agrees form :
  QuickClient.validateQuickClient form = None
  ↔ Js.truthy (Js.trim (QuickClient.quick_name form)) = true
    ∧ Js.truthy (Js.trim (QuickClient.quick_documentId form)) = true
    ∧ Js.truthy (Js.trim (QuickClient.quick_address form)) = true
    ∧ Validators.isValidPhone (QuickClient.quick_phone form) = true.
Proof.
  rewrite (isValidPhone_rule (QuickClient.quick_phone form)).
  unfold QuickClient.validateQuickClient.
  destruct (Js.truthy (Js.trim (QuickClient.quick_name form)));
    destruct (Js.truthy (Js.trim (QuickClient.quick_documentId form)));
    destruct (Js.truthy (Js.trim (QuickClient.quick_address form))); simpl;
    try (split; [done | by intros (? & ? & ? & ?)]).
  destruct (Nat.ltb_spec (String.length (Text.without Text.phone_separator
                                           (QuickClient.quick_phone form))) 7);
    destruct (Nat.ltb_spec 15 (String.length (Text.without Text.phone_separator
                                                (QuickClient.quick_phone form))));
    simpl; split; try done; try lia; intros (_ & _ & _ & ?); lia.
Qed.

Lemma phone_valid_by_length_witness :
  Validators.isValidPhone "+591 765-43210" = true
  ∧ Validators.isValidPhone "abcdefg" = true
  ∧ Validators.isValidPhone "765-432" = false.
Proof.
  split; [| split].
  - apply (proj1 (phone_valid_by_length "+591 765-43210" eq_refl)). vm_compute. lia.
  - rewrite (proj2 (phone_valid_by_length "abcdefg" eq_refl)); [reflexivity |].
    intros c Hin. vm_compute in Hin.
    repeat (apply elem_of_cons in Hin as [-> | Hin]; [reflexivity |]).
    by apply not_elem_of_nil in Hin.
  - destruct (Validators.isValidPhone "765-432") eqn:Hvalid; [| reflexivity].
    apply (proj1 (phone_valid_by_length "765-432" eq_refl)) in Hvalid.
    vm_compute in Hvalid. lia.
Defined.

(** ** Saving clients *)

(** [upsertClient] sends one request; a failure of it leaves the database
    as it was, and otherwise the row is in the table under the identifier
    and comes back as the client. *)
Lemma upsertClient_effect c w :
  let id := upsert_id (Repo.cinput_id c) w in
  let run := Repo.upsertClient c w in
  requests run.1 = (requests w ++ [upsert_client id])%list
  ∧ localStorage run.1 = localStorage w
  ∧ products (database run.1) = products (database w)
  ∧ if fault w (length (requests w))
    then run.2 = Thrown (BackendError (upsert_client id)) ∧ database run.1 = database w
    else run.2 = Returned (Repo.to_client id (client_row c))
         ∧ clients (database run.1) = <[id := client_row c]> (clients (database w)).
Proof.
  intros id run. subst id run. unfold upsert_id, Repo.upsertClient, bind, uid, ret.
  destruct (Repo.cinput_id c) as [given |]; simpl; rewrite request_run; simpl;
    destruct (fault w (length (requests w))); simpl; by repeat split.
Qed.

(** X3.  The quick client of the sale page: a form that fails validation
    sends nothing and shows the validation message; a valid one sends a
    single upsert under a new [uid()], with the fields trimmed; when that
    request fails the failure is shown as a message, never thrown, and
    the database is as it was. *)
Theorem quick_client_saved_or_refused quickClient w :
  let run := QuickClient.handleAddQuickClient quickClient w in
  let id := uid_source w (uid_drawn w) in
  let input :=
    {| Repo.cinput_id := None;
       Repo.cinput_name := Js.trim (QuickClient.quick_name quickClient);
       Repo.cinput_documentId := Js.trim (QuickClient.quick_documentId quickClient);
       Repo.cinput_phone := Js.trim (QuickClient.quick_phone quickClient);
       Repo.cinput_address := Js.trim (QuickClient.quick_address quickClient) |} in
  match QuickClient.validateQuickClient quickClient with
  | Some message => run = (w, Returned (QuickClient.quick_error message))
  | None =>
      requests run.1 = (requests w ++ [upsert_client id])%list
      ∧ products (database run.1) = products (database w)
      ∧ if fault w (length (requests w))
        then run.2 = Returned (QuickClient.quick_error QuickClient.MSG_NOT_SAVED)
             ∧ database run.1 = database w
        else run.2 = Returned (QuickClient.quick_selected (Repo.to_client id (client_row input)))
             ∧ clients (database run.1) = <[id := client_row input]> (clients (database w))
  end.
Proof.
  intros run id input. subst run. unfold QuickClient.handleAddQuickClient.
  destruct (QuickClient.validateQuickClient quickClient) as [message |]; [done |].
  fold input.
  pose proof (upsertClient_effect input w) as Hup. simpl in Hup.
  unfold try_catch, bind.
  destruct (Repo.upsertClient input w) as [w1 out]. simpl in Hup.
  destruct Hup as (Hreq & _ & Hproducts & Hout).
  destruct (fault w (length (requests w))).
  - destruct Hout as [-> Hdb]. by simpl.
  - destruct Hout as [-> Hrow]. by simpl.
Qed.

Lemma trimmed_phone_valid phone :
  Validators.isValidPhone (Js.trim phone) = Validators.isValidPhone phone.
Proof. unfold Validators.isValidPhone. by rewrite trim_trim. Qed.

(** X4.  A client the form of the clients page has saved has a name, a
    document and an address that are trimmed and not empty and a phone
    that passes [isValidPhone]; it is stored under the identifier of the
    client edited, or under a new [uid()], and no other row of the table
    has changed. *)
Theorem client_form_saves_valid_clients formState editingClient w w' c :
  Clients.handleSubmit formState editingClient w = (w', Returned (Clients.saved c)) →
  let id := upsert_id (client_id <$> editingClient) w in
  c = {| client_id := id;
         client_name := Js.trim (Clients.form_name formState);
         client_documentId := Js.trim (Clients.form_documentId formState);
         client_phone := Js.trim (Clients.form_phone formState);
         client_address := Js.trim (Clients.form_address formState) |}
  ∧ Js.truthy (client_name c) = true
  ∧ Js.truthy (client_documentId c) = true
  ∧ Js.truthy (client_address c) = true
  ∧ Validators.isValidPhone (client_phone c) = true
  ∧ Repo.to_client id <$> clients (database w') !! id = Some c
  ∧ (∀ other, other ≠ id → clients (database w') !! other = clients (database w) !! other)
  ∧ requests w' = (requests w ++ [upsert_client id])%list.
Proof.
  intros Hrun id. unfold Clients.handleSubmit in Hrun.
  destruct (Js.truthy (Js.trim (Clients.form_name formState))) eqn:Hname; [| done].
  destruct (Js.truthy (Js.trim (Clients.form_documentId formState))) eqn:Hdoc; [| done].
  destruct (Js.truthy (Js.trim (Clients.form_address formState))) eqn:Haddress; [| done].
  simpl in Hrun.
  destruct (Validators.isValidPhone (Clients.form_phone formState)) eqn:Hphone; [| done].
  simpl in Hrun.
  set (input given :=
         {| Repo.cinput_id := given;
            Repo.cinput_name := Js.trim (Clients.form_name formState);
            Repo.cinput_documentId := Js.trim (Clients.form_documentId formState);
            Repo.cinput_phone := Js.trim (Clients.form_phone formState);
            Repo.cinput_address := Js.trim (Clients.form_address formState) |}) in *.
  assert (∃ given, upsert_id given w = id
                   ∧ try_catch (let* c := Repo.upsertClient (input given) in ret (Clients.saved c))
                       (λ _, ret (Clients.form_error Clients.MSG_NOT_SAVED)) w
                     = (w', Returned (Clients.saved c))) as (given & Hid & Hsaved).
  { destruct editingClient as [editing |]; eexists; (split; [| exact Hrun]); done. }
  clear Hrun. unfold try_catch, bind in Hsaved.
  pose proof (upsertClient_effect (input given) w) as Hup. simpl in Hup. rewrite Hid in Hup.
  destruct (Repo.upsertClient (input given) w) as [w1 out]. simpl in Hup.
  destruct Hup as (Hreq & _ & _ & Hout).
  destruct (fault w (length (requests w))).
  { destruct Hout as [-> _]. by unfold ret in Hsaved. }
  destruct Hout as [-> Hrows]. unfold ret in Hsaved. injection Hsaved as <- <-.
  split; [done |]. simpl. rewrite Hname, Hdoc, Haddress, trimmed_phone_valid, Hphone.
  repeat split; try done.
  - by rewrite Hrows, lookup_insert_eq.
  - intros other Hother. by rewrite Hrows, lookup_insert_ne.
Qed.

Lemma client_form_saves_valid_clients_witness :
  let form := {| Clients.form_name := " María Fernanda López ";
                 Clients.form_documentId := "7896543 LP";
                 Clients.form_phone := "+591 765-43210 ";
                 Clients.form_address := "Av. Busch #234, La Paz" |} in
  let w := Sample.world (Sample.stocked []) [] in
  let run := Clients.handleSubmit form None w in
  ∃ c, run.2 = Returned (Clients.saved c)
       ∧ client_id c = "uid-0" ∧ client_name c = "María Fernanda López"
       ∧ client_phone c = "+591 765-43210"
       ∧ size (clients (database run.1)) = 1%nat.
Proof.
  intros form w run.
  assert (∃ c, run = (run.1, Returned (Clients.saved c))) as [c Hrun].
  { eexists. vm_compute. reflexivity. }
  pose proof (client_form_saves_valid_clients form None w run.1 c Hrun) as Hsaved.
  cbv zeta in Hsaved. destruct Hsaved as (Hc & _ & _ & _ & _ & _ & _ & _).
  exists c. split; [by rewrite Hrun at 1 |].
  rewrite Hc. repeat split; vm_compute; reflexivity.
Defined.

(** ** Searching by a term *)

Lemma lower_ascii_lower c : Js.lower_ascii (Js.lower_ascii c) = Js.lower_ascii c.
Proof. destruct c as [[] [] [] [] [] [] [] []]; reflexivity. Qed.

Lemma is_white_lower c : Js.is_white (Js.lower_ascii c) = Js.is_white c.
Proof. destruct c as [[] [] [] [] [] [] [] []]; reflexivity. Qed.

Lemma toLowerCase_lower s : Js.toLowerCase (Js.toLowerCase s) = Js.toLowerCase s.
Proof. induction s as [| c s IH]; [done |]. simpl. by rewrite lower_ascii_lower, IH. Qed.

Lemma truthy_lower s : Js.truthy (Js.toLowerCase s) = Js.truthy s.
Proof. by destruct s. Qed.

Lemma without_white_lower s :
  Text.without Js.is_white (Js.toLowerCase s) = Js.toLowerCase (Text.without Js.is_white s).
Proof.
  induction s as [| c s IH]; [done |]. simpl. rewrite is_white_lower.
  destruct (Js.is_white c); simpl; by rewrite IH.
Qed.

(** Whether a term is blank does not depend on its case. *)
Lemma blank_lower s : Js.truthy (Js.trim (Js.toLowerCase s)) = Js.truthy (Js.trim s).
Proof. by rewrite !truthy_trim, without_white_lower, truthy_lower. Qed.

Lemma prefix_lower a b :
  String.prefix a b = true → String.prefix (Js.toLowerCase a) (Js.toLowerCase b) = true.
Proof.
  revert a. induction b as [| c' b IH]; intros [| c a]; simpl; try done.
  destruct (ascii_dec c c') as [-> | Hne]; [| done].
  intros Hrest. destruct (ascii_dec (Js.lower_ascii c') (Js.lower_ascii c')); [| done].
  by apply IH.
Qed.

Lemma includes_lower s sub :
  Text.includes s sub = true → Text.includes (Js.toLowerCase s) (Js.toLowerCase sub) = true.
Proof.
  induction s as [| c s IH]; simpl.
  - rewrite !orb_false_r. apply (prefix_lower sub "").
  - rewrite !orb_true_iff. intros [Hhere | Hlater].
    + left. by apply (prefix_lower sub (String c s)).
    + right. by apply IH.
Qed.

Lemma filter_twice {A} (P : A → Prop) `{!∀ x, Decision (P x)} (l : list A) :
  filter P (filter P l) = filter P l.
Proof.
  induction l as [| x l IH]; [done |].
  destruct (decide (P x)) as [Hx | Hx].
  - rewrite (filter_cons_True P x l Hx), (filter_cons_True P x _ Hx). by rewrite IH.
  - by rewrite (filter_cons_False P x l Hx).
Qed.

(** What the two searches have in common. *)
Lemma search_by_term {A} (test : string → A → bool) (l : list A) :
  let search term :=
    if negb (Js.truthy (Js.trim term)) then l
    else filter (λ x, test (Js.toLowerCase term) x) l in
  (∀ term, search term `sublist_of` l)
  ∧ (∀ term, (∀ c, c ∈ list_ascii_of_string term → Js.is_white c = true) → search term = l)
  ∧ (∀ term other, Js.toLowerCase term = Js.toLowerCase other → search term = search other).
Proof.
  intros search. subst search. repeat split.
  - intros term. destruct (negb _); [done | apply sublist_filter].
  - intros term Hwhite.
    assert (Text.without Js.is_white term = "") as Hnone.
    { induction term as [| c term IH]; [done |]. simpl.
      rewrite (Hwhite c) by (simpl; apply list_elem_of_here).
      apply IH. intros c' Hin. apply Hwhite. simpl. by apply list_elem_of_further. }
    by rewrite truthy_trim, Hnone.
  - intros term other Hsame.
    by rewrite <- (blank_lower term), <- (blank_lower other), Hsame.
Qed.

(** X5.  The product search of the sale page returns the products in
    their order, all of them for a term of white space only; searching
    the result again for the same term changes nothing.  For terms,
    names and colours in the ASCII range, where [toLowerCase] is what
    this development says: the search does not depend on the case of the
    letters of the term, and a product whose name or colour contains the
    term as typed is among the results. *)
Theorem product_search products :
  (∀ term, Search.filterProductsByTerm products term `sublist_of` products)
  ∧ (∀ term, (∀ c, c ∈ list_ascii_of_string term → Js.is_white c = true) →
             Search.filterProductsByTerm products term = products)
  ∧ (∀ term other,
       Js.ascii_text term = true → Js.ascii_text other = true →
       same_ignoring_case term other →
       Search.filterProductsByTerm products term = Search.filterProductsByTerm products other)
  ∧ (∀ term, Search.filterProductsByTerm (Search.filterProductsByTerm products term) term
             = Search.filterProductsByTerm products term)
  ∧ (∀ term p,
       Js.ascii_text term = true →
       Js.ascii_text (product_name p) = true → Js.ascii_text (product_color p) = true →
       p ∈ products →
       Text.includes (product_name p) term || Text.includes (product_color p) term = true →
       p ∈ Search.filterProductsByTerm products term).
Proof.
  destruct (search_by_term
              (λ lowered p, Text.includes (Js.toLowerCase (product_name p)) lowered
                            || Text.includes (Js.toLowerCase (product_color p)) lowered)
              products) as (Hsub & Hblank & Hcase).
  split; [exact Hsub |]. split; [exact Hblank |]. split.
  { intros term other _ _ Hsame%toLowerCase_same. by apply Hcase. }
  split.
  - intros term. unfold Search.filterProductsByTerm.
    destruct (negb _); [done | apply filter_twice].
  - intros term p _ _ _ Hin Hfound. unfold Search.filterProductsByTerm.
    destruct (negb _); [done |].
    apply list_elem_of_filter. split; [| done].
    apply Is_true_true. apply orb_true_iff in Hfound as [Hname | Hcolor].
    + by rewrite (includes_lower _ _ Hname).
    + by rewrite (includes_lower _ _ Hcolor), orb_true_r.
Qed.

(** X6.  The client search of the sale page, over name, document, phone
    and address: the clients in their order, all of them for a term of
    white space only, unchanged by a second search.  For terms and
    fields in the ASCII range, where [toLowerCase] is what this
    development says: the search does not depend on the case of the
    letters of the term, and every client one of whose four fields
    contains the term as typed is among the results. *)
Theorem client_search clients :
  (∀ term, Search.filterClientsByTerm clients term `sublist_of` clients)
  ∧ (∀ term, (∀ c, c ∈ list_ascii_of_string term → Js.is_white c = true) →
             Search.filterClientsByTerm clients term = clients)
  ∧ (∀ term other,
       Js.ascii_text term = true → Js.ascii_text other = true →
       same_ignoring_case term other →
       Search.filterClientsByTerm clients term = Search.filterClientsByTerm clients other)
  ∧ (∀ term, Search.filterClientsByTerm (Search.filterClientsByTerm clients term) term
             = Search.filterClientsByTerm clients term)
  ∧ (∀ term c,
       Js.ascii_text term = true →
       Js.ascii_text (client_name c) = true → Js.ascii_text (client_documentId c) = true →
       Js.ascii_text (client_phone c) = true → Js.ascii_text (client_address c) = true →
       c ∈ clients →
       Text.includes (client_name c) term || Text.includes (client_documentId c) term
       || Text.includes (client_phone c) term || Text.includes (client_address c) term = true →
       c ∈ Search.filterClientsByTerm clients term).
Proof.
  destruct (search_by_term
              (λ lowered c, Text.includes (Js.toLowerCase (client_name c)) lowered
                            || Text.includes (Js.toLowerCase (client_documentId c)) lowered
                            || Text.includes (Js.toLowerCase (client_phone c)) lowered
                            || Text.includes (Js.toLowerCase (client_address c)) lowered)
              clients) as (Hsub & Hblank & Hcase).
  split; [exact Hsub |]. split; [exact Hblank |]. split.
  { intros term other _ _ Hsame%toLowerCase_same. by apply Hcase. }
  split.
  - intros term. unfold Search.filterClientsByTerm.
    destruct (negb _); [done | apply filter_twice].
  - intros term c _ _ _ _ _ Hin Hfound. unfold Search.filterClientsByTerm.
    destruct (negb _); [done |].
    apply list_elem_of_filter. split; [| done].
    apply Is_true_true. rewrite !orb_true_iff in Hfound. rewrite !orb_true_iff.
    destruct Hfound as [[[H | H] | H] | H]; apply includes_lower in H; tauto.
Qed.

(** ** Identifiers *)

Example uid_of_bytes_example :
  Id.uid_of_bytes [0; 1; 2; 3; 4; 5; 255; 7; 255; 9; 10; 11; 12; 13; 14; 255]
  = "00010203-0405-4f07-bf09-0a0b0c0d0eff".
Proof. reflexivity. Qed.

Lemma hex_digit_zero : Id.hex_digit 0 = "0"%char.
Proof. reflexivity. Qed.

Lemma toHex_byte b :
  0 ≤ b < 256 →
  Id.toHex b = String (Id.hex_digit (b / 16)) (String (Id.hex_digit (b mod 16)) "").
Proof.
  intros Hb. unfold Id.toHex, Id.toString16.
  destruct (Z.ltb_spec b 16) as [Hsmall | Hlarge]; [| done].
  simpl. by rewrite Z.div_small, Z.mod_small by lia.
Qed.

Lemma hex_digit_inj x y :
  0 ≤ x < 16 → 0 ≤ y < 16 → Id.hex_digit x = Id.hex_digit y → x = y.
Proof.
  intros Hx Hy.
  assert (∀ z, 0 ≤ z < 16 → ∃ n : nat, (n < 16)%nat ∧ z = Z.of_nat n) as Hnat.
  { intros z Hz. exists (Z.to_nat z). lia. }
  destruct (Hnat x Hx) as (n & Hn & ->). destruct (Hnat y Hy) as (m & Hm & ->).
  clear Hx Hy Hnat.
  do 16 (destruct n as [| n]; [do 16 (destruct m as [| m]; [by (reflexivity || discriminate) |]); lia |]).
  lia.
Qed.

Lemma byte_of_digits a b :
  0 ≤ a < 256 → 0 ≤ b < 256 →
  Id.hex_digit (a / 16) = Id.hex_digit (b / 16) →
  Id.hex_digit (a mod 16) = Id.hex_digit (b mod 16) → a = b.
Proof.
  intros Ha Hb Hhigh Hlow.
  assert (∀ z, 0 ≤ z < 256 → 0 ≤ z / 16 < 16 ∧ 0 ≤ z mod 16 < 16) as Hdigits.
  { intros z Hz. split; [| apply Z.mod_pos_bound; lia].
    split; [apply Z.div_pos; lia | apply Z.div_lt_upper_bound; lia]. }
  apply hex_digit_inj in Hhigh; [| apply Hdigits, Ha | apply Hdigits, Hb].
  apply hex_digit_inj in Hlow; [| apply Hdigits, Ha | apply Hdigits, Hb].
  rewrite (Z.div_mod a 16), (Z.div_mod b 16) by lia. congruence.
Qed.

Lemma version_byte b : 0 ≤ b → 64 ≤ Z.lor (Z.land b 15) 64 < 80.
Proof.
  intros Hb. change 15 with (Z.ones 4). rewrite Z.land_ones by lia.
  assert (0 ≤ b mod 2 ^ 4 < 16) as Hm by (apply Z.mod_pos_bound; lia).
  generalize dependent (b mod 2 ^ 4). intros m Hm.
  assert (∃ n : nat, (n < 16)%nat ∧ m = Z.of_nat n) as (n & Hn & ->)
    by (exists (Z.to_nat m); lia).
  do 16 (destruct n as [| n]; [vm_compute; split; [by intros ? | done] |]). lia.
Qed.

Lemma variant_byte b : 0 ≤ b → 128 ≤ Z.lor (Z.land b 63) 128 < 192.
Proof.
  intros Hb. change 63 with (Z.ones 6). rewrite Z.land_ones by lia.
  assert (0 ≤ b mod 2 ^ 6 < 64) as Hm by (apply Z.mod_pos_bound; lia).
  generalize dependent (b mod 2 ^ 6). intros m Hm.
  assert (∃ n : nat, (n < 64)%nat ∧ m = Z.of_nat n) as (n & Hn & ->)
    by (exists (Z.to_nat m); lia).
  do 64 (destruct n as [| n]; [vm_compute; split; [by intros ? | done] |]). lia.
Qed.

(** Sixteen bytes in range, named one by one. *)
Ltac sixteen_bytes bytes Hlen Hbytes :=
  do 16 (destruct bytes as [| ? bytes]; [discriminate Hlen |]);
  destruct bytes; [clear Hlen | discriminate Hlen];
  repeat match type of Hbytes with
         | Forall _ (_ :: _) => apply Forall_cons in Hbytes as [? Hbytes]
         end;
  clear Hbytes.

(** X7. The identifier built from sixteen bytes is a version-4 UUID: 36
    characters, dashes at positions 8, 13, 18 and 23, the digit 4 at position
    14 and one of 8, 9, a, b at position 19.  Two fillings of the buffer give
    the same identifier exactly when they agree once version and variant are
    set, that is, on every bit the function keeps. *)
Theorem uid_of_bytes_is_v4 (bytes : list Z) :
  length bytes = 16%nat →
  Forall (λ b, 0 ≤ b < 256) bytes →
  let id := Id.uid_of_bytes bytes in
  String.length id = 36%nat
  ∧ (∀ i, i ∈ [8; 13; 18; 23]%nat → String.get i id = Some "-"%char)
  ∧ String.get 14 id = Some "4"%char
  ∧ (∃ v, v ∈ ["8"; "9"; "a"; "b"]%char ∧ String.get 19 id = Some v)
  ∧ (∀ other, length other = 16%nat → Forall (λ b, 0 ≤ b < 256) other →
       Id.uid_of_bytes other = id ↔ Id.stamped other = Id.stamped bytes).
Proof.
  intros Hlen Hbytes id. subst id.
  sixteen_bytes bytes Hlen Hbytes.
  unfold Id.uid_of_bytes, Id.stamped.
  cbn [list_insert insert lookup list_lookup from_option id fmap list_fmap].
  match goal with |- context [Z.lor (Z.land ?b 15) 64] =>
    pose proof (version_byte b ltac:(lia)) as Hversion;
    remember (Z.lor (Z.land b 15) 64) as version eqn:Eversion end.
  match goal with |- context [Z.lor (Z.land ?b 63) 128] =>
    pose proof (variant_byte b ltac:(lia)) as Hvariant;
    remember (Z.lor (Z.land b 63) 128) as variant eqn:Evariant end.
  rewrite !toHex_byte by lia.
  cbv [String.concat Id.slice String.substring String.append String.length
       Nat.sub String.get].
  assert (version / 16 = 4) as Hfour by (Z.div_mod_to_equations; lia).
  assert (variant / 16 = 8 ∨ variant / 16 = 9 ∨ variant / 16 = 10 ∨ variant / 16 = 11)
    as Hhigh by (Z.div_mod_to_equations; lia).
  split; [reflexivity |]. split.
  { intros i Hi.
    repeat (apply elem_of_cons in Hi as [-> | Hi]; [reflexivity |]).
    by apply elem_of_nil in Hi. }
  split; [by rewrite Hfour |]. split.
  { destruct Hhigh as [-> | [-> | [-> | ->]]];
      [exists "8"%char | exists "9"%char | exists "a"%char | exists "b"%char];
      (split; [repeat constructor | reflexivity]). }
  intros other Hlen Hother.
  sixteen_bytes other Hlen Hother.
  cbn [list_insert insert lookup list_lookup from_option id fmap list_fmap].
  match goal with |- context [Z.lor (Z.land ?b 15) 64] =>
    pose proof (version_byte b ltac:(lia)) as Hversion';
    remember (Z.lor (Z.land b 15) 64) as version' eqn:Eversion' end.
  match goal with |- context [Z.lor (Z.land ?b 63) 128] =>
    pose proof (variant_byte b ltac:(lia)) as Hvariant';
    remember (Z.lor (Z.land b 63) 128) as variant' eqn:Evariant' end.
  rewrite !toHex_byte by lia.
  cbv [String.concat Id.slice String.substring String.append String.length
       Nat.sub String.get].
  clear Eversion Evariant Eversion' Evariant' Hfour Hhigh.
  split; [| congruence].
  intros Heq.
  repeat match goal with
         | E : String _ _ = String _ _ |- _ => injection E as ? E
         end.
  repeat match goal with
         | Eh : Id.hex_digit (?a `div` 16) = Id.hex_digit (?b `div` 16),
           El : Id.hex_digit (?a `mod` 16) = Id.hex_digit (?b `mod` 16) |- _ =>
             assert (a = b) by (apply byte_of_digits; [lia | lia | exact Eh | exact El]);
             clear Eh El
         end.
  congruence.
Qed.

Lemma uid_of_bytes_is_v4_witness :
  let bytes := [0; 1; 2; 3; 4; 5; 255; 7; 255; 9; 10; 11; 12; 13; 14; 255] in
  String.length (Id.uid_of_bytes bytes) = 36%nat
  ∧ String.get 14 (Id.uid_of_bytes bytes) = Some "4"%char.
Proof.
  intros bytes.
  assert (Forall (λ b, 0 ≤ b < 256) bytes) as Hbytes
    by (unfold bytes; repeat (apply Forall_cons_2; [lia |]); apply Forall_nil_2).
  pose proof (uid_of_bytes_is_v4 bytes eq_refl Hbytes) as Hid.
  cbv zeta in Hid. split; apply Hid.
Defined.

(** ** Relations that every step of a computation respects *)

Section Respects.

Context (R : World → World → Prop).
Hypothesis R_refl : ∀ w, R w w.
Hypothesis R_trans : ∀ w1 w2 w3, R w1 w2 → R w2 w3 → R w1 w3.

Lemma respects_ret {A} (a : A) : respects R (ret a).
Proof. intros w. apply R_refl. Qed.

Lemma respects_bind {A B} (m : Eff A) (k : A → Eff B) :
  respects R m → (∀ a, respects R (k a)) → respects R (bind m k).
Proof.
  intros Hm Hk w. unfold bind. specialize (Hm w).
  destruct (m w) as [w' [a | e]]; simpl in *; [| done].
  eapply R_trans; [exact Hm | apply Hk].
Qed.

Lemma respects_try_catch {A} (m : Eff A) h :
  respects R m → (∀ e, respects R (h e)) → respects R (try_catch m h).
Proof.
  intros Hm Hh w. unfold try_catch. specialize (Hm w).
  destruct (m w) as [w' [a | e]]; simpl in *; [done |].
  eapply R_trans; [exact Hm | apply Hh].
Qed.

Lemma respects_for_of {A} (body : A → Eff unit) xs :
  (∀ x, respects R (body x)) → respects R (for_of xs body).
Proof.
  intros Hbody. induction xs as [| x xs IH]; simpl.
  - apply respects_ret.
  - apply respects_bind; [apply Hbody | by intros _].
Qed.

Lemma respects_map_eff {A B} (f : A → Eff B) xs :
  (∀ x, respects R (f x)) → respects R (map_eff f xs).
Proof.
  intros Hf. induction xs as [| x xs IH]; simpl.
  - apply respects_ret.
  - apply respects_bind; [apply Hf | intros y].
    apply respects_bind; [exact IH | intros ys; apply respects_ret].
Qed.

Lemma respects_request {A} r (run : Database → option (Database * A)) :
  (∀ w, R w (log_request r w)) →
  (∀ w d a, run (database w) = Some (d, a) → R w (set_database d (log_request r w))) →
  respects R (request r run).
Proof.
  intros Hlog Hrun w. rewrite request_run.
  destruct (fault w (length (requests w))); [apply Hlog |].
  destruct (run (database w)) as [[d a] |] eqn:Hd; [by eapply Hrun | apply Hlog].
Qed.

Lemma respects_getItem {A} (key : LocalStorage → option A) : respects R (getItem key).
Proof. intros w. apply R_refl. Qed.

Lemma respects_setItem write :
  (∀ w, R w (skip_storage_write w)) →
  (∀ w, R w (set_localStorage (write (localStorage w)) w)) →
  respects R (setItem write).
Proof.
  intros Hskip Hset w. unfold setItem.
  destruct (storage_full w (storage_writes w)); [apply Hskip | apply Hset].
Qed.

Lemma respects_uid : (∀ w, R w (draw_uid w)) → respects R uid.
Proof. intros Hdraw w. apply Hdraw. Qed.

End Respects.

(** Takes a computation apart along its [bind]s, [try]s, loops and
    branches, down to the requests, [uid()] and the storage. *)
Ltac respect refl trans :=
  repeat first
    [ apply (respects_ret _ refl)
    | apply (respects_getItem _ refl)
    | apply (respects_bind _ trans); [| intros ?]
    | apply (respects_try_catch _ trans); [| intros ?]
    | apply (respects_for_of _ refl trans); intros ?
    | apply (respects_map_eff _ refl trans); intros ?
    | apply respects_uid; intros ?
    | apply respects_request; [intros ? | intros ? ? ? ?]
    | apply respects_setItem; intros ?
    | match goal with
      | |- respects _ (match ?x with _ => _ end) => destruct x
      end ].

(** ** The counter of orders *)

Lemma sequence_le_refl w : sequence_le w w.
Proof. unfold sequence_le. lia. Qed.

Lemma sequence_le_trans w1 w2 w3 : sequence_le w1 w2 → sequence_le w2 w3 → sequence_le w1 w3.
Proof. unfold sequence_le. lia. Qed.

(** Unfolds the pages and the repository down to the primitives. *)
Ltac primitives :=
  unfold RegisterSale.handleSubmit, SalesOrders.handleSubmit, Inventory.handleSubmit,
    Inventory.handleImportFile, Inventory.handleDeleteProduct, Inventory.handleClearInventory,
    Clients.handleSubmit, QuickClient.handleAddQuickClient, Auth.login,
    Setup.isInitialSetupRequired, SalesOrders.persistSalesOrder, SalesOrders.nextSequence,
    SalesOrders.loadStoredSalesOrders, Settings.getUsersConfig, Settings.getTicketsConfig,
    Settings.saveTicketsConfig, Repo.createOrder, Repo.decrement_stock, Repo.item_payload,
    Repo.upsertProduct, Repo.upsertClient, Repo.deleteProduct, Repo.listProducts,
    Repo.getUsersConfigRemote.

Lemma operation_sequence w w' : operation w w' → sequence_le w w'.
Proof.
  assert (∀ A (m : Eff A), respects sequence_le m → ∀ w0, sequence_le w0 (m w0).1) as Hrun
    by (intros A m Hm w0; apply Hm).
  intros Hop. destruct Hop as [w0 w1 [] | | | | |]; apply Hrun; primitives;
    respect sequence_le_refl sequence_le_trans;
    unfold sequence_le, Repo.insert_order_row, Repo.insert_items, Repo.write_stock in *;
    simpl in *; repeat case_match; simplify_eq; simpl; lia.
Qed.

(** ** What [createOrder] stores *)

Lemma products_only_refl w : products_only w w.
Proof. unfold products_only. by destruct w as [[] ? ? ? ? ? ? ?]. Qed.

Lemma products_only_trans w1 w2 w3 :
  products_only w1 w2 → products_only w2 w3 → products_only w1 w3.
Proof.
  unfold products_only.
  intros (Hd & Hl & Hf & Hs & Hu & Hq & Hn) (Hd' & Hl' & Hf' & Hs' & Hu' & Hq' & Hn').
  repeat split; try congruence.
  rewrite Hd', Hd. by destruct (database w1).
Qed.

(** The stock loop writes to the table of products and nowhere else. *)
Lemma stock_loop_products_only items : respects products_only (for_of items Repo.decrement_stock).
Proof.
  unfold Repo.decrement_stock. respect products_only_refl products_only_trans;
    unfold products_only, Repo.write_stock in *; simpl in *;
    repeat case_match; simplify_eq; simpl;
    by match goal with w : World |- _ => destruct w as [[] ? ? ? ? ? ? ?] end.
Qed.

(** A [createOrder] that returns has stored the header under a new key
    with the next number of the sequence, and one row for every item. *)
Lemma createOrder_created order w w' created :
  Repo.createOrder order w = (w', Returned created) →
  let oid := uid_source w (uid_drawn w) in
  let rows := item_rows oid (uid_source w) (S (uid_drawn w)) (draft_items order) in
  created = {| order_id := oid;
               order_kind := draft_kind order;
               order_total := draft_total order;
               order_payment_method := draft_payment_method order;
               order_performed_by_username := draft_performed_by_username order;
               order_performed_by_role := draft_performed_by_role order;
               order_client_id := draft_client_id order;
               order_client_name := draft_client_name order;
               order_client_document_id := draft_client_document_id order;
               order_client_phone := draft_client_phone order;
               order_delivery_address := draft_delivery_address order;
               order_subtotal := draft_order_subtotal order;
               order_discount := draft_discount order;
               order_notes := draft_notes order;
               order_sequence := Some (orders_sequence (database w));
               order_item_list := rows |}
  ∧ orders (database w) !! oid = None
  ∧ orders (database w')
    = <[oid := Repo.order_payload order (orders_sequence (database w))]> (orders (database w))
  ∧ Repo.insert_item_rows rows (order_items (database w)) = Some (order_items (database w'))
  ∧ orders_sequence (database w') = orders_sequence (database w) + 1
  ∧ clients (database w') = clients (database w)
  ∧ settings_users (database w') = settings_users (database w)
  ∧ localStorage w' = localStorage w.
Proof.
  intros Hrun oid rows. revert Hrun.
  unfold Repo.createOrder. unfold bind at 1. unfold uid at 1. fold oid.
  unfold bind at 1. rewrite request_run. simpl.
  destruct (fault w (length (requests w))) eqn:Hf; simpl; [done |].
  unfold Repo.insert_order_row.
  destruct (orders (database w) !! oid) as [taken |] eqn:Hnew; simpl; [done |].
  unfold bind at 1. rewrite item_payloads_run. simpl.
  unfold bind at 1. rewrite request_run. simpl.
  rewrite length_app, Nat.add_1_r. simpl. fold rows.
  destruct (fault w (S (length (requests w)))) eqn:Hf2; simpl; [done |].
  unfold Repo.insert_items. simpl.
  destruct (Repo.insert_item_rows rows (order_items (database w))) as [t |] eqn:Hrows;
    simpl; [| done].
  unfold bind at 1.
  match goal with
  | |- context [match (match draft_kind order with _ => _ end) ?w0 with _ => _ end] =>
      assert (products_only w0 ((match draft_kind order with
                                 | sale => for_of (draft_items order) Repo.decrement_stock
                                 | sales_order => ret tt
                                 end) w0).1) as Hframe
        by (destruct (draft_kind order);
            [apply stock_loop_products_only | apply products_only_refl]);
      destruct ((match draft_kind order with
                 | sale => for_of (draft_items order) Repo.decrement_stock
                 | sales_order => ret tt
                 end) w0) as [w1 [[] | e]]
  end; [| done].
  unfold ret. intros [= <- <-].
  destruct Hframe as (Hd & Hl & _). simpl in Hd, Hl.
  rewrite Hd. simpl. by repeat split.
Qed.

(** The insert of the items stores every row under a key that was free,
    next to what the table held. *)
Lemma insert_item_rows_stored rows t t' :
  Repo.insert_item_rows rows t = Some t' →
  (∀ row, row ∈ rows → t !! item_id row = None ∧ t' !! item_id row = Some row)
  ∧ (∀ id it, t !! id = Some it → t' !! id = Some it)
  ∧ size t' = (size t + length rows)%nat
  ∧ NoDup (item_id <$> rows).
Proof.
  revert t. induction rows as [| row rows IH]; intros t; simpl.
  - intros [= <-]. split; [by intros row ?%elem_of_nil |].
    split; [done |]. split; [lia | constructor].
  - destruct (t !! item_id row) eqn:Hfree; [done |]. intros Hrows.
    destruct (IH _ Hrows) as (Hin & Hold & Hsize & Hnd).
    rewrite map_size_insert, Hfree in Hsize. simpl in Hsize.
    assert (item_id row ∉ item_id <$> rows) as Hfresh.
    { intros (r & Hid & Hr)%list_elem_of_fmap.
      destruct (Hin r Hr) as [Hnone _]. by rewrite <- Hid, lookup_insert_eq in Hnone. }
    split; [| split; [| split]].
    + intros r [-> | Hr]%elem_of_cons.
      * split; [done |]. apply Hold, lookup_insert_eq.
      * destruct (Hin r Hr) as [Hnone Hsome]. split; [| done].
        rewrite lookup_insert_ne in Hnone; [done |].
        intros Heq. apply Hfresh, list_elem_of_fmap. by exists r.
    + intros id it Hit. apply Hold. rewrite lookup_insert_ne; [done |].
      intros <-. congruence.
    + lia.
    + by constructor.
Qed.

Lemma item_rows_length orderId source k items :
  length (item_rows orderId source k items) = length items.
Proof. revert k. induction items as [| it items IH]; intros k; simpl; [done | by rewrite IH]. Qed.

Lemma item_rows_order orderId source k items row :
  row ∈ item_rows orderId source k items → item_order_id row = orderId.
Proof.
  revert k. induction items as [| it items IH]; intros k; simpl.
  - by intros ?%elem_of_nil.
  - intros [-> | Hrow]%elem_of_cons; [done | by eapply IH].
Qed.

Lemma item_rows_subtotals orderId source k lines acc :
  fold_left Z.add (item_subtotal <$> item_rows orderId source k (RegisterSale.to_item <$> lines)) acc
  = fold_left (λ sum line, sum + product_salePrice (product line) * quantity line) lines acc.
Proof.
  revert k acc. induction lines as [| line lines IH]; intros k acc; simpl; [done |].
  apply IH.
Qed.

(** How a sale that is registered has run. *)
Lemma sale_registered_run pg w w' created refreshed :
  RegisterSale.handleSubmit pg w
  = (w', Returned (RegisterSale.registered created refreshed)) →
  ∃ u client w2,
    user pg = Some u ∧ selectedClient pg = Some client ∧ validation pg = None
    ∧ fault w (length (requests w)) = false
    ∧ Repo.createOrder (RegisterSale.to_order pg u client) (log_request select_products w)
      = (w2, Returned created)
    ∧ database w' = database w2 ∧ localStorage w' = localStorage w2
    ∧ refreshed = (if fault w2 (length (requests w2)) then None
                   else Some (listed (database w2))).
Proof.
  intros Hrun.
  destruct (user pg) as [u |] eqn:Hu.
  2: { unfold RegisterSale.handleSubmit in Hrun. by rewrite Hu in Hrun. }
  destruct (validation pg) as [message |] eqn:Hv.
  { by rewrite (sale_rejected_by_validation pg u message w Hu Hv) in Hrun. }
  destruct (sale_validated pg u w Hu Hv) as (client & Hclient & Heq).
  rewrite Heq in Hrun. clear Heq.
  destruct (fault w (length (requests w))) eqn:Hf; [done |].
  destruct (RegisterSale.problems (listed (database w)) (cart pg)) as [| text texts] eqn:Hp;
    [| done].
  simpl in Hrun. unfold bind at 1 in Hrun.
  destruct (Repo.createOrder _ _) as [w2 [made | e]] eqn:Hcreate; [| done].
  exists u, client, w2.
  unfold bind at 1, try_catch, bind in Hrun. rewrite listProducts_run in Hrun.
  destruct (fault w2 (length (requests w2))); unfold ret in Hrun;
    rewrite downloadSaleTicket_run in Hrun;
    injection Hrun as <- <- <-; by repeat split.
Qed.

(** X8. A sale that is registered is in the database as it was returned:
    the header under a key that was free, with the total and the number
    returned; one row for every line of the cart, each under a key that
    was free and naming the order.  The total is the sum of the rows less
    the discount, and is not negative. *)
Theorem registered_sale_is_stored pg w w' created refreshed :
  RegisterSale.handleSubmit pg w
  = (w', Returned (RegisterSale.registered created refreshed)) →
  orders (database w) !! order_id created = None
  ∧ (∃ row, orders (database w') !! order_id created = Some row
            ∧ row_kind row = sale
            ∧ row_total row = order_total created
            ∧ order_sequence created = Some (row_sequence row))
  ∧ size (orders (database w')) = S (size (orders (database w)))
  ∧ length (order_item_list created) = length (cart pg)
  ∧ (∀ it, it ∈ order_item_list created →
       item_order_id it = order_id created
       ∧ order_items (database w) !! item_id it = None
       ∧ order_items (database w') !! item_id it = Some it)
  ∧ size (order_items (database w'))
    = (size (order_items (database w)) + length (cart pg))%nat
  ∧ order_total created
    = fold_left Z.add (item_subtotal <$> order_item_list created) 0 - discountAmount pg
  ∧ 0 ≤ order_total created.
Proof.
  intros Hrun.
  destruct (sale_registered_run _ _ _ _ _ Hrun)
    as (u & client & w2 & Hu & Hclient & Hv & Hf & Hcreate & Hdb & _).
  destruct (createOrder_created _ _ _ _ Hcreate)
    as (-> & Hfree & Horders & Hrows & _).
  simpl in *. rewrite Hdb.
  destruct (insert_item_rows_stored _ _ _ Hrows) as (Hin & _ & Hsize & _).
  destruct (validation_passed pg Hv) as (_ & _ & _ & Hdiscount).
  assert (discountAmount pg ≤ subtotal pg) as Hle by lia.
  split; [done |]. split.
  { eexists. rewrite Horders, lookup_insert_eq. by repeat split. }
  split; [by rewrite Horders, map_size_insert, Hfree |].
  split; [by rewrite item_rows_length, length_fmap |].
  split.
  { intros it Hit. split; [by eapply item_rows_order |]. by apply Hin. }
  split; [by rewrite Hsize, item_rows_length, length_fmap |].
  rewrite item_rows_subtotals. fold (subtotal pg). unfold total. lia.
Qed.

Lemma registered_sale_is_stored_witness :
  let pg := Sample.page [{| product := Sample.shirt; quantity := 2 |};
                         {| product := Sample.shoes; quantity := 1 |}] (Some 40) in
  let w := Sample.world (Sample.stocked [Sample.shirt; Sample.shoes]) [] in
  let run := RegisterSale.handleSubmit pg w in
  size (orders (database run.1)) = 1%nat
  ∧ size (order_items (database run.1)) = 2%nat
  ∧ (row_total <$> orders (database run.1) !! "uid-0") = Some 900.
Proof.
  intros pg w run.
  assert (∃ created refreshed,
            run = (run.1, Returned (RegisterSale.registered created refreshed))) as Hrun.
  { eexists _, _. vm_compute. reflexivity. }
  destruct Hrun as (created & refreshed & Hrun).
  destruct (registered_sale_is_stored pg w run.1 created refreshed Hrun)
    as (_ & _ & Horders & _ & _ & Hitems & _).
  split; [exact Horders |]. split; [exact Hitems |].
  vm_compute. reflexivity.
Defined.

Lemma operations_sequence w w' : operations w w' → sequence_le w w'.
Proof.
  induction 1 as [w | w w' w'' _ IH Hop]; [apply sequence_le_refl |].
  eapply sequence_le_trans; [exact IH | by apply operation_sequence].
Qed.

(** X9. The numbers of the sales go up: of two sales that are registered,
    the later one has the larger number, whatever the pages have done in
    between; with nothing in between it is the next number. *)
Theorem sale_numbers_increase pg1 pg2 w w1 w2 w3 created1 refreshed1 created2 refreshed2 :
  RegisterSale.handleSubmit pg1 w
  = (w1, Returned (RegisterSale.registered created1 refreshed1)) →
  operations w1 w2 →
  RegisterSale.handleSubmit pg2 w2
  = (w3, Returned (RegisterSale.registered created2 refreshed2)) →
  ∃ first second,
    order_sequence created1 = Some first ∧ order_sequence created2 = Some second
    ∧ first < second
    ∧ (w2 = w1 → second = first + 1).
Proof.
  intros Hrun1 Hbetween Hrun2.
  destruct (sale_registered_run _ _ _ _ _ Hrun1)
    as (u1 & client1 & w1' & _ & _ & _ & _ & Hcreate1 & Hdb1 & _).
  destruct (createOrder_created _ _ _ _ Hcreate1) as (-> & _ & _ & _ & Hnext1 & _).
  destruct (sale_registered_run _ _ _ _ _ Hrun2)
    as (u2 & client2 & w2' & _ & _ & _ & _ & Hcreate2 & _).
  destruct (createOrder_created _ _ _ _ Hcreate2) as (-> & _).
  simpl in *. eexists _, _. split; [done |]. split; [done |].
  apply operations_sequence in Hbetween. unfold sequence_le in Hbetween.
  rewrite Hdb1, Hnext1 in Hbetween. split; [lia |].
  intros ->. by rewrite Hdb1, Hnext1.
Qed.

Lemma sale_numbers_increase_witness :
  let pg := Sample.page [{| product := Sample.shirt; quantity := 2 |}] None in
  let form := {| Clients.form_name := "Ana"; Clients.form_documentId := "123";
                 Clients.form_phone := "7654321"; Clients.form_address := "La Paz" |} in
  let w := Sample.world (Sample.stocked [Sample.shirt]) [] in
  let w1 := (RegisterSale.handleSubmit pg w).1 in
  let w2 := (Clients.handleSubmit form None w1).1 in
  ∃ created1 refreshed1 created2 refreshed2 first second,
    (RegisterSale.handleSubmit pg w).2
    = Returned (RegisterSale.registered created1 refreshed1)
    ∧ (RegisterSale.handleSubmit pg w2).2
      = Returned (RegisterSale.registered created2 refreshed2)
    ∧ order_sequence created1 = Some first ∧ order_sequence created2 = Some second
    ∧ first < second.
Proof.
  intros pg form w w1 w2.
  assert (∃ created refreshed,
            RegisterSale.handleSubmit pg w
            = (w1, Returned (RegisterSale.registered created refreshed))) as Hrun1.
  { eexists _, _. vm_compute. reflexivity. }
  destruct Hrun1 as (created1 & refreshed1 & Hrun1).
  assert (∃ created refreshed,
            RegisterSale.handleSubmit pg w2
            = ((RegisterSale.handleSubmit pg w2).1,
               Returned (RegisterSale.registered created refreshed))) as Hrun2.
  { eexists _, _. vm_compute. reflexivity. }
  destruct Hrun2 as (created2 & refreshed2 & Hrun2).
  assert (operations w1 w2) as Hbetween.
  { eapply operations_more; [apply operations_none | apply operation_client_form]. }
  destruct (sale_numbers_increase pg pg w w1 w2 _ _ _ _ _ Hrun1 Hbetween Hrun2)
    as (first & second & Hfirst & Hsecond & Hlt & _).
  exists created1, refreshed1, created2, refreshed2, first, second.
  split; [by rewrite Hrun1 |]. split; [by rewrite Hrun2 |]. by repeat split.
Defined.

(** ** The inventory page and the history of orders *)

Lemma forget_product_spec id it :
  line_kept it (Repo.forget_product id it).
Proof.
  unfold line_kept, Repo.forget_product. destruct it as [i o [p |] n c q u s]; simpl.
  - rewrite String.eqb_refl. destruct (String.eqb_spec p id); [by right | by left].
  - by left.
Qed.

Lemma line_kept_refl it : line_kept it it.
Proof. by left. Qed.

Lemma line_kept_trans it1 it2 it3 : line_kept it1 it2 → line_kept it2 it3 → line_kept it1 it3.
Proof.
  unfold line_kept. intros [-> | ->] [-> | ->]; [by left | by right | by right |].
  right. unfold Repo.forget_product. destruct it1 as [i o [p |] n c q u s]; simpl; [| done].
  by rewrite String.eqb_refl.
Qed.

Lemma history_kept_refl w : history_kept w w.
Proof.
  unfold history_kept. repeat split. intros id.
  destruct (order_items (database w) !! id); constructor. apply line_kept_refl.
Qed.

Lemma history_kept_trans w1 w2 w3 : history_kept w1 w2 → history_kept w2 w3 → history_kept w1 w3.
Proof.
  unfold history_kept.
  intros (Ho & Hs & Hc & Hu & Hl & Hi) (Ho' & Hs' & Hc' & Hu' & Hl' & Hi').
  repeat split; try congruence. intros id.
  specialize (Hi id). specialize (Hi' id).
  destruct Hi as [it1 it2 H12 |]; inversion Hi' as [it2' it3 H23 |]; subst; constructor.
  by eapply line_kept_trans.
Qed.

Lemma history_kept_forget id w w' :
  orders (database w') = orders (database w) →
  orders_sequence (database w') = orders_sequence (database w) →
  clients (database w') = clients (database w) →
  settings_users (database w') = settings_users (database w) →
  localStorage w' = localStorage w →
  order_items (database w') = Repo.forget_product id <$> order_items (database w) →
  history_kept w w'.
Proof.
  intros Ho Hs Hc Hu Hl Hi. unfold history_kept. repeat split; try done.
  intros k. rewrite Hi, lookup_fmap.
  destruct (order_items (database w) !! k); constructor. apply forget_product_spec.
Qed.

(** X10. Whatever the inventory page does (saving a product, importing a
    workbook, deleting a product, emptying the inventory), and however it
    ends, the orders, their numbering, the clients, the users and the
    browser storage are as before, and every line of every order is still
    there with its name, quantity and amounts: deleting a product clears
    at most the reference a line holds to it. *)
Theorem inventory_keeps_history formState editingProduct rows productId listed w :
  history_kept w (Inventory.handleSubmit formState editingProduct w).1
  ∧ history_kept w (Inventory.handleImportFile rows w).1
  ∧ history_kept w (Inventory.handleDeleteProduct productId w).1
  ∧ history_kept w (Inventory.handleClearInventory listed w).1.
Proof.
  assert (∀ A (m : Eff A), respects history_kept m → history_kept w (m w).1) as Hrun
    by (intros A m Hm; apply Hm).
  split; [| split; [| split]]; apply Hrun; primitives;
    respect history_kept_refl history_kept_trans;
    simplify_eq;
    first [ apply history_kept_refl
          | by eapply history_kept_forget
          | by (unfold history_kept; simpl; repeat split; intros id;
                match goal with
                | |- option_Forall2 _ ?x _ => destruct x; constructor; apply line_kept_refl
                end) ].
Qed.

(** ** Deleting products *)

Lemma deleteProduct_run id w :
  Repo.deleteProduct id w
  = if fault w (length (requests w))
    then (log_request (delete_product id) w, Thrown (BackendError (delete_product id)))
    else (set_database
            (set_order_items (fmap (Repo.forget_product id))
               (set_products (delete id) (database w)))
            (log_request (delete_product id) w), Returned tt).
Proof. unfold Repo.deleteProduct. rewrite request_run. by destruct (fault _ _). Qed.

Lemma deleted_lookup (ps : list Product) (t : gmap string ProductRow) id :
  fold_left (λ t p, delete (product_id p) t) ps t !! id
  = if decide (id ∈ product_id <$> ps) then None else t !! id.
Proof.
  revert t. induction ps as [| p ps IH]; intros t.
  - rewrite decide_False; [done | by intros ?%elem_of_nil].
  - rewrite fmap_cons. cbn [fold_left].
    rewrite IH. destruct (decide (id ∈ product_id <$> ps)) as [Hin | Hout].
    + rewrite decide_True; [done | by right].
    + destruct (decide (id = product_id p)) as [-> | Hne].
      * rewrite decide_True by left. apply lookup_delete_eq.
      * rewrite decide_False, lookup_delete_ne; [done | done |].
        by intros [? | ?]%elem_of_cons.
Qed.

(** The loop of [handleClearInventory]: the products are deleted in the
    order of the list, up to the first request that fails. *)
Lemma clear_loop ps w :
  let run := for_of ps (λ p, Repo.deleteProduct (product_id p)) w in
  ∃ k, (k ≤ length ps)%nat
       ∧ products (database run.1)
         = fold_left (λ t p, delete (product_id p) t) (take k ps) (products (database w))
       ∧ match run.2 with
         | Returned _ =>
             k = length ps
             ∧ requests run.1
               = (requests w ++ (delete_product ∘ product_id <$> ps))%list
         | Thrown e =>
             (k < length ps)%nat
             ∧ fault w (length (requests w) + k) = true
             ∧ requests run.1
               = (requests w ++ (delete_product ∘ product_id <$> take (S k) ps))%list
         end.
Proof.
  revert w. induction ps as [| p ps IH]; intros w; simpl.
  - exists 0%nat. repeat split; [lia | by rewrite app_nil_r].
  - unfold bind. rewrite deleteProduct_run.
    destruct (fault w (length (requests w))) eqn:Hf; simpl.
    + exists 0%nat. rewrite Nat.add_0_r. repeat split; [lia | lia | done].
    + match goal with |- context [for_of ps _ ?w0] => specialize (IH w0) end.
      simpl in IH. destruct IH as (k & Hk & Hproducts & Hout).
      exists (S k). split; [lia |]. split; [by rewrite Hproducts |].
      destruct (for_of ps _ _) as [w1 [[] | e]]; simpl in *.
      * destruct Hout as [-> ->]. by rewrite <- app_assoc.
      * destruct Hout as (Hlt & Hfault & ->).
        rewrite length_app, <- Nat.add_assoc in Hfault. simpl in Hfault.
        repeat split; [lia | done | by rewrite <- app_assoc].
Qed.

(** X11. Emptying the inventory never throws.  It deletes the products
    shown in the order of the list, up to the first request that fails, and
    sends nothing else; a product that is not shown stays.  When every
    request is answered, no product shown is left, and if the list shown
    is the whole table the table ends empty. *)
Theorem clear_inventory_deletes_listed ps w :
  let run := Inventory.handleClearInventory ps w in
  run.2 = Returned tt
  ∧ (∃ k sent, (k ≤ sent ≤ length ps)%nat
       ∧ products (database run.1)
         = fold_left (λ t p, delete (product_id p) t) (take k ps) (products (database w))
       ∧ requests run.1
         = (requests w ++ (delete_product ∘ product_id <$> take sent ps))%list)
  ∧ (∀ id, id ∉ product_id <$> ps →
           products (database run.1) !! id = products (database w) !! id)
  ∧ ((∀ n, (n < length ps)%nat → fault w (length (requests w) + n) = false) →
     (∀ p, p ∈ ps → products (database run.1) !! product_id p = None)
     ∧ (ps = listed (database w) → products (database run.1) = ∅)).
Proof.
  intros run. subst run. unfold Inventory.handleClearInventory, try_catch.
  destruct (clear_loop ps w) as (k & Hk & Hproducts & Hout). simpl in *.
  destruct (for_of ps _ w) as [w1 [[] | e]]; simpl in *.
  - destruct Hout as [-> Hrequests]. rewrite firstn_all in Hproducts.
    split; [done |]. split.
    { exists (length ps), (length ps). by rewrite !firstn_all. }
    split.
    { intros id Hid. by rewrite Hproducts, deleted_lookup, decide_False. }
    intros _. split.
    + intros p Hp. rewrite Hproducts, deleted_lookup, decide_True; [done |].
      apply list_elem_of_fmap. by exists p.
    + intros ->. apply map_eq. intros id. rewrite lookup_empty, Hproducts, deleted_lookup.
      destruct (decide _) as [Hin | Hout]; [done |].
      destruct (products (database w) !! id) as [row |] eqn:Hrow; [| done].
      destruct Hout. apply list_elem_of_fmap. exists (Repo.to_product id row).
      split; [done |]. unfold listed. apply list_elem_of_fmap. exists (id, row).
      split; [done |]. by apply elem_of_map_to_list.
  - destruct Hout as (Hlt & Hfault & Hrequests).
    split; [done |]. split.
    { exists k, (S k). repeat split; [lia | lia | done | done]. }
    split.
    { intros id Hid. rewrite Hproducts, deleted_lookup, decide_False; [done |].
      intros (p & -> & Hp)%list_elem_of_fmap. apply Hid, list_elem_of_fmap.
      exists p. split; [done |]. apply elem_of_take in Hp as (i & Hi & _).
      by eapply list_elem_of_lookup_2. }
    intros Hanswered. rewrite Hanswered in Hfault; [done | lia].
Qed.

(** ** The lines of the orders and the products they name *)

Lemma keeps_references_refl w : keeps_references w w.
Proof. by intros ?. Qed.

Lemma keeps_references_trans w1 w2 w3 :
  keeps_references w1 w2 → keeps_references w2 w3 → keeps_references w1 w3.
Proof. unfold keeps_references. tauto. Qed.

Lemma keeps_references_same w w' :
  order_items (database w') = order_items (database w) →
  (∀ id, is_Some (products (database w) !! id) → is_Some (products (database w') !! id)) →
  keeps_references w w'.
Proof.
  intros Hitems Hproducts Href id it p Hit Hp. rewrite Hitems in Hit.
  by eapply Hproducts, Href.
Qed.

Lemma keeps_references_delete id w w' :
  order_items (database w') = Repo.forget_product id <$> order_items (database w) →
  products (database w') = delete id (products (database w)) →
  keeps_references w w'.
Proof.
  intros Hitems Hproducts Href k it p Hit Hp.
  rewrite Hitems, lookup_fmap in Hit.
  destruct (order_items (database w) !! k) as [before |] eqn:Hbefore; [| done].
  injection Hit as <-. unfold Repo.forget_product in Hp. simpl in Hp.
  destruct (item_product_id before) as [q |] eqn:Hq; [| done].
  destruct (String.eqb_spec q id) as [-> | Hne]; [done |]. injection Hp as ->.
  rewrite Hproducts, lookup_delete_ne by done. by eapply Href.
Qed.

Lemma decrements_keep_keys items t id :
  is_Some (t !! id) → is_Some (fold_left decrement items t !! id).
Proof.
  revert t. induction items as [| it items IH]; intros t Hid; simpl; [done |].
  apply IH. unfold decrement. destruct (draft_product_id it) as [p |]; [| done].
  destruct (decide (p = id)) as [-> | Hne].
  - rewrite lookup_alter_eq. destruct Hid as [row ->]. by eexists.
  - by rewrite lookup_alter_ne.
Qed.

Lemma item_rows_product orderId source k items row :
  row ∈ item_rows orderId source k items →
  ∃ it, it ∈ items ∧ item_product_id row = draft_product_id it.
Proof.
  revert k. induction items as [| it items IH]; intros k; simpl.
  - by intros ?%elem_of_nil.
  - intros [-> | Hrow]%elem_of_cons.
    + exists it. split; [left | done].
    + destruct (IH _ Hrow) as (it' & Hin & Heq). exists it'. split; [by right | done].
Qed.

Lemma insert_item_rows_inv rows t t' id it :
  Repo.insert_item_rows rows t = Some t' → t' !! id = Some it →
  t !! id = Some it ∨ it ∈ rows.
Proof.
  revert t. induction rows as [| row rows IH]; intros t; simpl.
  - intros [= <-] Hit. by left.
  - destruct (t !! item_id row) eqn:Hfree; [done |]. intros Hrows Hit.
    destruct (IH _ Hrows Hit) as [Hold | Hin]; [| right; by right].
    destruct (decide (id = item_id row)) as [-> | Hne].
    + rewrite lookup_insert_eq in Hold. injection Hold as <-. right. left.
    + rewrite lookup_insert_ne in Hold by done. by left.
Qed.

(** However [createOrder] ends, the lines stored are those that were
    there, with or without the rows of this order. *)
Lemma createOrder_lines order w :
  let run := Repo.createOrder order w in
  let rows := item_rows (uid_source w (uid_drawn w)) (uid_source w) (S (uid_drawn w))
                (draft_items order) in
  order_items (database run.1) = order_items (database w)
  ∨ Repo.insert_item_rows rows (order_items (database w))
    = Some (order_items (database run.1)).
Proof.
  intros run rows. subst run.
  destruct (Repo.createOrder order w) as [w' out] eqn:Hrun. simpl. revert Hrun.
  unfold Repo.createOrder. unfold bind at 1. unfold uid at 1.
  unfold bind at 1. rewrite request_run. simpl.
  destruct (fault w (length (requests w))) eqn:Hf; simpl; [intros [= <- <-]; by left |].
  unfold Repo.insert_order_row.
  destruct (orders (database w) !! _) as [taken |] eqn:Hnew; simpl;
    [intros [= <- <-]; by left |].
  unfold bind at 1. rewrite item_payloads_run. simpl.
  unfold bind at 1. rewrite request_run. simpl.
  rewrite length_app, Nat.add_1_r. simpl. fold rows.
  destruct (fault w (S (length (requests w)))) eqn:Hf2; simpl;
    [intros [= <- <-]; by left |].
  unfold Repo.insert_items. simpl.
  destruct (Repo.insert_item_rows rows (order_items (database w))) as [t |] eqn:Hrows;
    simpl; [| intros [= <- <-]; by left].
  unfold bind at 1.
  match goal with
  | |- context [match (match draft_kind order with _ => _ end) ?w0 with _ => _ end] =>
      assert (products_only w0 ((match draft_kind order with
                                 | sale => for_of (draft_items order) Repo.decrement_stock
                                 | sales_order => ret tt
                                 end) w0).1) as Hframe
        by (destruct (draft_kind order);
            [apply stock_loop_products_only | apply products_only_refl]);
      destruct ((match draft_kind order with
                 | sale => for_of (draft_items order) Repo.decrement_stock
                 | sales_order => ret tt
                 end) w0) as [w1 [[] | e]]
  end; destruct Hframe as (Hd & _); simpl in *; unfold ret;
    intros [= <- <-]; right; by rewrite Hd.
Qed.

Lemma createOrder_keeps_references order w :
  (∀ it p, it ∈ draft_items order → draft_product_id it = Some p →
           is_Some (products (database w) !! p)) →
  keeps_references w (Repo.createOrder order w).1.
Proof.
  intros Hnamed Href id it p Hit Hp.
  destruct (createOrder_effect order w) as (_ & _ & (k & Hproducts) & _).
  rewrite Hproducts. apply decrements_keep_keys.
  destruct (createOrder_lines order w) as [Hsame | Hrows].
  - rewrite Hsame in Hit. by eapply Href.
  - destruct (insert_item_rows_inv _ _ _ _ _ Hrows Hit) as [Hold | Hnew];
      [by eapply Href |].
    apply item_rows_product in Hnew as (draft & Hin & Heq).
    eapply Hnamed; [exact Hin | congruence].
Qed.

Lemma sale_keeps_references pg w : keeps_references w (RegisterSale.handleSubmit pg w).1.
Proof.
  destruct (user pg) as [u |] eqn:Hu.
  2: { unfold RegisterSale.handleSubmit. rewrite Hu. apply keeps_references_refl. }
  destruct (validation pg) as [message |] eqn:Hv.
  { rewrite (sale_rejected_by_validation pg u message w Hu Hv). apply keeps_references_refl. }
  destruct (sale_validated pg u w Hu Hv) as (client & _ & ->).
  destruct (fault w (length (requests w))); [by apply keeps_references_same |].
  destruct (RegisterSale.problems (listed (database w)) (cart pg)) as [| text texts] eqn:Hp;
    simpl; [| by apply keeps_references_same].
  unfold bind at 1.
  match goal with
  | |- context [Repo.createOrder ?order ?w0] =>
      assert (keeps_references w (Repo.createOrder order w0).1) as Hcreate
  end.
  { eapply keeps_references_trans;
      [| apply createOrder_keeps_references]; [by apply keeps_references_same |].
    intros it p (line & -> & Hline)%list_elem_of_fmap [= <-].
    destruct (no_problems _ _ _ Hp Hline) as (row & Hrow & _). by eexists. }
  destruct (Repo.createOrder _ _) as [w2 [made | e]]; [| done].
  simpl in Hcreate. eapply keeps_references_trans; [exact Hcreate |].
  unfold bind at 1, try_catch, bind. rewrite listProducts_run.
  destruct (fault w2 (length (requests w2))); unfold ret;
    rewrite downloadSaleTicket_run; by apply keeps_references_same.
Qed.

(** X12. No page leaves a line of an order that names a product which is
    not in the inventory: a sale stores lines only for products it has just
    found there, and deleting a product clears the lines that name it. *)
Theorem order_lines_refer_to_products w w' :
  operations w w' →
  lines_refer_to_products (database w) → lines_refer_to_products (database w').
Proof.
  assert (∀ A (m : Eff A) w0, respects keeps_references m → keeps_references w0 (m w0).1)
    as Hrun by (intros A m w0 Hm; apply Hm).
  induction 1 as [w | w w' w'' _ IH Hop]; [done |].
  intros Href. specialize (IH Href). revert IH. clear Href.
  change (keeps_references w' w'').
  destruct Hop as [w0 w1 [] | | | | |]; try apply sale_keeps_references;
    apply Hrun; primitives;
    respect keeps_references_refl keeps_references_trans;
    simplify_eq;
    first [ by eapply keeps_references_delete
          | apply keeps_references_same; simpl; [done |];
            intros id0 Hid0; simpl;
            try (match goal with
                 | |- is_Some (<[?k := _]> _ !! ?i) =>
                     destruct (decide (k = i)) as [-> | ?];
                     [rewrite lookup_insert_eq; by eexists
                     | by rewrite lookup_insert_ne]
                 end); done ].
Qed.

Lemma order_lines_refer_to_products_witness :
  let pg := Sample.page [{| product := Sample.shirt; quantity := 2 |}] None in
  let w := Sample.world (Sample.stocked [Sample.shirt]) [] in
  let w1 := (RegisterSale.handleSubmit pg w).1 in
  let w2 := (Inventory.handleDeleteProduct "demo-1" w1).1 in
  (item_product_id <$> order_items (database w1) !! "uid-1") = Some (Some "demo-1")
  ∧ products (database w2) !! "demo-1" = None
  ∧ lines_refer_to_products (database w2).
Proof.
  intros pg w w1 w2.
  assert (lines_refer_to_products (database w)) as Hstart.
  { intros id it p Hit. simpl in Hit. by rewrite lookup_empty in Hit. }
  assert (operations w w2) as Hops.
  { eapply operations_more; [eapply operations_more; [apply operations_none |] |].
    - apply operation_step, (step_sale pg).
    - apply operation_step, (step_delete_product "demo-1"). }
  split; [vm_compute; reflexivity |]. split; [vm_compute; reflexivity |].
  exact (order_lines_refer_to_products w w2 Hops Hstart).
Defined.

(** ** The first run *)

Lemma toLowerCase_empty s : Js.toLowerCase s = "" ↔ s = "".
Proof. by destruct s. Qed.

Lemma truthy_empty s : Js.truthy s = false ↔ s = "".
Proof. by destruct s. Qed.

(** X13. [isInitialSetupRequired] and [login] read the users once and
    write nothing.  The setup is required exactly when the configuration
    read has no administrator name or no administrator password, which is
    so whenever the request fails or nothing is stored; and in that case
    [login] accepts exactly the administrator with a blank name and an
    empty password. *)
Theorem first_run w :
  let cfg := if fault w (length (requests w)) then DEFAULT_USERS_CONFIG
             else default DEFAULT_USERS_CONFIG (settings_users (database w)) in
  let w' := log_request (select_setting "users") w in
  Setup.isInitialSetupRequired w
  = (w', Returned (bool_decide (admin_username (users_admin cfg) = ""
                               ∨ admin_password (users_admin cfg) = "")))
  ∧ (∀ username password role,
       Auth.login username password role w
       = (w', Returned (Auth.check cfg username password role)))
  ∧ database w' = database w ∧ localStorage w' = localStorage w
  ∧ (fault w (length (requests w)) = true ∨ settings_users (database w) = None →
     (Setup.isInitialSetupRequired w).2 = Returned true
     ∧ ∀ username password role,
         (∃ user, (Auth.login username password role w).2 = Returned (Auth.success user))
         ↔ role = admin ∧ Js.trim username = "" ∧ password = "").
Proof.
  intros cfg w'.
  assert (Setup.isInitialSetupRequired w
          = (w', Returned (bool_decide (admin_username (users_admin cfg) = ""
                                       ∨ admin_password (users_admin cfg) = "")))) as Hsetup.
  { unfold Setup.isInitialSetupRequired, try_catch, bind. rewrite getUsersConfig_run.
    fold cfg w'. unfold ret. do 2 f_equal.
    apply eq_true_iff_eq.
    by rewrite bool_decide_eq_true, orb_true_iff, !negb_true_iff, !truthy_empty. }
  assert (∀ username password role,
            Auth.login username password role w
            = (w', Returned (Auth.check cfg username password role))) as Hlogin.
  { intros username password role. unfold Auth.login, bind.
    by rewrite getUsersConfig_run. }
  split; [exact Hsetup |]. split; [exact Hlogin |]. split; [done |]. split; [done |].
  intros Hnone.
  assert (cfg = DEFAULT_USERS_CONFIG) as Hcfg.
  { subst cfg. destruct Hnone as [-> | ->]; [done | by destruct (fault _ _)]. }
  rewrite Hsetup. rewrite Hcfg. split; [done |].
  intros username password role. rewrite Hlogin, Hcfg. simpl.
  destruct role; simpl.
  - destruct (String.eqb_spec (Js.toLowerCase (Js.trim username)) "") as [Hname | Hname];
      destruct (String.eqb_spec password "") as [Hpass | Hpass]; simpl.
    + rewrite toLowerCase_empty in Hname. split; [by intros _ | intros _; by eexists].
    + split; [by intros [? [=]] | by intros (_ & _ & ?)].
    + split; [by intros [? [=]] |]. intros (_ & Htrim & _). by rewrite Htrim in Hname.
    + split; [by intros [? [=]] | by intros (_ & _ & ?)].
  - split; [by intros [? [=]] | by intros (? & _)].
Qed.

(** ** The pages of the table *)

Lemma ceil_div_spec a b :
  0 < b → (Pagination.ceil_div a b - 1) * b < a ≤ Pagination.ceil_div a b * b.
Proof. unfold Pagination.ceil_div. intros Hb. Z.div_mod_to_equations. nia. Qed.

Lemma slice_page {A} (xs : list A) size current :
  1 ≤ size → 1 ≤ current →
  Pagination.slice ((current - 1) * size) (current * size) xs
  = take (Z.to_nat size) (drop (Z.to_nat ((current - 1) * size)) xs).
Proof.
  intros Hsize Hcurrent. unfold Pagination.slice, Pagination.relative.
  assert (0 ≤ (current - 1) * size) as Hstart by nia.
  assert ((current - 1) * size + size = current * size) as Hnext by ring.
  destruct (Z.ltb_spec ((current - 1) * size) 0) as [? | _]; [lia |].
  destruct (Z.ltb_spec (current * size) 0) as [? | _]; [lia |].
  destruct (Z.le_gt_cases ((current - 1) * size) (Z.of_nat (length xs))) as [Hin | Hout].
  - rewrite (Z.min_l ((current - 1) * size)) by lia.
    destruct (Z.le_gt_cases (current * size) (Z.of_nat (length xs))) as [Hfull | Hlast].
    + rewrite Z.min_l by lia. f_equal. lia.
    + rewrite Z.min_r by lia. rewrite !take_ge; [done | |]; rewrite length_drop; lia.
  - rewrite !Z.min_r by lia. rewrite Z.sub_diag. simpl.
    rewrite (drop_ge xs (Z.to_nat ((current - 1) * size))) by lia.
    by rewrite take_nil.
Qed.

Lemma chunks {A} (xs : list A) size n :
  concat ((λ i, take size (drop (i * size) xs)) <$> seq 0 n) = take (n * size) xs.
Proof.
  induction n as [| n IH]; [done |].
  rewrite seq_S, fmap_app, concat_app, IH. simpl. rewrite app_nil_r.
  by rewrite take_take_drop, Nat.add_comm.
Qed.

(** X14. The page shown.  For a page size and a page number that are at
    least 1, the page in effect lies between 1 and the number of pages;
    what is shown is the stretch of the list that starts after the pages
    before it and has at most [pageSize] entries; it is empty only when
    the list is; and the pages from the first to the last, one after the
    other, are the list. *)
Theorem pages_partition (filteredProducts : list Product) pageSize page :
  1 ≤ pageSize → 1 ≤ page →
  let current := Pagination.currentPage filteredProducts pageSize page in
  let shown := Pagination.paginatedProducts filteredProducts pageSize page in
  1 ≤ current ≤ Pagination.totalPages filteredProducts pageSize
  ∧ shown = take (Z.to_nat pageSize)
                 (drop (Z.to_nat ((current - 1) * pageSize)) filteredProducts)
  ∧ Z.of_nat (length shown) ≤ pageSize
  ∧ (filteredProducts ≠ [] → shown ≠ [])
  ∧ concat ((λ p, Pagination.paginatedProducts filteredProducts pageSize p)
              <$> Pagination.pages (Pagination.totalPages filteredProducts pageSize))
    = filteredProducts.
Proof.
  intros Hsize Hpage current shown.
  pose proof (ceil_div_spec (Z.of_nat (length filteredProducts)) pageSize ltac:(lia))
    as Hceil.
  assert (1 ≤ Pagination.totalPages filteredProducts pageSize) as Htotal
    by (unfold Pagination.totalPages; lia).
  assert (1 ≤ current ≤ Pagination.totalPages filteredProducts pageSize) as Hcurrent
    by (subst current; unfold Pagination.currentPage; lia).
  assert (shown = take (Z.to_nat pageSize)
                       (drop (Z.to_nat ((current - 1) * pageSize)) filteredProducts))
    as Hshown by (subst shown; unfold Pagination.paginatedProducts; apply slice_page; lia).
  split; [done |]. split; [done |]. split; [| split].
  - rewrite Hshown, length_take. lia.
  - intros Hsome Hempty. apply (f_equal length) in Hempty.
    rewrite Hshown, length_take, length_drop in Hempty. simpl in Hempty.
    assert (0 < Z.of_nat (length filteredProducts)) as Hlen
      by (destruct filteredProducts; [done | simpl; lia]).
    unfold Pagination.totalPages in Hcurrent. nia.
  - unfold Pagination.pages. rewrite <- list_fmap_compose.
    rewrite (list_fmap_ext _ (λ i, take (Z.to_nat pageSize)
                                     (drop (i * Z.to_nat pageSize) filteredProducts))).
    + rewrite chunks, take_ge; [done |].
      unfold Pagination.totalPages in *. nia.
    + intros i p Hi. apply lookup_seq in Hi as [-> Hi]. simpl.
      unfold Pagination.paginatedProducts, Pagination.currentPage.
      rewrite Z.min_l by lia. rewrite slice_page by lia. do 2 f_equal. nia.
Qed.

Lemma pages_partition_witness :
  let listed := [Sample.shirt; Sample.shoes; Sample.watch] in
  Pagination.paginatedProducts listed 2 7 = [Sample.watch]
  ∧ Pagination.paginatedProducts listed 2 7 ≠ [].
Proof.
  intros listed.
  destruct (pages_partition listed 2 7 ltac:(lia) ltac:(lia)) as (_ & Hshown & _ & Hsome & _).
  split; [by rewrite Hshown | by apply Hsome].
Defined.

(** ** The product form *)

Lemma upsertProduct_effect p w :
  let id := upsert_id (Repo.input_id p) w in
  let run := Repo.upsertProduct p w in
  requests run.1 = (requests w ++ [upsert_product id])%list
  ∧ localStorage run.1 = localStorage w
  ∧ if fault w (length (requests w))
    then run.2 = Thrown (BackendError (upsert_product id)) ∧ database run.1 = database w
    else run.2 = Returned (Repo.to_product id (product_row p))
         ∧ products (database run.1) = <[id := product_row p]> (products (database w)).
Proof.
  intros id run. subst id run. unfold upsert_id, Repo.upsertProduct, bind, uid, ret.
  destruct (Repo.input_id p) as [given |]; simpl; rewrite request_run; simpl;
    destruct (fault w (length (requests w))); simpl; by repeat split.
Qed.

(** X15. The product form never throws.  When it reports a product as
    saved, the product has a name and a colour that are not blank, a stock
    that is the integer typed and not negative, and a sale price that is
    not below its cost; it is in the table under the identifier edited, or
    under a new one, the other products are as they were, and one upsert
    was sent.  When it reports an error the database is as it was: either
    nothing was sent at all, or the one upsert sent has failed. *)
Theorem product_form_saves_valid_products formState editingProduct w :
  let run := Inventory.handleSubmit formState editingProduct w in
  let id := upsert_id (product_id <$> editingProduct) w in
  match run.2 with
  | Returned (Inventory.saved p) =>
      product_id p = id
      ∧ product_name p = Js.trim (Inventory.form_name formState)
      ∧ product_color p = Js.trim (Inventory.form_color formState)
      ∧ Js.truthy (product_name p) = true ∧ Js.truthy (product_color p) = true
      ∧ Js.parseInt (Inventory.form_stock formState) = Some (product_stock p)
      ∧ 0 ≤ product_stock p
      ∧ Inventory.form_cost formState = Some (product_cost p)
      ∧ Inventory.form_salePrice formState = Some (product_salePrice p)
      ∧ product_cost p ≤ product_salePrice p
      ∧ Repo.to_product id <$> products (database run.1) !! id = Some p
      ∧ (∀ other, other ≠ id →
           products (database run.1) !! other = products (database w) !! other)
      ∧ requests run.1 = (requests w ++ [upsert_product id])%list
  | Returned (Inventory.form_error message) =>
      database run.1 = database w
      ∧ (run.1 = w
         ∨ (requests run.1 = (requests w ++ [upsert_product id])%list
            ∧ fault w (length (requests w)) = true
            ∧ message = match editingProduct with
                        | Some _ => Inventory.MSG_UPDATE_FAILED
                        | None => Inventory.MSG_SAVE_FAILED
                        end))
  | Thrown _ => False
  end.
Proof.
  intros run id. subst run. unfold Inventory.handleSubmit.
  destruct (Js.truthy (Js.trim (Inventory.form_name formState))) eqn:Hname;
    [| simpl; by auto].
  destruct (Js.truthy (Js.trim (Inventory.form_color formState))) eqn:Hcolor;
    [| simpl; by auto].
  simpl.
  destruct (Js.parseInt (Inventory.form_stock formState)) as [stockValue |] eqn:Hstock;
    [| simpl; by auto].
  destruct (Z.ltb_spec stockValue 0) as [? | Hpositive]; [simpl; by auto |].
  destruct (Inventory.form_cost formState) as [costValue |] eqn:Hcost; [| simpl; by auto].
  destruct (Inventory.form_salePrice formState) as [salePriceValue |] eqn:Hprice;
    [| simpl; by auto].
  destruct (Z.ltb_spec salePriceValue costValue) as [? | Hmargin]; [simpl; by auto |].
  set (input given :=
         {| Repo.input_id := given;
            Repo.input_name := Js.trim (Inventory.form_name formState);
            Repo.input_color := Js.trim (Inventory.form_color formState);
            Repo.input_stock := stockValue;
            Repo.input_cost := costValue;
            Repo.input_salePrice := salePriceValue;
            Repo.input_image := Inventory.form_image formState editingProduct |}).
  pose proof (upsertProduct_effect (input (product_id <$> editingProduct)) w) as Hup.
  simpl in Hup. fold id in Hup.
  destruct editingProduct as [editing |]; simpl in *;
    unfold try_catch, bind;
    destruct (Repo.upsertProduct _ w) as [w1 out]; simpl in Hup;
    destruct Hup as (Hreq & _ & Hout);
    destruct (fault w (length (requests w)));
    destruct Hout as [-> Hrows]; simpl.
  all: try (split; [done |]; right; by repeat split).
  all: rewrite Hname, Hcolor, Hrows, lookup_insert_eq; repeat split; try done.
  all: intros other Hother; by rewrite lookup_insert_ne.
Qed.

(** ** The import of a workbook *)

Lemma upsertProduct_new p w :
  Repo.input_id p = None →
  let id := uid_source w (uid_drawn w) in
  Repo.upsertProduct p w
  = if fault w (length (requests w))
    then (log_request (upsert_product id) (draw_uid w),
          Thrown (BackendError (upsert_product id)))
    else (set_database (set_products (insert id (product_row p)) (database w))
            (log_request (upsert_product id) (draw_uid w)),
          Returned (Repo.to_product id (product_row p))).
Proof.
  intros Hnew id. unfold Repo.upsertProduct, bind, uid, ret. rewrite Hnew.
  rewrite request_run. simpl. by destruct (fault w (length (requests w))).
Qed.

Lemma imported_importable row p : Inventory.imported row = Some p → importable p.
Proof.
  unfold Inventory.imported, importable.
  destruct (Js.truthy (Inventory.import_name row)) eqn:Hname; [| done].
  destruct (Js.truthy (Inventory.import_color row)) eqn:Hcolor; [| done]. simpl.
  destruct (Js.parseInt (Inventory.import_stock row)) as [stockValue |]; [| done].
  destruct (Z.ltb_spec stockValue 0); [done |].
  destruct (Inventory.import_cost row) as [costValue |]; [| done].
  destruct (Inventory.import_salePrice row) as [salePriceValue |]; [| done].
  destruct (Z.ltb_spec salePriceValue costValue); [done |].
  intros [= <-]. simpl. by repeat split.
Qed.

(** The loop of the import: the products are stored in the order of the
    rows, up to the first request that fails. *)
Lemma import_loop ps w :
  Forall (λ p, Repo.input_id p = None) ps →
  let run := for_of ps (λ p, Repo.upsertProduct p ;; ret tt) w in
  ∃ k, (k ≤ length ps)%nat
       ∧ products (database run.1)
         = saved_under (uid_source w) (uid_drawn w) (take k ps) (products (database w))
       ∧ match run.2 with
         | Returned _ => k = length ps
         | Thrown _ => (k < length ps)%nat ∧ fault w (length (requests w) + k) = true
         end.
Proof.
  set (body := λ p, Repo.upsertProduct p ;; ret tt).
  revert w. induction ps as [| p ps IH]; intros w Hnew.
  - exists 0%nat. by repeat split.
  - apply Forall_cons in Hnew as [Hp Hnew].
    assert (for_of (p :: ps) body w
            = if fault w (length (requests w))
              then (log_request (upsert_product (uid_source w (uid_drawn w))) (draw_uid w),
                    Thrown (BackendError (upsert_product (uid_source w (uid_drawn w)))))
              else for_of ps body
                     (set_database
                        (set_products (insert (uid_source w (uid_drawn w)) (product_row p))
                           (database w))
                        (log_request (upsert_product (uid_source w (uid_drawn w)))
                           (draw_uid w)))) as Hstep.
    { simpl. unfold bind at 1. unfold body at 1. unfold bind at 1.
      rewrite (upsertProduct_new p w Hp).
      by destruct (fault w (length (requests w))). }
    intros run. subst run. rewrite Hstep. clear Hstep.
    destruct (fault w (length (requests w))) eqn:Hf.
    + exists 0%nat. rewrite Nat.add_0_r. simpl. repeat split; try done; lia.
    + match goal with |- context [for_of ps body ?w0] => specialize (IH w0 Hnew) end.
      simpl in IH. destruct IH as (k & Hk & Hproducts & Hout).
      exists (S k). split; [simpl; lia |]. split; [by rewrite Hproducts |].
      destruct (for_of ps body _) as [w1 [[] | e]]; simpl in *; [lia |].
      destruct Hout as (Hlt & Hfault).
      rewrite length_app, <- Nat.add_assoc in Hfault. simpl in Hfault.
      split; [lia | done].
Qed.

(** X16. The import never throws.  Every row it keeps has a name and a
    colour, a stock that is not negative and a sale price that is not below
    its cost; the rows kept are stored as new products in the order of the
    workbook, up to the first request that fails, and all of them when
    every request is answered.  Nothing else is changed in the table. *)
Theorem import_stores_accepted_rows rows w :
  let run := Inventory.handleImportFile rows w in
  let importedProducts := omap Inventory.imported rows in
  run.2 = Returned tt
  ∧ Forall importable importedProducts
  ∧ (∃ k, (k ≤ length importedProducts)%nat
          ∧ products (database run.1)
            = saved_under (uid_source w) (uid_drawn w) (take k importedProducts)
                (products (database w))
          ∧ ((∀ n, (n < length importedProducts)%nat →
                   fault w (length (requests w) + n) = false) →
             k = length importedProducts)).
Proof.
  intros run importedProducts. subst run.
  assert (Forall importable importedProducts) as Hchecked.
  { apply Forall_forall. intros p (row & _ & Hrow)%list_elem_of_omap.
    by eapply imported_importable. }
  unfold Inventory.handleImportFile, try_catch. fold importedProducts.
  destruct (import_loop importedProducts w) as (k & Hk & Hproducts & Hout).
  { eapply Forall_impl; [exact Hchecked |]. by intros p (? & _). }
  simpl in *.
  destruct (for_of importedProducts _ w) as [w1 [[] | e]]; simpl in *.
  - split; [done |]. split; [done |]. exists k. by repeat split.
  - destruct Hout as (Hlt & Hfault).
    split; [done |]. split; [done |]. exists k. repeat split; [done | done |].
    intros Hanswered. rewrite Hanswered in Hfault; [done | lia].
Qed.

(** ** The sales orders kept in the browser *)

Lemma loadStoredSalesOrders_run w :
  SalesOrders.loadStoredSalesOrders w
  = (w, Returned (default [] (stored_sales_orders (localStorage w)))).
Proof.
  unfold SalesOrders.loadStoredSalesOrders, try_catch, bind, getItem, ret.
  by destruct (stored_sales_orders (localStorage w)).
Qed.

Lemma nextSequence_eq w :
  let cfg := read_tickets_config (localStorage w) in
  SalesOrders.nextSequence w
  = (if storage_full w (storage_writes w) then skip_storage_write w
     else set_localStorage
            {| stored_tickets_config := Some (document_of (counted cfg));
               stored_sales_orders := stored_sales_orders (localStorage w) |} w,
     Returned (counter_value (nextNumber (tickets_order cfg)))).
Proof.
  intros cfg. destruct (getTicketsConfig_returns w) as (cfg' & Hcfg & _ & Heq).
  fold cfg in Heq. subst cfg'.
  unfold SalesOrders.nextSequence.
  unfold try_catch at 1. rewrite (run_bind _ _ _ _ _ Hcfg). cbv zeta.
  rewrite counter_value_spec. fold (counted cfg).
  unfold bind, Settings.saveTicketsConfig, try_catch, setItem, ret.
  by destruct (storage_full w (storage_writes w)).
Qed.

Lemma persistSalesOrder_eq order w :
  SalesOrders.persistSalesOrder order w
  = (if storage_full w (storage_writes w) then skip_storage_write w
     else set_localStorage
            {| stored_tickets_config := stored_tickets_config (localStorage w);
               stored_sales_orders :=
                 Some (order :: default [] (stored_sales_orders (localStorage w))) |} w,
     Returned tt).
Proof.
  unfold SalesOrders.persistSalesOrder, try_catch, bind.
  rewrite loadStoredSalesOrders_run. unfold setItem, ret.
  by destruct (storage_full w (storage_writes w)).
Qed.

(** How a sales order that is reported as saved has run. *)
Lemma sales_order_run pg w w' order :
  SalesOrders.handleSubmit pg w = (w', Returned (SalesOrders.saved order)) →
  let cfg := read_tickets_config (localStorage w) in
  let kept := default [] (stored_sales_orders (localStorage w)) in
  validation pg = None
  ∧ so_id order = uid_source w (uid_drawn w)
  ∧ so_sequence order = Some (counter_value (nextNumber (tickets_order cfg)))
  ∧ so_items order = SalesOrders.to_item <$> cart pg
  ∧ so_subtotal order = subtotal pg ∧ so_discount order = discountAmount pg
  ∧ so_total order = total pg
  ∧ database w' = database w ∧ requests w' = requests w
  ∧ stored_tickets_config (localStorage w')
    = (if storage_full w (storage_writes w) then stored_tickets_config (localStorage w)
       else Some (document_of (counted cfg)))
  ∧ default [] (stored_sales_orders (localStorage w'))
    = (if storage_full w (S (storage_writes w)) then kept else order :: kept)
  ∧ storage_full w' = storage_full w ∧ storage_writes w' = S (S (storage_writes w)).
Proof.
  intros Hrun cfg kept.
  destruct (sales_order_saved_inv _ _ _ _ Hrun) as [[u Hu] Hv].
  destruct (validation_passed pg Hv) as (client & Hclient & Hcart & Hdiscount).
  unfold SalesOrders.handleSubmit in Hrun.
  rewrite Hu, Hclient, Hcart, Hdiscount in Hrun.
  unfold bind at 1 in Hrun. rewrite nextSequence_eq in Hrun. fold cfg in Hrun.
  unfold bind at 1 in Hrun. unfold uid at 1 in Hrun.
  unfold bind at 1 in Hrun. rewrite persistSalesOrder_eq in Hrun.
  unfold ret in Hrun. injection Hrun as <- <-. simpl.
  split; [done |].
  destruct (storage_full w (storage_writes w)); simpl;
    destruct (storage_full w (S (storage_writes w))); simpl; by repeat split.
Qed.

Lemma line_totals lines acc :
  fold_left Z.add (so_item_lineTotal <$> (SalesOrders.to_item <$> lines)) acc
  = fold_left (λ sum line, sum + product_salePrice (product line) * quantity line) lines acc.
Proof.
  revert acc. induction lines as [| line lines IH]; intros acc; simpl; [done | apply IH].
Qed.

(** X17. A sales order that is reported as saved has sent nothing to the
    database.  Its subtotal is the sum of its lines and its total the
    subtotal less the discount, which is not negative.  It is the first of
    the orders read back from the browser, before those kept so far,
    unless the browser has refused the write: then the orders read back
    are those kept so far, and the order is not among the stored ones
    although it was reported as saved. *)
Theorem sales_order_kept_in_browser pg w w' order :
  SalesOrders.handleSubmit pg w = (w', Returned (SalesOrders.saved order)) →
  let kept := default [] (stored_sales_orders (localStorage w)) in
  database w' = database w ∧ requests w' = requests w
  ∧ so_items order = SalesOrders.to_item <$> cart pg
  ∧ so_subtotal order = fold_left Z.add (so_item_lineTotal <$> so_items order) 0
  ∧ so_total order = so_subtotal order - so_discount order
  ∧ 0 ≤ so_total order
  ∧ SalesOrders.loadStoredSalesOrders w'
    = (w', Returned (if storage_full w (S (storage_writes w)) then kept
                     else order :: kept)).
Proof.
  intros Hrun kept.
  destruct (sales_order_run _ _ _ _ Hrun)
    as (Hv & _ & _ & Hitems & Hsub & Hdisc & Htotal & Hdb & Hreq & _ & Hkept & _).
  destruct (validation_passed pg Hv) as (_ & _ & _ & Hdiscount).
  rewrite loadStoredSalesOrders_run, Hkept, Hitems, line_totals, Hsub, Hdisc, Htotal.
  fold (subtotal pg). unfold total. repeat split; try done; lia.
Qed.

Lemma sales_order_kept_in_browser_witness :
  let pg := Sample.page [{| product := Sample.shirt; quantity := 2 |}] (Some 20) in
  let w := Sample.world (Sample.stocked [Sample.shirt]) [] in
  let run := SalesOrders.handleSubmit pg w in
  ∃ order, SalesOrders.loadStoredSalesOrders run.1 = (run.1, Returned [order])
           ∧ so_total order = 400.
Proof.
  intros pg w run.
  assert (∃ order, run = (run.1, Returned (SalesOrders.saved order))) as [order Hrun].
  { eexists. vm_compute. reflexivity. }
  destruct (sales_order_kept_in_browser pg w run.1 order Hrun) as (_ & _ & _ & _ & _ & _ & Hback).
  exists order. split; [exact Hback |].
  assert (run.2 = Returned (SalesOrders.saved order)) as Hout by (by rewrite Hrun).
  vm_compute in Hout. by injection Hout as <-.
Defined.

(** X18. When the browser refuses the write of the counter, the next
    sales order is given the same number again. *)
Theorem refused_counter_repeats_number pg1 pg2 w w1 w2 order1 order2 :
  SalesOrders.handleSubmit pg1 w = (w1, Returned (SalesOrders.saved order1)) →
  storage_full w (storage_writes w) = true →
  SalesOrders.handleSubmit pg2 w1 = (w2, Returned (SalesOrders.saved order2)) →
  ∃ number, so_sequence order1 = Some number ∧ so_sequence order2 = Some number.
Proof.
  intros Hrun1 Hfull Hrun2.
  destruct (sales_order_run _ _ _ _ Hrun1) as (_ & _ & Hseq1 & _ & _ & _ & _ & _ & _ & Hcfg & _).
  destruct (sales_order_run _ _ _ _ Hrun2) as (_ & _ & Hseq2 & _).
  rewrite Hfull in Hcfg.
  eexists. split; [exact Hseq1 |]. rewrite Hseq2.
  unfold read_tickets_config. by rewrite Hcfg.
Qed.

Lemma refused_counter_repeats_number_witness :
  let pg := Sample.page [{| product := Sample.shirt; quantity := 2 |}] None in
  let w := {| database := Sample.stocked [Sample.shirt];
              localStorage := {| stored_tickets_config := None; stored_sales_orders := None |};
              requests := []; fault := λ _, false;
              uid_source := λ n, "uid-" +:+ pretty n; uid_drawn := 0;
              storage_full := λ n, bool_decide (n = 0%nat); storage_writes := 0 |} in
  let run1 := SalesOrders.handleSubmit pg w in
  let run2 := SalesOrders.handleSubmit pg run1.1 in
  ∃ order1 order2,
    run1.2 = Returned (SalesOrders.saved order1)
    ∧ run2.2 = Returned (SalesOrders.saved order2)
    ∧ so_sequence order1 = so_sequence order2
    ∧ so_id order1 = "uid-0" ∧ so_id order2 = "uid-1".
Proof.
  intros pg w run1 run2.
  assert (∃ order, run1 = (run1.1, Returned (SalesOrders.saved order))
                   ∧ so_id order = "uid-0") as (order1 & Hrun1 & Hid1).
  { eexists. split; vm_compute; reflexivity. }
  assert (∃ order, run2 = (run2.1, Returned (SalesOrders.saved order))
                   ∧ so_id order = "uid-1") as (order2 & Hrun2 & Hid2).
  { eexists. split; vm_compute; reflexivity. }
  assert (storage_full w (storage_writes w) = true) as Hfull by (vm_compute; reflexivity).
  destruct (refused_counter_repeats_number pg pg w run1.1 run2.1 order1 order2
              Hrun1 Hfull Hrun2) as (number & Hseq1 & Hseq2).
  exists order1, order2. rewrite Hrun1, Hrun2. repeat split; [congruence | done | done].
Defined.

(** ** The cart handlers, one after the other *)

Lemma same_product_with_quantity id q line :
  RegisterSale.same_product id (RegisterSale.with_quantity q line)
  = RegisterSale.same_product id line.
Proof. done. Qed.

Lemma with_quantity_same line : RegisterSale.with_quantity (quantity line) line = line.
Proof. by destruct line. Qed.

Lemma remove_requantified id (f : CartLine → Z) cart :
  RegisterSale.handleRemoveLine id
    ((λ line, if RegisterSale.same_product id line
              then RegisterSale.with_quantity (f line) line else line) <$> cart)
  = RegisterSale.handleRemoveLine id cart.
Proof.
  unfold RegisterSale.handleRemoveLine.
  induction cart as [| line cart IH]; [done |]. rewrite fmap_cons.
  destruct (RegisterSale.same_product id line) eqn:Hsame.
  - rewrite !filter_cons_False; [done | |];
      rewrite ?same_product_with_quantity, Hsame; by intros ?.
  - rewrite !filter_cons_True, IH; [done | |]; by rewrite Hsame.
Qed.

Lemma remove_absent id cart :
  id ∉ line_product_id <$> cart → RegisterSale.handleRemoveLine id cart = cart.
Proof.
  unfold RegisterSale.handleRemoveLine.
  induction cart as [| line cart IH]; [done |]. rewrite fmap_cons.
  intros Hout. apply not_elem_of_cons in Hout as [Hne Hout].
  rewrite filter_cons_True, IH; [done | done |].
  destruct (RegisterSale.same_product id line) eqn:Hsame; [| done].
  apply same_product_spec in Hsame. congruence.
Qed.

(** X19. The cart handlers composed.  Removing a product right after
    adding it gives the cart without that product, which is the cart as it
    was when the product was not in it; of two quantities typed for a
    product the second is the one that counts; adjusting by zero leaves a
    cart whose quantities are within stock as it is; and removals can be
    done in any order. *)
Theorem cart_handlers_compose cart :
  (∀ p, RegisterSale.handleRemoveLine (product_id p) (RegisterSale.handleAddProduct p cart)
        = RegisterSale.handleRemoveLine (product_id p) cart)
  ∧ (∀ p, product_id p ∉ line_product_id <$> cart →
          RegisterSale.handleRemoveLine (product_id p) (RegisterSale.handleAddProduct p cart)
          = cart)
  ∧ (∀ id q1 q2,
       RegisterSale.handleUpdateQuantity id q2 (RegisterSale.handleUpdateQuantity id q1 cart)
       = RegisterSale.handleUpdateQuantity id q2 cart)
  ∧ (∀ id, Forall within_stock cart → RegisterSale.handleAdjustQuantity id 0 cart = cart)
  ∧ (∀ id1 id2,
       RegisterSale.handleRemoveLine id1 (RegisterSale.handleRemoveLine id2 cart)
       = RegisterSale.handleRemoveLine id2 (RegisterSale.handleRemoveLine id1 cart)).
Proof.
  assert (∀ p, RegisterSale.handleRemoveLine (product_id p)
                 (RegisterSale.handleAddProduct p cart)
               = RegisterSale.handleRemoveLine (product_id p) cart) as Hadded.
  { intros p. unfold RegisterSale.handleAddProduct.
    destruct (find _ cart) as [existing |].
    - apply (remove_requantified (product_id p)
               (λ line, Z.min (quantity line + 1) (product_stock p))).
    - unfold RegisterSale.handleRemoveLine. rewrite filter_app.
      rewrite (filter_cons_False _ _ []), filter_nil, app_nil_r; [done |].
      unfold RegisterSale.same_product. simpl. rewrite String.eqb_refl. by intros ?. }
  split; [exact Hadded |]. split; [| split; [| split]].
  - intros p Hnew. rewrite Hadded. by apply remove_absent.
  - intros id q1 q2. unfold RegisterSale.handleUpdateQuantity.
    rewrite <- list_fmap_compose. apply list_fmap_ext. intros i line _. simpl.
    destruct (RegisterSale.same_product id line) eqn:Hsame;
      [by rewrite same_product_with_quantity, Hsame | by rewrite Hsame].
  - intros id Hcart. unfold RegisterSale.handleAdjustQuantity.
    rewrite <- (list_fmap_id cart) at 2. apply Forall_fmap_ext. 
    eapply Forall_impl; [exact Hcart |]. intros line Hline. unfold within_stock in Hline.
    destruct (RegisterSale.same_product id line); simpl; [| done].
    replace (Z.max 1 (Z.min (quantity line + 0) (product_stock (product line))))
      with (quantity line) by lia.
    apply with_quantity_same.
  - intros id1 id2. unfold RegisterSale.handleRemoveLine.
    rewrite !list_filter_filter. apply list_filter_iff. tauto.
Qed.

(** ** The history page *)

Lemma history_load_run w :
  History.load w = (w, Returned (default [] (stored_sales_orders (localStorage w)))).
Proof.
  unfold History.load, try_catch, bind, getItem, ret.
  by destruct (stored_sales_orders (localStorage w)).
Qed.

Lemma deleteOne_run user id w :
  History.isAdmin user = true →
  History.deleteOne user true id w
  = if storage_full w (storage_writes w)
    then (skip_storage_write w, Returned (Some History.MSG_NOT_DELETED))
    else (set_localStorage
            {| stored_tickets_config := stored_tickets_config (localStorage w);
               stored_sales_orders :=
                 Some (filter (λ o, so_id o ≠ id)
                         (default [] (stored_sales_orders (localStorage w)))) |} w,
          Returned (Some History.MSG_DELETED)).
Proof.
  intros Hadmin. unfold History.deleteOne. rewrite Hadmin. simpl.
  unfold try_catch, bind, getItem, setItem.
  destruct (storage_full w (storage_writes w)); [done |].
  by rewrite history_load_run.
Qed.

Lemma handleClear_run user order data w :
  History.isAdmin user = true →
  History.handleClear user (order :: data) true w
  = if storage_full w (storage_writes w)
    then (skip_storage_write w, Thrown QuotaExceeded)
    else (set_localStorage
            {| stored_tickets_config := stored_tickets_config (localStorage w);
               stored_sales_orders := Some [] |} w,
          Returned None).
Proof.
  intros Hadmin. unfold History.handleClear. rewrite Hadmin.
  cbn [negb length Nat.eqb].
  unfold bind at 1, History.clear, try_finally. unfold bind, setItem, ret.
  destruct (storage_full w (storage_writes w)); cbv beta iota zeta;
    by rewrite history_load_run.
Qed.

(** X20. The history page writes for administrators only, and never
    throws from [deleteOne].  For anyone else, [deleteOne] and
    [handleClear] answer with their message and leave the world as it is,
    and so does an administrator who does not confirm.  When an
    administrator confirms and the browser takes the write, the orders read
    back after [deleteOne] are those kept before without the ones that have
    the identifier given, in the same order; after [handleClear] none is
    read back.  The database is never touched. *)
Theorem history_is_for_administrators user ok id data kept w :
  stored_sales_orders (localStorage w) = Some kept →
  let deleted := History.deleteOne user ok id w in
  let cleared := History.handleClear user data ok w in
  (∃ message, deleted.2 = Returned message)
  ∧ database deleted.1 = database w ∧ requests deleted.1 = requests w
  ∧ database cleared.1 = database w ∧ requests cleared.1 = requests w
  ∧ (History.isAdmin user = false →
     deleted = (w, Returned (Some History.MSG_DELETE_ADMINS))
     ∧ cleared = (w, Returned (Some History.MSG_CLEAR_ADMINS)))
  ∧ (ok = false → deleted.1 = w ∧ cleared.1 = w)
  ∧ (History.isAdmin user = true → ok = true →
     storage_full w (storage_writes w) = false →
     History.load deleted.1
     = (deleted.1, Returned (filter (λ o, so_id o ≠ id) kept))
     ∧ (data ≠ [] → History.load cleared.1 = (cleared.1, Returned []))).
Proof.
  intros Hkept deleted cleared. subst deleted cleared.
  destruct (History.isAdmin user) eqn:Hadmin.
  2: { unfold History.deleteOne, History.handleClear. rewrite Hadmin. simpl.
       repeat split; try done. by eexists. }
  destruct ok.
  2: { unfold History.deleteOne, History.handleClear. rewrite Hadmin. simpl.
       destruct (length data =? 0)%nat; simpl; repeat split; try done; by eexists. }
  rewrite (deleteOne_run user id w Hadmin).
  destruct data as [| order data].
  - unfold History.handleClear. rewrite Hadmin. cbn [negb length Nat.eqb].
    destruct (storage_full w (storage_writes w)) eqn:Hfull; simpl;
      rewrite ?history_load_run; simpl; rewrite ?Hkept; simpl;
      repeat split; try done; by eexists.
  - rewrite (handleClear_run user order data w Hadmin).
    destruct (storage_full w (storage_writes w)) eqn:Hfull; simpl;
      rewrite ?history_load_run; simpl; rewrite ?Hkept; simpl;
      repeat split; try done; by eexists.
Qed.

Lemma history_is_for_administrators_witness :
  let pg := Sample.page [{| product := Sample.shirt; quantity := 2 |}] None in
  let w := (SalesOrders.handleSubmit pg (Sample.world (Sample.stocked [Sample.shirt]) [])).1 in
  let operator_user := Some {| user_username := "Turno"; user_role := operator |} in
  (History.deleteOne operator_user true "uid-0" w).1 = w
  ∧ (History.load (History.deleteOne (Some Sample.anahi) true "uid-0" w).1).2 = Returned [].
Proof.
  intros pg w operator_user.
  assert (∃ kept, stored_sales_orders (localStorage w) = Some kept) as [kept Hkept].
  { eexists. vm_compute. reflexivity. }
  destruct (history_is_for_administrators operator_user true "uid-0" [] kept w Hkept)
    as (_ & _ & _ & _ & _ & Hother & _).
  destruct (Hother eq_refl) as [Hdeleted _].
  split; [by rewrite Hdeleted |].
  vm_compute. reflexivity.
Defined.

(** X21. A sales order that was saved and is then deleted in the history
    by an administrator leaves the orders kept in the browser as they were
    before it was saved, provided its identifier was new among them and the
    browser has taken both writes. *)
Theorem saved_order_deleted_again pg user w w1 order :
  SalesOrders.handleSubmit pg w = (w1, Returned (SalesOrders.saved order)) →
  History.isAdmin user = true →
  storage_full w (S (storage_writes w)) = false →
  storage_full w (S (S (storage_writes w))) = false →
  Forall (λ o, so_id o ≠ so_id order) (default [] (stored_sales_orders (localStorage w))) →
  let run := History.deleteOne user true (so_id order) w1 in
  run.2 = Returned (Some History.MSG_DELETED)
  ∧ History.load w1
    = (w1, Returned (order :: default [] (stored_sales_orders (localStorage w))))
  ∧ History.load run.1
    = (run.1, Returned (default [] (stored_sales_orders (localStorage w)))).
Proof.
  intros Hrun Hadmin Hpersist Hdelete Hnew run. subst run.
  destruct (sales_order_run _ _ _ _ Hrun)
    as (_ & _ & _ & _ & _ & _ & _ & _ & _ & _ & Hkept & Hfull & Hwrites).
  rewrite Hpersist in Hkept.
  rewrite (deleteOne_run user (so_id order) w1 Hadmin).
  rewrite Hfull, Hwrites, Hdelete. simpl.
  rewrite !history_load_run. simpl. rewrite Hkept.
  split; [done |]. split; [done |]. do 2 f_equal.
  rewrite filter_cons_False by (by intros ?).
  clear -Hnew. induction Hnew as [| o kept Ho _ IH]; [done |].
  by rewrite filter_cons_True, IH.
Qed.

Lemma saved_order_deleted_again_witness :
  let pg := Sample.page [{| product := Sample.shirt; quantity := 2 |}] None in
  let w := Sample.world (Sample.stocked [Sample.shirt]) [] in
  let w1 := (SalesOrders.handleSubmit pg w).1 in
  (History.load (History.deleteOne (Some Sample.anahi) true "uid-0" w1).1).2 = Returned [].
Proof.
  intros pg w w1.
  assert (∃ order, SalesOrders.handleSubmit pg w = (w1, Returned (SalesOrders.saved order))
                   ∧ so_id order = "uid-0") as (order & Hrun & Hid).
  { eexists. split; vm_compute; reflexivity. }
  assert (Forall (λ o, so_id o ≠ so_id order)
            (default [] (stored_sales_orders (localStorage w)))) as Hnew by constructor.
  destruct (saved_order_deleted_again pg (Some Sample.anahi) w w1 order
              Hrun eq_refl eq_refl eq_refl Hnew) as (_ & _ & Hback).
  rewrite Hid in Hback. by rewrite Hback.
Defined.

(** ** The headers of a workbook *)

Lemma normalized_is_plain value :
  let normalized := Headers.normalizeHeaderKey value in
  Js.toLowerCase normalized = normalized
  ∧ Text.without Text.not_alphanumeric normalized = normalized.
Proof.
  unfold Headers.normalizeHeaderKey.
  induction value as [| c value [IHlower IHplain]]; [done |]. simpl.
  destruct (Text.not_alphanumeric (Js.lower_ascii c)) eqn:Hc; [done |]. simpl.
  rewrite Hc, lower_ascii_lower. by rewrite IHlower, IHplain.
Qed.

Example headers_recognised :
  Headers.getCanonicalColumn "Precio Venta (Bs.)" = Some "precioventa"
  ∧ Headers.getCanonicalColumn " COSTO unitario" = Some "costo"
  ∧ Headers.getCanonicalColumn "Producto - Nombre" = Some "nombre"
  ∧ Headers.getCanonicalColumn "Talla" = None.
Proof. repeat split; reflexivity. Qed.

(** X22. The columns of an imported workbook are recognised by their
    headers without regard to case, blanks and punctuation: normalising a
    header twice is normalising it once, and two headers with the same
    normal form name the same column.  The column found is one of the
    required ones; every alias of the table is recognised as the column
    it is listed under, and every required column as itself. *)
Theorem headers_are_normalised header :
  Headers.normalizeHeaderKey (Headers.normalizeHeaderKey header)
  = Headers.normalizeHeaderKey header
  ∧ (∀ other, Headers.normalizeHeaderKey other = Headers.normalizeHeaderKey header →
              Headers.getCanonicalColumn other = Headers.getCanonicalColumn header)
  ∧ Headers.getCanonicalColumn (Headers.normalizeHeaderKey header)
    = Headers.getCanonicalColumn header
  ∧ (∀ canonical, Headers.getCanonicalColumn header = Some canonical →
                  canonical ∈ Headers.REQUIRED_COLUMNS)
  ∧ (∀ canonical variants variant,
       (canonical, variants) ∈ Headers.COLUMN_ALIASES → variant ∈ variants →
       Headers.normalizeHeaderKey header = variant →
       Headers.getCanonicalColumn header = Some canonical)
  ∧ (∀ canonical, canonical ∈ Headers.REQUIRED_COLUMNS →
                  Headers.getCanonicalColumn canonical = Some canonical).
Proof.
  assert (Headers.normalizeHeaderKey (Headers.normalizeHeaderKey header)
          = Headers.normalizeHeaderKey header) as Hidem.
  { destruct (normalized_is_plain header) as [Hlower Hplain].
    unfold Headers.normalizeHeaderKey at 1. by rewrite Hlower. }
  assert (∀ other, Headers.normalizeHeaderKey other = Headers.normalizeHeaderKey header →
                   Headers.getCanonicalColumn other = Headers.getCanonicalColumn header)
    as Hsame by (intros other Heq; unfold Headers.getCanonicalColumn; by rewrite Heq).
  split; [exact Hidem |]. split; [exact Hsame |]. split; [by apply Hsame |].
  split; [| split].
  - intros canonical. unfold Headers.getCanonicalColumn.
    destruct (find _ _) as [entry |] eqn:Hfind; [| done].
    intros [= <-]. apply find_some in Hfind as [Hin _].
    apply list_elem_of_fmap. exists entry. split; [done |].
    by apply list_elem_of_In.
  - intros canonical variants variant Hentry Hvariant Hheader.
    unfold Headers.getCanonicalColumn. rewrite Hheader. clear Hheader.
    unfold Headers.COLUMN_ALIASES in Hentry.
    repeat (apply elem_of_cons in Hentry as [[= -> ->] | Hentry];
            [repeat (apply elem_of_cons in Hvariant as [-> | Hvariant]; [reflexivity |]);
             by apply elem_of_nil in Hvariant |]).
    by apply elem_of_nil in Hentry.
  - intros canonical Hrequired. unfold Headers.REQUIRED_COLUMNS in Hrequired. simpl in Hrequired.
    repeat (apply elem_of_cons in Hrequired as [-> | Hrequired]; [reflexivity |]).
    by apply elem_of_nil in Hrequired.
Qed.

(** ** The user name typed at the login *)

Lemma check_by_normal_form cfg username other password role :
  Js.toLowerCase (Js.trim username) = Js.toLowerCase (Js.trim other) →
  Auth.check cfg username password role = Auth.check cfg other password role.
Proof.
  intros Hsame. unfold Auth.check. destruct role; simpl; [by rewrite Hsame |].
  assert (find (Auth.operator_matches (Js.trim username) password) (users_operators cfg)
          = find (Auth.operator_matches (Js.trim other) password) (users_operators cfg))
    as ->; [| done].
  induction (users_operators cfg) as [| o operators IH]; [done |]. simpl.
  unfold Auth.operator_matches at 1 3. by rewrite Hsame, IH.
Qed.

(** X23. For names in the ASCII range.  [login] takes the user name
    without regard to the case of its letters and to the white space
    around it: two names typed that are alike in this way get the same
    answer.  The password is compared as typed: the user returned is
    that of a record whose password is the text typed, and when the
    administrator logs in, no other password does.  The user returned
    carries the role asked for and the name as the configuration has it
    (of the administrator, or of an active operator), which is the name
    typed up to case and white space. *)
Theorem login_normalises_user_name username password role w :
  let cfg := if fault w (length (requests w)) then DEFAULT_USERS_CONFIG
             else default DEFAULT_USERS_CONFIG (settings_users (database w)) in
  Js.ascii_text username = true →
  ascii_names cfg →
  (∀ other typed typed',
     Js.ascii_text other = true →
     without_blanks_around username typed → without_blanks_around other typed' →
     same_ignoring_case typed typed' →
     Auth.login other password role w = Auth.login username password role w)
  ∧ (∀ user,
       (Auth.login username password role w).2 = Returned (Auth.success user) →
       user_role user = role
       ∧ (∃ typed, without_blanks_around username typed
                   ∧ same_ignoring_case typed (user_username user))
       ∧ match role with
         | admin =>
             user_username user = admin_username (users_admin cfg)
             ∧ password = admin_password (users_admin cfg)
         | operator =>
             ∃ o, o ∈ users_operators cfg
                  ∧ operator_active o = true
                  ∧ user_username user = operator_username o
                  ∧ password = operator_password o
         end)
  ∧ (∀ user other_password,
       (Auth.login username password admin w).2 = Returned (Auth.success user) →
       other_password ≠ password →
       (Auth.login username other_password admin w).2
       = Returned (Auth.failure Auth.INVALID_CREDENTIALS)).
Proof.
  intros cfg _ _. split; [| split].
  - intros other typed typed' _ Htyped%trim_spec Htyped'%trim_spec Hsame%toLowerCase_same.
    rewrite !login_run. do 2 f_equal. apply check_by_normal_form.
    by rewrite Htyped, Htyped'.
  - intros user. rewrite login_run. fold cfg. simpl. intros [= Hok].
    destruct (check_success _ _ _ _ _ Hok) as [Hrole Hrecord].
    split; [done |]. destruct role.
    + destruct Hrecord as (-> & Hname & Hpassword). by repeat split.
    + destruct Hrecord as (o & Hin & Hactive & -> & Hname & Hpassword).
      split; [done |]. exists o. by repeat split.
  - intros user other_password. rewrite !login_run. fold cfg. cbn [snd].
    intros Hrun Hother.
    assert (Auth.check cfg username password admin = Auth.success user) as Hok
      by congruence.
    destruct (check_success _ _ _ _ _ Hok) as (_ & _ & _ & Hpassword).
    destruct (check_answers cfg username other_password admin) as [[user' Hok'] | ->];
      [| done].
    destruct (check_success _ _ _ _ _ Hok') as (_ & _ & _ & Hpassword').
    congruence.
Qed.

Lemma login_normalises_user_name_witness :
  let users :=
    {| users_admin := {| admin_username := "Anahi"; admin_password := "clave-1" |};
       users_operators :=
         [{| operator_id := "op-1"; operator_username := "Luis";
             operator_password := "clave-2"; operator_active := true |}] |} in
  let d := {| products := ∅; clients := ∅; orders := ∅; order_items := ∅;
              orders_sequence := 1; settings_users := Some users |} in
  let w := Sample.world d [] in
  (Auth.login " LUIS" "clave-2" operator w).2
  = Returned (Auth.success {| user_username := "Luis"; user_role := operator |})
  ∧ (Auth.login "anahi" "Clave-1" admin w).2
    = Returned (Auth.failure Auth.INVALID_CREDENTIALS).
Proof.
  intros users d w.
  assert (ascii_names users) as Hnames.
  { split; [reflexivity |]. intros o Hin.
    apply list_elem_of_singleton in Hin as ->. reflexivity. }
  split.
  - assert (∃ user, (Auth.login " LUIS" "clave-2" operator w).2
                    = Returned (Auth.success user)) as [user Hok].
    { eexists. vm_compute. reflexivity. }
    destruct (proj1 (proj2 (login_normalises_user_name
                              " LUIS" "clave-2" operator w eq_refl Hnames)) user Hok)
      as (Hrole & _ & o & Hin & _ & Hname & _).
    apply list_elem_of_singleton in Hin as ->.
    rewrite Hok. destruct user as [name r]. simpl in *. by subst.
  - assert (∃ user, (Auth.login "anahi" "clave-1" admin w).2
                    = Returned (Auth.success user)) as [user Hok].
    { eexists. vm_compute. reflexivity. }
    apply (proj2 (proj2 (login_normalises_user_name
                           "anahi" "clave-1" admin w eq_refl Hnames)) user "Clave-1" Hok).
    by intros [=].
Defined.
